(* ===== verification/_CoqProject ===== *)
-Q . S2P
Prelude.v
React.v
Track.v
QueueSpec.v
Store.v
Playback.v
Views.v
NowPlayingUi.v
PlaylistUi.v
Boundary.v
Auth.v
Requests.v
App.v
Time.v
AudioPlayer.v
AuthEffect.v
Integration.v
