(* ===== verification/Prelude.v ===== *)
(** * A verification library for logi-22/Music-player

    The program is a single-page React client (src/src).  Its parts:

    - [src/src/store.jsx]: a zustand store (one global object) holding the
      favourites array, the [playlists] object (name -> array of tracks),
      the selected display list [currentPlaylist], the Supabase user, the
      auth flags and the Spotify access token, with the setters that the
      components call.
    - [src/src/App.jsx]: the playback controller.  React state [tracks],
      [trackIndex], [isPlaying], [query], [loading], [error], [player];
      the handlers [fetchTracks], [togglePlay], [nextTrack], [prevTrack],
      [playTrack], [handleSearch] and the Spotify SDK listener
      ["player_state_changed"].  Transport goes either to the hosted
      Spotify player (when a player object and a token exist) or to the
      local state.
    - [src/src/components/NowPlaying.jsx], [Playlist.jsx]: the views that
      call the store (favourite toggle, add to playlist, tab selection,
      play-by-index) and format times.
    - [src/src/api/spotify.js], [Callback.jsx], [Auth.jsx]: the OAuth URL,
      the parser of the redirect hash, the token hand-off and the login
      form.
    - [ErrorBoundary.jsx], [Player.jsx] (never imported), [vite.config.js]:
      presentation and build configuration.

    The library, in dependency order (verification/_CoqProject):

    - [Prelude] (this file): the JavaScript semantics the code relies on
      and that the other files share: truthiness of strings, [a || b] on
      numbers, array indexing [xs[i]] at an integer index,
      [Array.prototype.findIndex] (returns -1 when nothing matches), the
      integer remainder [%] of JavaScript (truncated, [Z.rem]), and the
      [js_result] type of a handler that completes or throws a
      [TypeError], with its bind notation in [js_scope].  The hint
      databases [music] (resolve) and [music_rw] (rewrite) collect the
      lemmas on these.
    - [React]: the interface of [useEffect] with a dependency array,
      as a record of operations ([deps], [last_deps], [commit]) with its
      laws ([effect_laws]) and what React does after a render
      ([use_effect], [use_effects2] for two effects in code order); the
      lemmas on them (an effect that ran is synced, running again
      changes nothing, what the body preserves the effect preserves) are
      proved once here and used by [App] (its two effects) and [Time]
      (NowPlaying's clock effect), whose effects are instances.
    - [Track]: the track record built by [fetchTracks] (App.jsx 114-121),
      the catalog item it is built from, and the two identities the code
      uses ([src] in the store, [uri] in the player and NowPlaying).
    - [QueueSpec]: the playback controller of the specification
      (spec.md sections 3 and 4.1) on the local backend: an abstract
      queue with an optional current position and a playing flag, and
      its operations [loadQueue], [togglePlay], [nextTrack], [prevTrack]
      and [playTrack] with the identity rule of section 3.  It is written
      from the specification, not from src/, and is the contract the
      controller is proved to refine.
    - [Store]: Module [Store], the zustand store of store.jsx: its state
      record, the JavaScript object [playlists] as a stdpp [gmap] of own
      properties together with the inherited members of
      [Object.prototype] (a lookup of an absent key such as "toString"
      returns a function, not undefined), every setter as a function
      from state to [js_result] state.
    - [Playback]: Module [Playback], the controller of App.jsx: the
      state record, the SDK player object with the [tracks] its listener
      closed over, the commands sent to the Spotify SDK as an output
      list, one function per handler ([togglePlay], [nextTrack],
      [prevTrack], [playTrack] with its local branch [play_local],
      [onPlayerStateChanged], the two halves of [fetchTracks]) and
      [handle], the dispatch of an [event] to its handler.
      [abstract] maps the controller's state to the specification's
      queue, [spec_op] an event to the operation it implements, and
      [run_events] handles a sequence of events.
    - [Views]: Module [NowPlaying] (the props App passes, [isFavorite],
      [handleFavoriteToggle], [handleAddToPlaylist], [handleSeek]) and
      Module [PlaylistView] ([displayTracks], [activeTab],
      [handleTabChange], the tab values, the play-button guard), with
      the store states the views can reach ([ui_reachable]); Module
      [ViewFacts] holds their theorems.
    - [PlaylistUi]: what Playlist.jsx renders (the tabs, the message of
      an empty list, one row per track with its number, cells, play
      button and, inside a playlist, remove button) and the clicks on
      a tab or on a row's buttons.
    - [NowPlayingUi]: what NowPlaying.jsx renders (texts, which controls
      are disabled, one "Add to {name}" button per own key of
      [playlists]) from its props, the store and its [playlistName]
      input, and its events (a keystroke, "Add", "Add to {name}", the
      favourite button), admitted only on an enabled control.
    - [Boundary]: Module [ErrorBoundary] (ErrorBoundary.jsx: [hasError],
      [getDerivedStateFromError], "Try again", [render]) and Module
      [Page], the boundary around the page of App.jsx 202-271 whose
      Playlist view maps over [displayTracks]; a render whose children
      throw opens the boundary.  The Playlist is rendered in every page
      state, where App renders it only on the tabs page with its tab
      open: this adds renders that could throw, and [page_inv] shows
      that none does in a state reachable through the views.
    - [Auth]: Module [SpotifyApi] ([getTokenFromHash] over the
      JavaScript [split], destructuring and object assignment),
      [CallbackPage.effect] (Callback.jsx) and Module [AuthForm]
      (Auth.jsx as a whole: [handleSubmit], the input setters, the
      signup switch and the logout button as events of a state machine
      over the form, the store and the request in flight with the email
      and password it carries; the three cards [render] returns; and
      the browser's constraint validation of the inputs, [type="email"]
      with the "valid email address" syntax of the HTML standard,
      [required] and [minLength={6}], which gates [submit]); Module
      [AuthFacts] its theorems.
    - [App]: Module [App], the whole component of App.jsx as one state
      machine [Sys] over the store, the controller state, the Spotify SDK
      (the registered [onSpotifyWebPlaybackSDKReady] callback, the player
      objects it created, which of them are connected, the commands sent
      to each) and React's bookkeeping of the effects (the last
      dependency values of the effects at App.jsx 42-75 and 134-136, the
      cleanup closure of the first, the identity of the [tracks] array,
      the [fetchTracks] calls in flight, numbered, with the query each
      closed over, the token each got back, and the log of the requests
      sent; [fetch_deps] is the dependency array of the search effect).
      A call runs in the two awaited stages of App.jsx 108-113: the
      token request ([SpotifyRequests.token_request]) when the effect
      starts it, then, when the token comes back ([token_answered]), the
      search request for the call's own query ([fetch_query]) with that
      token; a rejected token ends the call in its [catch].
      [step] handles one event of the environment (a view action, a
      transport handler, a search, the answer to a token or a search
      request, the SDK loading, a player listener) and then
      runs the effects whose dependencies changed ([flush]);
      [reachable] is the closure of [step] from the mounted component
      [init], for the events [allowedb] admits.  [quiesce] lets the
      network answer the requests of the calls in flight, oldest first.
    - [AuthEffect]: the effect of App.jsx 77-103 as a state machine over
      the store, the [isMounted] flag of each effect run, the runs whose
      [initializeAuth] is awaited, the subscribed Supabase listeners,
      those still due the [INITIAL_SESSION] call the Supabase client
      (supabase-js v2) makes to each new listener, and the user of the
      client's session; mount, unmount, the answers of
      [getSession]/[getUser], the auth changes and the [INITIAL_SESSION]
      calls are its events ([AuthEffect.step], [AuthEffect.reachable]).
    - [Requests]: Module [UriEncoding] ([encodeURIComponent] on strings
      of code units below 256, one or two UTF-8 bytes per character,
      with the reference [decodeURIComponent]), Module [Base64] ([btoa]
      by 24-bit groups with [Z.shiftr], [Z.land] and [Z.lor], with the
      reference decoder [atob]), and Module [SpotifyRequests]: the
      constants and both functions of spotify.js, the token request
      with its Basic header, the search request of [fetchTracks]
      (App.jsx 110-113), [fetchTracks_requests] (the requests in order
      and what reaches the state update) and [fetchTracks] on App's
      state, composed with [Playback.fetchTracks_done]; [query_params]
      and [basic_credentials] read a request the way a server does.
    - [Time]: Module [JsNum] (the number operations [Math.floor], [%],
      [toString] of an integer, [padStart], and numbers as values with
      [NaN] and the infinities for [/], [*] and [||]), Modules
      [NowPlayingTime] and [PlaylistTime] (the two [formatTime]s),
      Module [Clock] (reading a displayed ["m:ss"] back), Module
      [NowPlayingClock] (NowPlaying's [currentTime]/[duration] state,
      its [player_state_changed] listener and effect, the time labels
      and the progress width); Module [TimeFacts] its theorems.
    - [AudioPlayer]: Player.jsx, which no file imports: the listeners its
      effect on [[track]] attaches to the [<audio>] element and its
      cleanup removes, the clock they update, [formatTime] on numbers
      with [NaN] and [Infinity], the render (which reads [track.title]
      without optional chaining) and the seek that assigns to the
      element's [currentTime].
    - [Integration]: the composition of App with its children.  App.v
      takes the children's store actions as environment events
      ([EvUi]); [nowplaying_acts], [playlist_acts] and [auth_acts] map
      each event of NowPlayingUi, PlaylistUi and AuthForm to the App
      events that have its effect on the store.  Module [Routing] is
      the router of App.jsx 190-198 with the Callback page: the
      browser's path and hash beside App's state, the route rendered
      ([route_shown], none while [authLoading]) and the Callback effect
      run once when "/callback" renders ([settle]).

    How the parts interact: App reads the store through [useStore()]
    (every handler of [Playback] takes the [Store.State]); the views
    call the store's actions and App's handlers; Callback writes the
    token that makes App use the hosted player; the SDK calls back into
    App through the listener of the player object.

    Theorems, by group:

    - Store: in every reachable state no two favourites share a [src]
      and [isAuthenticated] is [!!user] (rule induction on
      [Store.reachable]); [addToFavorites] is idempotent; removing an
      absent track changes nothing; create/add/remove leaves an empty
      array at the key; findings: [removeFromPlaylist] on a missing
      name throws (the spec says the store is total), [addToPlaylist] on
      an inherited name such as "toString" throws.
    - Playback: with the local backend, [nextTrack] applied
      [length tracks] times returns to the start and [prevTrack] undoes
      [nextTrack]; every handler but the SDK listener keeps
      [0 <= trackIndex < length tracks]; with a player and a token the
      transport handlers only send a command (no optimistic update);
      findings: the listener sets [trackIndex] to -1 for a track absent
      from the list it closed over ([-1 || 0] is [-1]), and [playTrack]
      of a preview-less track selects the first preview-less track.
    - Refinement: with the local backend, every sequence of
      [togglePlay], [nextTrack], [prevTrack] and search answers keeps the
      index in range and, through [abstract], equals the run of the
      corresponding [QueueSpec] operations (a simulation proved from one
      lemma per handler); [playTrack] of a track with a preview
      implements the specification's [playTrack] when equal uris
      determine [src] in the queue.
      With the hosted backend, the SDK notification implements the
      specification's [notify] when the listener's closure holds the
      current list and the reported track is in it; the theorems on the
      listener show both conditions failing in reachable states.
    - Views: the list Playlist.jsx shows is the list [playTrack] indexes
      in every reachable store state (a refinement between the view and
      the controller); finding: a playlist named "favorites" is
      shadowed.
    - PlaylistUi: finding: tracks without a preview all have [src]
      null and the store keys tracks by [src], so the favourite button
      is a no-op for a preview-less track once another one is a
      favourite, and removing one preview-less row of a playlist
      removes all of them.
    - NowPlayingUi: no keystroke or click on an enabled control of
      NowPlaying throws, whatever the store holds; finding: "Add" with
      the name of an existing playlist replaces its tracks by the
      current one, where "Add to {name}" appends.
    - Auth: the Callback effect on an encoded fragment stores exactly
      the last [access_token] (round trip through the parser, used by
      the routed theorem of Integration); the form
      is loading exactly while one request is in flight; in every
      reachable state the form's [error] is null or a non-empty
      message, so the alert shows exactly the error set, and every
      request in flight carries an email the browser accepts and a
      password of at least 6 characters (a typing invariant of the
      card); a failed login keeps the store and the credentials.
    - App: in every reachable state each command App sent went to a
      player object the SDK created, and App's player is one of them,
      and each call in flight has sent its token request and, once its
      token came back, the search request for the query it closed over
      with that token ([requests_ok], rule induction on
      [App.reachable]); a search with the query in
      effect starts no request; the loading message is on only while a
      search is in flight and the answer to any of them (or a rejected
      token request) turns it off
      (a liveness theorem: at most one answer of the network reaches a
      state without it); the search traffic terminates: answering the
      requests of the calls in flight, with any answers, empties them
      within two answers per call, since no answer starts a search; a successful
      logout resets the whole
      store and nothing of the playback state; with no tracks [render]
      never shows the tabs; findings, each reproduced on a concrete
      trace that [trace_ok] accepts: a playing state survives logout,
      the favourites are unreachable after a failed search, the logo
      titled "Spotify Connected" shows exactly without a token, the
      effect cleanup disconnects a player App keeps using,
      the listener that closed over an earlier [tracks] sets
      [trackIndex] to -1 for a track of the current list, and the
      answer to an older search, arriving last, overwrites the current
      results.
    - Integration: on the "/callback" route nothing happens while
      auth initializes, then the last [access_token] of the fragment is
      stored through App's own [setSpotifyToken] event and the page
      navigates to "/".  The lemmas of [IntegrationFacts] justify App's
      abstraction of its children: what a NowPlaying event, an enabled
      Playlist event, an event of the login card or a step of the auth
      effect does to the store is done by a sequence of App events App
      admits, so App's theorems about its reachable states hold after
      every click in the views.
    - AuthEffect: the subscribed listeners are exactly the runs whose
      [initializeAuth] resolved, unmounted runs included (no
      subscription is ever cancelled); when App is mounted once and its
      listener has had its [INITIAL_SESSION] call, the store's user and
      auth flags are those of the client's session, whatever
      [getSession] and [getUser] answered and whatever changed while
      they were on their way (a sign-out during startup is picked up by
      the [INITIAL_SESSION] call).
    - Time: both [formatTime]s read back as the whole seconds of their
      argument, with a two-digit seconds field below 60 (round trip
      through [Clock.clock_value]), and they print the same string for
      the same non-negative duration; the progress width stays a finite
      number in [0, 100] under the SDK's [0 <= position <= duration]
      (an invariant of [NowPlayingClock.run]); finding: as App renders
      NowPlaying (no [player] prop) the clock shows "0:00" twice and an
      empty bar forever, and a click on the bar never reaches
      [player.seek].
    - AudioPlayer: after any renders and element events the listeners
      attached are exactly those of the last effect run that found an
      element (the cleanup leaks nothing); a click at a fraction of a
      finite duration moves the element and then the bar to that
      fraction, and with an infinite duration every click throws.
    - Requests: [decodeURIComponent (encodeURIComponent s) = Some s] and
      [atob (btoa s) = Some s] for every string (per-byte facts checked
      by evaluation over the 256 byte values, bit-field facts by
      [prove_Zeq_bitwise]); the search URL splits into exactly [q],
      [type] and [limit] with [q] the query, the authorize URL into its
      four parameters; the Basic header of the token request decodes to
      the client id and secret (finding: the secret ships in the
      bundle); [fetchTracks] on every answer: one request and the error
      after a token failure, otherwise the search with whatever token
      came back ("Bearer undefined" for none).

    Integers: track indices are JavaScript numbers; the code only forms
    small integers from them (indices, lengths, +-1), so they are modelled
    as [Z] with the exact semantics of [%] ([Z.rem]) and no bound is
    needed.  Positions and durations are rationals [Q] (integral
    milliseconds divided by 1000, exact in a double below 2^53 / 1000
    ms), with [NaN] and the infinities where the code divides by a
    duration that can be zero.  Every loop of the code is a bounded
    array traversal, modelled by structural recursion.  The one function
    with fuel is [App.quiesce], the environment answering the searches
    in flight: twice the number of calls in flight is enough fuel,
    since each call takes a token answer and at most one search answer,
    and no answer starts a call
    ([App.fetches_quiesce]).

    Not modelled: JSX markup and class names beyond the texts, values
    and disabled flags the cards and views show; [componentDidCatch]
    (it only logs); the [.catch] of [setupAuth] (App.jsx 96-98):
    [initializeAuth] catches every error of its own and neither
    [setUser] nor [onAuthStateChange] throws, so the promise does not
    reject and the branch is dead code, not an event of the model; an [access_token] of [null] in the token endpoint's JSON
    (the model has a string or no field, printed "undefined"); a
    [player_state_changed] state with a null [current_track] (the
    listener would throw after [setIsPlaying]); the browser's
    sanitisation of
    an email input's value (newlines and outer white space removed)
    before React reads it; the network and authentication services (Supabase,
    the Spotify Web API and SDK are external: their answers are inputs
    of the handlers; [Requests] models the requests the client sends,
    not what the services do with them), [vite.config.js] (build
    configuration).  Player.jsx is modelled although nothing renders
    it.  The strings of the model are JS strings whose code
    units are below 256: [btoa] throws on larger ones, and
    [encodeURIComponent] of a character above U+00FF (three or four
    UTF-8 bytes, or a surrogate pair) is outside [UriEncoding].

    The search input's own text is not state of the model: the input
    is uncontrolled ([defaultValue={query}], App.jsx 232), so a submit
    reads whatever the user left in it, and [App.EvSearch] takes that
    text as its argument, which covers every value the input can hold.

    Plan for the next step: the composed system of [Routing], the
    auth effect and the events of the views, as one step relation with
    its reachable states, with React's batching of the updates of one
    handler into one render. *)

From stdpp Require Export base list gmap strings options.
From Stdlib Require Export ZArith Lia.

Declare Scope js_scope.
Delimit Scope js_scope with js.
Open Scope string_scope.
Open Scope list_scope.

(** ** Thrown exceptions *)

(** The exceptions the modelled code raises: a [TypeError] of the
    language (reading a property of [undefined], spreading or filtering
    a value that is not an array), or the error object of an external
    service that the code rethrows ([if (error) throw error]). *)
Inductive js_error : Type :=
  | TypeError (what : string)
  | ServiceError (message : string).

(** A handler either completes with a value or throws. *)
Inductive js_result (A : Type) : Type :=
  | JsOk (a : A)
  | JsThrow (e : js_error).
Arguments JsOk {A} a.
Arguments JsThrow {A} e.

Notation "'let*' x ':=' c 'in' k" :=
  (match c with JsOk x => k | JsThrow e => JsThrow e end)
  (at level 10, x name, c at level 100, k at level 200) : js_scope.

Definition js_map {A B} (f : A -> B) (r : js_result A) : js_result B :=
  match r with JsOk a => JsOk (f a) | JsThrow e => JsThrow e end.

Definition is_ok {A} (r : js_result A) : bool :=
  match r with JsOk _ => true | JsThrow _ => false end.

(** ** Values of JavaScript *)

(** Truthiness of a string-or-null: [null], [undefined] and [""] are
    falsy. *)
Definition truthy_str (s : option string) : bool :=
  match s with
  | Some v => negb (bool_decide (v = ""))
  | None => false
  end.

(** [a || b] on a number that is not NaN: [0] is the only falsy
    number, so [-1 || 0] is [-1]. *)
Definition js_or_num (a b : Z) : Z := if (a =? 0)%Z then b else a.

(** [xs[i]] at an integer index: [undefined] (here [None]) for a
    negative index or an index past the end. *)
Definition js_at {A} (xs : list A) (i : Z) : option A :=
  if (i <? 0)%Z then None else xs !! Z.to_nat i.

(** [xs.findIndex(p)]: the first index whose element satisfies [p], or
    -1. *)
Fixpoint js_find_index {A} (p : A -> bool) (xs : list A) : Z :=
  match xs with
  | [] => (-1)%Z
  | x :: xs' =>
      if p x then 0%Z
      else let i := js_find_index p xs' in
           if (i <? 0)%Z then (-1)%Z else (i + 1)%Z
  end.

(** [xs.some(p)]. *)
Definition js_some {A} (p : A -> bool) (xs : list A) : bool := existsb p xs.

(** [s.includes(c)] for a one-character string [c]. *)
Fixpoint has_char (c : Ascii.ascii) (s : string) : bool :=
  match s with
  | EmptyString => false
  | String d s' => bool_decide (d = c) || has_char c s'
  end.

Create HintDb music discriminated.
Create Rewrite HintDb music_rw.

(** ** Shared lemmas *)

Section JsArrays.
Context {A : Type}.
Implicit Types (xs : list A) (p : A -> bool).

Lemma js_find_index_bounds p xs :
  (-1 <= js_find_index p xs < Z.of_nat (length xs))%Z.
Proof.
  induction xs as [|x xs IH]; simpl; [lia|].
  destruct (p x); [lia|].
  destruct (Z.ltb_spec (js_find_index p xs) 0); lia.
Qed.

Lemma js_find_index_none p xs :
  js_find_index p xs = (-1)%Z <-> Forall (fun x => p x = false) xs.
Proof.
  induction xs as [|x xs IH]; simpl; [split; auto|].
  rewrite Forall_cons. destruct (p x) eqn:Hp.
  - split; [lia | intros [? _]; discriminate].
  - pose proof (js_find_index_bounds p xs).
    destruct (Z.ltb_spec (js_find_index p xs) 0); rewrite <- IH; split;
      intuition lia.
Qed.

Lemma js_at_nat xs (n : nat) : js_at xs (Z.of_nat n) = xs !! n.
Proof.
  unfold js_at. destruct (Z.ltb_spec (Z.of_nat n) 0); [lia|].
  by rewrite Nat2Z.id.
Qed.

Lemma js_at_index_nonneg xs i x : js_at xs i = Some x -> (0 <= i)%Z.
Proof. unfold js_at. destruct (Z.ltb_spec i 0); [discriminate | lia]. Qed.

Lemma js_at_neg xs i : (i < 0)%Z -> js_at xs i = None.
Proof. intros H. unfold js_at. destruct (Z.ltb_spec i 0); [done | lia]. Qed.

Lemma js_at_in_range xs i :
  (0 <= i < Z.of_nat (length xs))%Z -> exists x, js_at xs i = Some x.
Proof.
  intros H. replace i with (Z.of_nat (Z.to_nat i)) by lia.
  rewrite js_at_nat. apply lookup_lt_is_Some_2. lia.
Qed.

Lemma js_at_out_of_range xs i :
  (Z.of_nat (length xs) <= i)%Z -> js_at xs i = None.
Proof.
  intros H. replace i with (Z.of_nat (Z.to_nat i)) by lia.
  rewrite js_at_nat. apply lookup_ge_None_2. lia.
Qed.

Lemma js_find_index_found p xs i :
  js_find_index p xs = i -> (0 <= i)%Z ->
  exists x, js_at xs i = Some x /\ p x = true.
Proof.
  revert i. induction xs as [|x xs IH]; intros i Hi Hpos; simpl in Hi; [lia|].
  destruct (p x) eqn:Hp.
  - subst. by exists x.
  - destruct (Z.ltb_spec (js_find_index p xs) 0); [lia|].
    destruct (IH _ eq_refl H) as (y & Hy & Hpy). exists y. split; [|done].
    subst i. unfold js_at in *.
    destruct (Z.ltb_spec (js_find_index p xs) 0); [discriminate|].
    destruct (Z.ltb_spec (js_find_index p xs + 1) 0); [lia|].
    rewrite Z2Nat.inj_add by lia. rewrite Nat.add_1_r. done.
Qed.
(** [findIndex] returns an index no larger than any index whose element
    satisfies the predicate. *)
Lemma js_find_index_le p xs j x :
  (0 <= j)%Z -> js_at xs j = Some x -> p x = true ->
  (0 <= js_find_index p xs <= j)%Z.
Proof.
  intros Hj. replace j with (Z.of_nat (Z.to_nat j)) by lia. rewrite js_at_nat.
  generalize (Z.to_nat j) as n. clear j Hj.
  induction xs as [|y xs IH]; intros n Hn Hp; [done|]. simpl.
  destruct (p y) eqn:Hy; [lia|]. destruct n as [|n]; simpl in Hn; [congruence|].
  specialize (IH n Hn Hp). destruct (Z.ltb_spec (js_find_index p xs) 0); lia.
Qed.
Lemma js_at_nil i : js_at (@nil A) i = None.
Proof. unfold js_at. by case_match. Qed.

(** [findIndex] is stdpp's [list_find], with -1 for "none". *)
Lemma js_find_index_list_find p xs :
  js_find_index p xs =
  match list_find (fun x => p x = true) xs with Some (i, _) => Z.of_nat i | None => (-1)%Z end.
Proof.
  induction xs as [|x xs IH]; simpl; [done|].
  case_decide as Hx; [by rewrite Hx|]. apply not_true_is_false in Hx. rewrite Hx, IH.
  destruct (list_find _ xs) as [[i y]|]; simpl; [|done].
  destruct (Z.ltb_spec (Z.of_nat i) 0); lia.
Qed.

Lemma js_find_index_ext p q xs :
  Forall (fun x => p x = q x) xs -> js_find_index p xs = js_find_index q xs.
Proof. induction 1 as [|x xs Hx _ IH]; simpl; [done|]. by rewrite Hx, IH. Qed.

(** Membership in [xs.filter(f)]. *)
Lemma elem_of_js_filter (f : A -> bool) xs x : x ∈ List.filter f xs <-> f x = true /\ x ∈ xs.
Proof. rewrite !list_elem_of_In, filter_In. tauto. Qed.

End JsArrays.

Lemma js_or_num_nonzero a b : a <> 0%Z -> js_or_num a b = a.
Proof. intros H. unfold js_or_num. destruct (Z.eqb_spec a 0); congruence. Qed.

Lemma js_or_num_zero b : js_or_num 0 b = b.
Proof. reflexivity. Qed.

(** [i || 0] is [i] for an index [i >= 0]. *)
Lemma js_or_num_nat (k : nat) : js_or_num (Z.of_nat k) 0 = Z.of_nat k.
Proof. destruct k; [reflexivity|]. apply js_or_num_nonzero. lia. Qed.

(** JavaScript [%] on a non-negative dividend and positive divisor is the
    mathematical modulus. *)
Lemma rem_nonneg_bounds a n : (0 <= a)%Z -> (0 < n)%Z -> (0 <= Z.rem a n < n)%Z.
Proof. intros Ha Hn. rewrite Z.rem_mod_nonneg by lia. apply Z.mod_pos_bound; lia. Qed.

(** String concatenation ([+] on strings, [+:+] here). *)
Lemma string_app_nil_r s : s +:+ "" = s.
Proof. induction s as [|c s IH]; [done | exact (f_equal (String c) IH)]. Qed.

Lemma string_app_assoc a b c : (a +:+ b) +:+ c = a +:+ (b +:+ c).
Proof. induction a as [|x a IH]; [done | exact (f_equal (String x) IH)]. Qed.

Lemma has_char_append c a b : has_char c (a +:+ b) = has_char c a || has_char c b.
Proof. induction a as [|d a IH]; simpl; [done|]. by rewrite IH, orb_assoc. Qed.

#[export] Hint Resolve js_find_index_bounds js_at_neg js_at_out_of_range : music.
#[export] Hint Rewrite @js_at_nat js_or_num_zero string_app_nil_r string_app_assoc : music_rw.

(** Case analysis on the boolean tests the models compute with. *)
Ltac js_cases :=
  repeat match goal with
  | |- context [bool_decide ?P] => case_bool_decide
  | |- context [(?a <? ?b)%Z] => destruct (Z.ltb_spec a b)
  | |- context [(?a =? ?b)%Z] => destruct (Z.eqb_spec a b)
  end.
