(* ===== verification/React.v ===== *)
(** * React's [useEffect] with a dependency array

    The interface the components' effects implement (App.jsx 42-75 and
    134-136, NowPlaying.jsx 20-38).  An effect reads the values of its
    dependency array in the state of a render ([deps]), remembers the
    values of its last run ([last_deps]) and, when it runs, calls the
    cleanup of the previous run and then its body ([commit]).  After a
    render React runs it when some dependency differs from the last run
    ([use_effect]; [Object.is] on each element is equality of [D]).  The
    laws [effect_laws] say that running records the dependencies and does
    not change them; the lemmas below are proved once against them, and
    the components' theorems use them. *)

From S2P Require Import Prelude.

Record effect (S D : Type) := {
  deps : S -> D;
  last_deps : S -> option D;
  commit : S -> S
}.
Arguments deps {_ _} _ _.
Arguments last_deps {_ _} _ _.
Arguments commit {_ _} _ _.

Definition effect_laws {S D} (E : effect S D) : Prop :=
  (forall s, last_deps E (commit E s) = Some (deps E s)) /\
  (forall s, deps E (commit E s) = deps E s).

(** What React does with one effect after a render. *)
Definition use_effect {S D} `{EqDecision D} (E : effect S D) (s : S) : S :=
  if bool_decide (last_deps E s = Some (deps E s)) then s else commit E s.

(** The effect has run for the current values of its dependencies. *)
Definition effect_synced {S D} (E : effect S D) (s : S) : Prop :=
  last_deps E s = Some (deps E s).

(** Two effects of a component run one after the other; neither reads
    nor records what the other changes. *)
Definition independent {S D1 D2} (E1 : effect S D1) (E2 : effect S D2) : Prop :=
  (forall s, deps E1 (commit E2 s) = deps E1 s /\ last_deps E1 (commit E2 s) = last_deps E1 s) /\
  (forall s, deps E2 (commit E1 s) = deps E2 s /\ last_deps E2 (commit E1 s) = last_deps E2 s).

(** The effects of a render, in the order of the component's code. *)
Definition use_effects2 {S D1 D2} `{EqDecision D1, EqDecision D2}
    (E1 : effect S D1) (E2 : effect S D2) (s : S) : S :=
  use_effect E2 (use_effect E1 s).

Section EffectLaws.
Context {S D : Type} `{EqDecision D} (E : effect S D).
Hypothesis HE : effect_laws E.

Lemma use_effect_synced s : effect_synced E (use_effect E s).
Proof using HE.
  unfold effect_synced, use_effect. destruct HE as [Hl Hd].
  case_bool_decide as Hs; [done|]. by rewrite Hl, Hd.
Qed.

Lemma use_effect_deps s : deps E (use_effect E s) = deps E s.
Proof using HE. unfold use_effect. destruct HE as [_ Hd]. by case_bool_decide. Qed.

(** What the body leaves alone, the effect leaves alone. *)
Lemma use_effect_preserves {A} (f : S -> A) s :
  (forall s', f (commit E s') = f s') -> f (use_effect E s) = f s.
Proof. intros Hf. unfold use_effect. case_bool_decide; [done|]. apply Hf. Qed.

(** What the body keeps, the effect keeps. *)
Lemma use_effect_preserves_prop (P : S -> Prop) s :
  (forall s', P s' -> P (commit E s')) -> P s -> P (use_effect E s).
Proof. intros Hc Hs. unfold use_effect. case_bool_decide; auto. Qed.

Lemma use_effect_skip s : effect_synced E s -> use_effect E s = s.
Proof. intros Hs. unfold use_effect. by rewrite bool_decide_eq_true_2. Qed.

Lemma use_effect_idem s : use_effect E (use_effect E s) = use_effect E s.
Proof using HE. apply use_effect_skip, use_effect_synced. Qed.

End EffectLaws.

Section TwoEffects.
Context {S D1 D2 : Type} `{EqDecision D1, EqDecision D2}.
Context (E1 : effect S D1) (E2 : effect S D2).
Hypotheses (H1 : effect_laws E1) (H2 : effect_laws E2) (Hind : independent E1 E2).

Lemma use_effect_other1 s :
  deps E1 (use_effect E2 s) = deps E1 s /\ last_deps E1 (use_effect E2 s) = last_deps E1 s.
Proof using Hind. unfold use_effect. case_bool_decide; [done|]. apply Hind. Qed.

Lemma use_effect_other2 s :
  deps E2 (use_effect E1 s) = deps E2 s /\ last_deps E2 (use_effect E1 s) = last_deps E2 s.
Proof using Hind. unfold use_effect. case_bool_decide; [done|]. apply Hind. Qed.

(** After the effects of a render, both have run for the current
    values, and running them again changes nothing. *)
Lemma use_effects2_synced s :
  effect_synced E1 (use_effects2 E1 E2 s) /\ effect_synced E2 (use_effects2 E1 E2 s).
Proof using H1 H2 Hind.
  unfold use_effects2. split; [|exact (use_effect_synced E2 H2 _)].
  unfold effect_synced. destruct (use_effect_other1 (use_effect E1 s)) as [-> ->].
  exact (use_effect_synced E1 H1 s).
Qed.

Lemma use_effects2_skip s :
  effect_synced E1 s -> effect_synced E2 s -> use_effects2 E1 E2 s = s.
Proof. intros Hs1 Hs2. unfold use_effects2. by rewrite (use_effect_skip E1 s Hs1), (use_effect_skip E2 s Hs2). Qed.

Lemma use_effects2_idem s : use_effects2 E1 E2 (use_effects2 E1 E2 s) = use_effects2 E1 E2 s.
Proof using H1 H2 Hind. destruct (use_effects2_synced s). by apply use_effects2_skip. Qed.

End TwoEffects.
