(* ===== verification/Track.v ===== *)
(** * Tracks: the data model of App.jsx

    [Spotify.Item] is the part of a Spotify search result that
    [fetchTracks] reads (src/src/App.jsx 114-121); [Track] is the object
    it builds.  The code compares tracks by two different fields: the
    store by [src] (the preview URL, [null] when the track has no
    preview), the Spotify listener and NowPlaying by [uri].  Both
    comparisons are JavaScript [===], under which [null === null]. *)

From S2P Require Import Prelude.

Module Spotify.
(** [item.artists[k]] *)
Record Artist := { name_of_artist : option string }.
(** [item.album.images[k]] *)
Record Image := { url : option string }.
Record Album := { images : list Image }.
(** [item]: a track object of the search response. *)
Record Item := {
  name : string;
  artists : list Artist;
  preview_url : option string;
  album : option Album;
  uri : option string
}.
End Spotify.

(** The object literal of App.jsx 114-121. *)
Record Track := {
  title : string;
  artist : string;
  src : option string;
  hasPreview : bool;
  image : string;
  uri : option string
}.

#[export] Instance Track_eq_dec : EqDecision Track.
Proof. solve_decision. Defined.

Definition placeholder_image : string :=
  "/music-notes-background-illustration-ai-generative-free-photo.jpg".

(** [s || d] for a string-or-undefined [s] and a string [d]. *)
Definition or_str (s : option string) (d : string) : string :=
  match s with
  | Some v => if truthy_str (Some v) then v else d
  | None => d
  end.

(** [item.artists[0]?.name] *)
Definition first_artist_name (item : Spotify.Item) : option string :=
  match Spotify.artists item with
  | a :: _ => Spotify.name_of_artist a
  | [] => None
  end.

(** [item.album?.images[0]?.url] *)
Definition first_image_url (item : Spotify.Item) : option string :=
  match Spotify.album item with
  | Some al =>
      match Spotify.images al with
      | im :: _ => Spotify.url im
      | [] => None
      end
  | None => None
  end.

(** The callback of [response.data.tracks.items.map]. *)
Definition to_track (item : Spotify.Item) : Track := {|
  title := Spotify.name item;
  artist := or_str (first_artist_name item) "Unknown Artist";
  src := Spotify.preview_url item;
  hasPreview := truthy_str (Spotify.preview_url item);
  image := or_str (first_image_url item) placeholder_image;
  uri := Spotify.uri item
|}.

Definition fetched_tracks (items : list Spotify.Item) : list Track :=
  map to_track items.

(** [t.src === track.src], the identity of store.jsx. *)
Definition same_src (a b : Track) : bool := bool_decide (src a = src b).

(** [t.uri === u], the identity of the Spotify listener and of
    NowPlaying. *)
Definition uri_is (u : option string) (t : Track) : bool := bool_decide (uri t = u).

(** A track built by [fetchTracks] has [hasPreview] equal to the
    truthiness of its [src]. *)
Definition preview_consistent (t : Track) : Prop := hasPreview t = truthy_str (src t).

(** Sample tracks for the examples and witnesses: two with a preview,
    two without (as most search results are since Spotify stopped
    serving [preview_url]). *)
Definition sample_track (name : string) (preview spotify_uri : option string) : Track := {|
  title := name; artist := "Unknown Artist"; src := preview;
  hasPreview := truthy_str preview; image := placeholder_image; uri := spotify_uri
|}.

Definition track_A : Track := sample_track "A" (Some "https://p.scdn.co/a") (Some "spotify:track:a").
Definition track_B : Track := sample_track "B" (Some "https://p.scdn.co/b") (Some "spotify:track:b").
Definition track_C : Track := sample_track "C" None (Some "spotify:track:c").
Definition track_D : Track := sample_track "D" None (Some "spotify:track:d").

Lemma same_src_refl t : same_src t t = true.
Proof. unfold same_src. by rewrite bool_decide_eq_true. Qed.

Lemma same_src_sym a b : same_src a b = same_src b a.
Proof. unfold same_src. apply bool_decide_ext. split; congruence. Qed.

Lemma same_src_true a b : same_src a b = true <-> src a = src b.
Proof. unfold same_src. apply bool_decide_eq_true. Qed.

Lemma fetched_tracks_length items : length (fetched_tracks items) = length items.
Proof. apply length_map. Qed.

Lemma fetched_tracks_consistent items : Forall preview_consistent (fetched_tracks items).
Proof. unfold fetched_tracks. apply Forall_map, Forall_true. intros i. reflexivity. Qed.

#[export] Hint Resolve same_src_refl fetched_tracks_consistent : music.
#[export] Hint Rewrite fetched_tracks_length : music_rw.
