(* ===== verification/QueueSpec.v ===== *)
(** * The playback controller of the specification, local backend

    The abstract queue of spec.md section 3 (an ordered sequence of
    tracks, a current position that exists exactly when the queue is not
    empty, a playing flag) and the operations of section 4.1 on the
    local preview backend: [loadQueue], [togglePlay], [nextTrack],
    [prevTrack] and [playTrack] with the identity rule of section 3 (same
    preview locator or same streaming uri), and the hosted backend's
    state notification [notify].  This is the contract
    Playback.v is proved to refine (the [abstract] map there). *)

From S2P Require Import Prelude Track.

Module QueueSpec.

Record AState := {
  queue : list Track;
  current : option nat;
  playing : bool
}.

(** A preview locator is a non-empty string. *)
Definition locator_ok (t : Track) : Prop := src t <> Some "".

(** [previewSource] present. *)
Definition has_preview (t : Track) : bool := bool_decide (is_Some (src t)).

Definition current_track (a : AState) : option Track := i ← current a; queue a !! i.

(** Selecting position [i]: playing exactly when that track has a preview. *)
Definition select (i : nat) (a : AState) : AState :=
  {| queue := queue a; current := Some i;
     playing := default false (has_preview <$> queue a !! i) |}.

(** [loadQueue(tracks)]: replaces the queue, position 0, not playing. *)
Definition loadQueue (ts : list Track) (a : AState) : AState :=
  {| queue := ts; current := match ts with [] => None | _ => Some 0%nat end; playing := false |}.

(** [togglePlay()] without a session: flips [isPlaying] when the current
    track has a preview, otherwise nothing. *)
Definition togglePlay (a : AState) : AState :=
  match current_track a with
  | Some t => if has_preview t
              then {| queue := queue a; current := current a; playing := negb (playing a) |}
              else a
  | None => a
  end.

(** [nextTrack()] / [prevTrack()] without a session: +-1 modulo the
    length of the queue; nothing on an empty queue. *)
Definition nextTrack (a : AState) : AState :=
  match current a with
  | Some i => select (S i mod length (queue a)) a
  | None => a
  end.

Definition prevTrack (a : AState) : AState :=
  match current a with
  | Some i => select ((i + length (queue a) - 1) mod length (queue a)) a
  | None => a
  end.

(** Section 3: two tracks are the same track when their preview locators
    or their streaming uris match. *)
Definition same_track (x y : Track) : bool :=
  match src x, src y with Some p, Some q => bool_decide (p = q) | _, _ => false end
  || match uri x, uri y with Some u, Some v => bool_decide (u = v) | _, _ => false end.

(** [playTrack] on the local path: the first position of the queue
    holding the same track, position 0 when there is none; it plays
    when the track has a preview. *)
Definition playTrack (t : Track) (a : AState) : AState :=
  match queue a with
  | [] => {| queue := []; current := None; playing := has_preview t |}
  | _ => {| queue := queue a;
            current := Some (default 0%nat (fst <$> list_find (fun x => same_track t x = true) (queue a)));
            playing := has_preview t |}
  end.

(** Section 4.1, hosted backend: on a state notification the position
    is recomputed by matching the reported track identity against the
    queue (0 when nothing matches) and [isPlaying] is [!reportedPaused]. *)
Definition notify (paused : bool) (reported : option string) (a : AState) : AState :=
  match queue a with
  | [] => {| queue := []; current := None; playing := negb paused |}
  | _ => {| queue := queue a;
            current := Some (default 0%nat (fst <$> list_find (fun x => uri x = reported) (queue a)));
            playing := negb paused |}
  end.

Inductive op : Type :=
  | OpLoad (ts : list Track)
  | OpToggle
  | OpNext
  | OpPrev
  | OpPlay (t : Track)
  | OpNotify (paused : bool) (reported : option string).

Definition apply (o : op) (a : AState) : AState :=
  match o with
  | OpLoad ts => loadQueue ts a
  | OpToggle => togglePlay a
  | OpNext => nextTrack a
  | OpPrev => prevTrack a
  | OpPlay t => playTrack t a
  | OpNotify p u => notify p u a
  end.

Definition run (ops : list op) (a : AState) : AState := fold_left (fun a o => apply o a) ops a.

(** The invariant of section 3: a position exists exactly when the queue
    is not empty, and it is in range. *)
Definition wf (a : AState) : Prop :=
  match current a with
  | None => queue a = []
  | Some i => (i < length (queue a))%nat
  end.

End QueueSpec.
