(* ===== verification/Store.v ===== *)
(** * The zustand store of src/src/store.jsx

    [Store.State] is the object of store.jsx 5-11.  zustand's [set]
    merges a partial object into the state; each setter below writes
    the merged state out field by field.  The object [playlists] is a
    JavaScript object used as a dictionary: its own properties are a
    stdpp [gmap], and a read [playlists[k]] of a key that is not an own
    property falls through to [Object.prototype] ([get_playlist]).
    Setters that can throw return a [js_result]; the asynchronous
    actions take the answer of the Supabase call as an argument. *)

From S2P Require Import Prelude Track.

(** What the code reads of a Supabase user. *)
Record User := { user_id : string; email : option string }.

#[export] Instance User_eq_dec : EqDecision User.
Proof. solve_decision. Defined.

Module Store.

Record State := {
  favorites : list Track;
  playlists : gmap string (list Track);
  currentPlaylist : option string;
  user : option User;
  isAuthenticated : bool;
  authLoading : bool;
  spotifyToken : option string
}.

(** store.jsx 5-11 *)
Definition initial : State := {|
  favorites := [];
  playlists := ∅;
  currentPlaylist := None;
  user := None;
  isAuthenticated := false;
  authLoading := true;
  spotifyToken := None
|}.

(** ** zustand's merge of one field *)

Definition with_favorites (v : list Track) (s : State) : State :=
  {| favorites := v; playlists := playlists s; currentPlaylist := currentPlaylist s;
     user := user s; isAuthenticated := isAuthenticated s;
     authLoading := authLoading s; spotifyToken := spotifyToken s |}.

Definition with_playlists (v : gmap string (list Track)) (s : State) : State :=
  {| favorites := favorites s; playlists := v; currentPlaylist := currentPlaylist s;
     user := user s; isAuthenticated := isAuthenticated s;
     authLoading := authLoading s; spotifyToken := spotifyToken s |}.

Definition with_currentPlaylist (v : option string) (s : State) : State :=
  {| favorites := favorites s; playlists := playlists s; currentPlaylist := v;
     user := user s; isAuthenticated := isAuthenticated s;
     authLoading := authLoading s; spotifyToken := spotifyToken s |}.

(** [set({ user, isAuthenticated, authLoading })] *)
Definition with_auth (u : option User) (auth loading : bool) (s : State) : State :=
  {| favorites := favorites s; playlists := playlists s;
     currentPlaylist := currentPlaylist s; user := u; isAuthenticated := auth;
     authLoading := loading; spotifyToken := spotifyToken s |}.

Definition with_spotifyToken (v : option string) (s : State) : State :=
  {| favorites := favorites s; playlists := playlists s;
     currentPlaylist := currentPlaylist s; user := user s;
     isAuthenticated := isAuthenticated s; authLoading := authLoading s;
     spotifyToken := v |}.

(** ** The object [playlists] *)

(** The properties of [Object.prototype]: reading one of them on a plain
    object without an own property of that name returns a function (or,
    for [__proto__], [Object.prototype] itself), which is truthy and is
    neither iterable nor has a [filter] method. *)
Definition object_prototype_keys : list string :=
  ["constructor"; "__defineGetter__"; "__defineSetter__"; "hasOwnProperty";
   "__lookupGetter__"; "__lookupSetter__"; "isPrototypeOf";
   "propertyIsEnumerable"; "toString"; "valueOf"; "__proto__";
   "toLocaleString"].

(** The value of [playlists[k]]. *)
Inductive prop_value : Type :=
  | OwnArray (ts : list Track)
  | Inherited
  | Undefined.

Definition get_playlist (pl : gmap string (list Track)) (k : string) : prop_value :=
  match pl !! k with
  | Some ts => OwnArray ts
  | None => if bool_decide (k ∈ object_prototype_keys) then Inherited else Undefined
  end.

(** ** Setters *)

(** store.jsx 38-41 *)
Definition setUser (u : option User) (s : State) : State :=
  with_auth u (bool_decide (is_Some u)) false s.

(** store.jsx 43 *)
Definition setSpotifyToken (token : option string) (s : State) : State :=
  with_spotifyToken token s.

(** store.jsx 101-106 *)
Definition addToFavorites (track : Track) (s : State) : State :=
  with_favorites
    (if js_some (fun t => same_src t track) (favorites s)
     then favorites s else favorites s ++ [track]) s.

(** store.jsx 108-111 *)
Definition removeFromFavorites (track : Track) (s : State) : State :=
  with_favorites (List.filter (fun t => negb (same_src t track)) (favorites s)) s.

(** store.jsx 113-117 *)
Definition createPlaylist (name : string) (s : State) : State :=
  with_currentPlaylist (Some name) (with_playlists (<[name := []]> (playlists s)) s).

(** store.jsx 119-127: an own array gets the track appended (an empty
    array is truthy), an absent key is created, and an inherited member
    is truthy but not iterable, so the spread throws. *)
Definition addToPlaylist (track : Track) (playlistName : string) (s : State)
    : js_result State :=
  match get_playlist (playlists s) playlistName with
  | OwnArray ts => JsOk (with_playlists (<[playlistName := ts ++ [track]]> (playlists s)) s)
  | Undefined => JsOk (with_playlists (<[playlistName := [track]]> (playlists s)) s)
  | Inherited => JsThrow (TypeError "object is not iterable")
  end.

(** store.jsx 129-135: [playlists[playlistName].filter] throws unless
    the key is an own array. *)
Definition removeFromPlaylist (track : Track) (playlistName : string) (s : State)
    : js_result State :=
  match get_playlist (playlists s) playlistName with
  | OwnArray ts =>
      JsOk (with_playlists
              (<[playlistName := List.filter (fun t => negb (same_src t track)) ts]>
                 (playlists s)) s)
  | Undefined => JsThrow (TypeError "Cannot read properties of undefined (reading 'filter')")
  | Inherited => JsThrow (TypeError "filter is not a function")
  end.

(** store.jsx 137 *)
Definition setCurrentPlaylist (name : option string) (s : State) : State :=
  with_currentPlaylist name s.

(** ** Asynchronous actions: the Supabase answers are arguments *)

(** store.jsx 79-99: [signOut] answers [{ error }]; on an error the
    action rethrows and the state is unchanged. *)
Definition logout (signOut : option string) (s : State) : js_result State :=
  match signOut with
  | Some msg => JsThrow (ServiceError msg)
  | None =>
      JsOk {| favorites := []; playlists := ∅; currentPlaylist := None;
              user := None; isAuthenticated := false; authLoading := false;
              spotifyToken := None |}
  end.

(** store.jsx 64-77: [signInWithPassword] answers the user or an
    error. *)
Definition login (signIn : js_result User) (s : State) : js_result State :=
  match signIn with
  | JsOk u => JsOk (with_auth (Some u) true false s)
  | JsThrow e => JsThrow e
  end.

(** store.jsx 45-62: [signUp] answers [data.user], which is [null] when
    the account still has to be confirmed. *)
Definition signup (signUp : js_result (option User)) (s : State) : js_result State :=
  match signUp with
  | JsOk u => JsOk (with_auth u (bool_decide (is_Some u)) false s)
  | JsThrow e => JsThrow e
  end.

(** store.jsx 13-36: [getSession] answers whether a session exists,
    [getUser] the user; every error is caught.  Returns the value of
    the action together with the new state. *)
Definition initializeAuth (getSession : js_result bool) (getUser : js_result User)
    (s : State) : option User * State :=
  match getSession with
  | JsOk true =>
      match getUser with
      | JsOk u => (Some u, with_auth (Some u) true false s)
      | JsThrow _ => (None, with_auth None false false s)
      end
  | _ => (None, with_auth None false false s)
  end.

(** ** Every operation of the store *)

Inductive op : Type :=
  | OpSetUser (u : option User)
  | OpSetSpotifyToken (token : option string)
  | OpAddToFavorites (t : Track)
  | OpRemoveFromFavorites (t : Track)
  | OpCreatePlaylist (name : string)
  | OpAddToPlaylist (t : Track) (name : string)
  | OpRemoveFromPlaylist (t : Track) (name : string)
  | OpSetCurrentPlaylist (name : option string)
  | OpLogout (signOut : option string)
  | OpLogin (signIn : js_result User)
  | OpSignup (signUp : js_result (option User))
  | OpInitializeAuth (getSession : js_result bool) (getUser : js_result User).

Definition run (o : op) (s : State) : js_result State :=
  match o with
  | OpSetUser u => JsOk (setUser u s)
  | OpSetSpotifyToken t => JsOk (setSpotifyToken t s)
  | OpAddToFavorites t => JsOk (addToFavorites t s)
  | OpRemoveFromFavorites t => JsOk (removeFromFavorites t s)
  | OpCreatePlaylist n => JsOk (createPlaylist n s)
  | OpAddToPlaylist t n => addToPlaylist t n s
  | OpRemoveFromPlaylist t n => removeFromPlaylist t n s
  | OpSetCurrentPlaylist n => JsOk (setCurrentPlaylist n s)
  | OpLogout r => logout r s
  | OpLogin r => login r s
  | OpSignup r => signup r s
  | OpInitializeAuth r1 r2 => JsOk (initializeAuth r1 r2 s).2
  end.

(** A thrown action leaves the store as it was. *)
Definition step (o : op) (s : State) : State :=
  match run o s with JsOk s' => s' | JsThrow _ => s end.

(** ** Invariants *)

(** No two favourites share a [src]. *)
Definition fav_unique (s : State) : Prop := NoDup (map src (favorites s)).

(** [isAuthenticated] is [!!user]. *)
Definition auth_consistent (s : State) : Prop :=
  isAuthenticated s = bool_decide (is_Some (user s)).

Inductive reachable : State -> Prop :=
  | reachable_initial : reachable initial
  | reachable_run o s s' : reachable s -> run o s = JsOk s' -> reachable s'.

Definition is_logout (o : op) : bool :=
  match o with OpLogout _ => true | _ => false end.

(** ** Helper lemmas *)

Lemma nodup_map_filter {A B} (f : A -> B) (p : A -> bool) (l : list A) :
  NoDup (map f l) -> NoDup (map f (List.filter p l)).
Proof.
  induction l as [|x l IH]; simpl; [done|].
  rewrite NoDup_cons. intros [Hx Hl]. destruct (p x); simpl; [|auto].
  rewrite NoDup_cons. split; [|auto].
  intros Hin. apply Hx. apply list_elem_of_In in Hin as (y & Hy & Hiny)%in_map_iff.
  apply list_elem_of_In, in_map_iff. exists y. split; [done|].
  by apply filter_In in Hiny as [? _].
Qed.

Lemma filter_all_true {A} (p : A -> bool) (l : list A) :
  Forall (fun x => p x = true) l -> List.filter p l = l.
Proof. induction 1 as [|x l Hx _ IH]; simpl; [done|]. by rewrite Hx, IH. Qed.

Lemma js_some_src_false t l :
  js_some (fun x => same_src x t) l = false -> src t ∉ map src l.
Proof.
  unfold js_some. intros H Hin.
  apply list_elem_of_In, in_map_iff in Hin as (x & Hx & Hinx).
  assert (existsb (fun y => same_src y t) l = true) as Ht; [|congruence].
  apply existsb_exists. exists x. split; [done|]. by apply same_src_true.
Qed.

Lemma js_some_self t l : js_some (fun x => same_src x t) (l ++ [t]) = true.
Proof.
  unfold js_some. rewrite existsb_app. simpl. rewrite same_src_refl.
  by rewrite orb_true_r.
Qed.

Lemma with_favorites_same s : with_favorites (favorites s) s = s.
Proof. by destruct s. Qed.

Lemma addToFavorites_keeps_unique t s : fav_unique s -> fav_unique (addToFavorites t s).
Proof.
  unfold fav_unique, addToFavorites. simpl.
  destruct (js_some _ _) eqn:Hs; [done|]. intros Hnd.
  rewrite map_app. simpl. apply NoDup_app. split; [done|]. split.
  - intros x Hx ->%list_elem_of_singleton. by apply (js_some_src_false t (favorites s)).
  - apply NoDup_singleton.
Qed.

Lemma run_keeps_fav_unique o s s' :
  fav_unique s -> run o s = JsOk s' -> fav_unique s'.
Proof.
  intros Hu Hrun. destruct o; simpl in Hrun;
    unfold addToPlaylist, removeFromPlaylist, logout, login, signup,
      initializeAuth in Hrun;
    repeat case_match; simplify_eq; try done.
  - by apply addToFavorites_keeps_unique.
  - by apply nodup_map_filter.
  - constructor.
Qed.

Lemma run_keeps_auth_consistent o s s' :
  auth_consistent s -> run o s = JsOk s' -> auth_consistent s'.
Proof.
  intros Ha Hrun. destruct o; simpl in Hrun;
    unfold setUser, addToPlaylist, removeFromPlaylist, logout, login, signup,
      initializeAuth in Hrun;
    repeat case_match; simplify_eq; unfold auth_consistent; simpl; try done;
    by rewrite bool_decide_eq_true_2 || by rewrite bool_decide_eq_false_2.
Qed.

(** No operation other than logout removes a playlist name. *)
Lemma run_keeps_playlist_keys o s s' n :
  is_logout o = false -> run o s = JsOk s' ->
  is_Some (playlists s !! n) -> is_Some (playlists s' !! n).
Proof.
  intros Hlo Hrun Hn. destruct o; simpl in *; try discriminate;
    unfold addToPlaylist, removeFromPlaylist, login, signup, initializeAuth in Hrun;
    repeat case_match; simplify_eq; simpl; try done;
    rewrite lookup_insert; case_decide; done.
Qed.

(** Only [createPlaylist], [setCurrentPlaylist] and logout change the
    selection. *)
Lemma run_keeps_currentPlaylist o s s' :
  run o s = JsOk s' ->
  match o with
  | OpCreatePlaylist _ | OpSetCurrentPlaylist _ | OpLogout _ => True
  | _ => currentPlaylist s' = currentPlaylist s
  end.
Proof.
  intros Hrun. destruct o; simpl in Hrun; try done;
    unfold addToPlaylist, removeFromPlaylist, login, signup, initializeAuth in Hrun;
    repeat case_match; simplify_eq; done.
Qed.

(** [addToFavorites] of a track whose [src] is already a favourite's
    changes nothing. *)
Lemma addToFavorites_present t s :
  js_some (fun x => same_src x t) (favorites s) = true -> addToFavorites t s = s.
Proof. intros H. unfold addToFavorites. rewrite H. apply with_favorites_same. Qed.

(** ** Properties of the store *)

(** Adding a track to the favourites twice is the same as adding it
    once (store.jsx 101-106 checks [some] before appending). *)
Lemma addToFavorites_idempotent t s :
  addToFavorites t (addToFavorites t s) = addToFavorites t s.
Proof.
  unfold addToFavorites. simpl.
  destruct (js_some _ (favorites s)) eqn:Hs; simpl.
  - by rewrite Hs.
  - by rewrite js_some_self.
Qed.

(** C9: removing a favourite whose [src] matches no favourite leaves the
    whole store unchanged, and does not throw. *)
Theorem removeFromFavorites_absent t s :
  Forall (fun x => src x <> src t) (favorites s) -> removeFromFavorites t s = s.
Proof.
  intros Habs. unfold removeFromFavorites. rewrite filter_all_true; [apply with_favorites_same|].
  eapply Forall_impl; [exact Habs|]. intros x Hx. simpl.
  apply negb_true_iff, not_true_iff_false. by rewrite same_src_true.
Qed.

(** C10: [createPlaylist(n)], then [addToPlaylist(t, n)], then
    [removeFromPlaylist(t, n)] all complete, and leave an empty array at
    [n] (the key is kept), with [n] the selected list. *)
Theorem playlist_create_add_remove t n s :
  exists s', (let* s1 := addToPlaylist t n (createPlaylist n s) in
              removeFromPlaylist t n s1)%js = JsOk s' /\
             playlists s' !! n = Some [] /\ currentPlaylist s' = Some n.
Proof.
  unfold addToPlaylist, removeFromPlaylist, get_playlist. simpl.
  rewrite lookup_insert_eq. simpl. rewrite lookup_insert_eq. simpl.
  rewrite same_src_refl. simpl. eexists. split; [done|].
  simpl. by rewrite lookup_insert_eq.
Qed.

(** C11: the playlist actions throw on a name that is not an own key of
    [playlists]: [removeFromPlaylist] throws a TypeError for every such
    name (the spec says reads of a missing key default to an empty
    sequence), and [addToPlaylist] throws instead of creating the
    playlist when the name is a member of [Object.prototype] (such as
    "toString"). *)
Theorem removeFromPlaylist_missing_throws t n s :
  playlists s !! n = None ->
  (exists e, removeFromPlaylist t n s = JsThrow (TypeError e)) /\
  (n ∈ object_prototype_keys -> exists e, addToPlaylist t n s = JsThrow (TypeError e)).
Proof.
  intros Hn. split.
  - unfold removeFromPlaylist, get_playlist. rewrite Hn. case_bool_decide; eauto.
  - intros Hk. unfold addToPlaylist, get_playlist. rewrite Hn.
    rewrite bool_decide_eq_true_2 by done. eauto.
Qed.

(** C5: in every state the store reaches, no two favourites share a
    [src] and [isAuthenticated] is [!!user]. *)
Theorem reachable_wf s : reachable s -> fav_unique s /\ auth_consistent s.
Proof.
  induction 1 as [|o s s' _ [Hu Ha] Hrun].
  - split; [constructor | done].
  - split; [exact (run_keeps_fav_unique o s s' Hu Hrun)
            | exact (run_keeps_auth_consistent o s s' Ha Hrun)].
Qed.

(** Favourites are keyed by [src], and a track without a preview has
    [src] null: once one such track is a favourite, adding any other
    preview-less track does nothing. *)
Lemma addToFavorites_null_src_ignored t s :
  src t = None -> (exists x, x ∈ favorites s /\ src x = None) ->
  addToFavorites t s = s.
Proof.
  intros Ht (x & Hx & Hxs). apply addToFavorites_present.
  apply existsb_exists. exists x. split; [by apply list_elem_of_In|].
  apply same_src_true. congruence.
Qed.

(** ** Witnesses *)

Lemma removeFromFavorites_absent_witness :
  Forall (fun x => src x <> src track_B) (favorites (addToFavorites track_A initial)) /\
  removeFromFavorites track_B (addToFavorites track_A initial) = addToFavorites track_A initial.
Proof.
  assert (H : Forall (fun x => src x <> src track_B) (favorites (addToFavorites track_A initial)))
    by (apply (bool_decide_unpack _); vm_compute; reflexivity).
  split; [exact H | apply removeFromFavorites_absent; exact H].
Defined.

Lemma removeFromPlaylist_missing_throws_witness :
  playlists initial !! "toString" = None /\
  (exists e, removeFromPlaylist track_A "toString" initial = JsThrow (TypeError e)) /\
  exists e, addToPlaylist track_A "toString" initial = JsThrow (TypeError e).
Proof.
  assert (Hk : "toString" ∈ object_prototype_keys)
    by (apply (bool_decide_unpack _); vm_compute; reflexivity).
  destruct (removeFromPlaylist_missing_throws track_A "toString" initial eq_refl) as [H1 H2].
  split; [reflexivity | split; [exact H1 | exact (H2 Hk)]].
Defined.

Lemma reachable_wf_witness :
  reachable (addToFavorites track_C (createPlaylist "mix" initial)) /\
  fav_unique (addToFavorites track_C (createPlaylist "mix" initial)) /\
  auth_consistent (addToFavorites track_C (createPlaylist "mix" initial)).
Proof.
  assert (H : reachable (addToFavorites track_C (createPlaylist "mix" initial))).
  { apply (reachable_run (OpAddToFavorites track_C) (createPlaylist "mix" initial));
      [| reflexivity].
    apply (reachable_run (OpCreatePlaylist "mix") initial); [constructor | reflexivity]. }
  split; [exact H | apply reachable_wf; exact H].
Defined.

End Store.
