(* ===== verification/Playback.v ===== *)
(** * The playback controller of src/src/App.jsx

    [Playback.State] is the React state of [App] (App.jsx 20-26).  Each
    handler is a function of the store it reads through [useStore()]
    and of the state, and returns the new state together with the
    commands it sends to the Spotify Web Playback SDK, in order.  React
    batches the setters of one handler and the handler reads the
    values of the render it was created in, so a handler is a function
    of the state before it.  Handlers that can throw return a
    [js_result]; a handler that throws changes nothing. *)

From S2P Require Import Prelude Track QueueSpec Store.

Module Playback.

(** The [Spotify.Player] built in [onSpotifyWebPlaybackSDKReady]
    (App.jsx 45-70), with an identity ([player_id]: two players are two
    objects).  Its ["player_state_changed"] listener closes over the
    [tracks] of the render that installed the callback, not the current
    ones, and its [getOAuthToken] over that render's [spotifyToken]. *)
Record SdkPlayer := {
  player_id : nat;
  listener_tracks : list Track;
  oauth_token : string
}.

Record State := {
  tracks : list Track;
  trackIndex : Z;
  isPlaying : bool;
  query : string;
  loading : bool;
  error : option string;
  player : option SdkPlayer
}.

(** App.jsx 20-26 *)
Definition initial : State := {|
  tracks := []; trackIndex := 0; isPlaying := false; query := "genre:pop";
  loading := false; error := None; player := None
|}.

(** The methods of the SDK player the handlers call. *)
Inductive sdk_cmd : Type :=
  | SdkTogglePlay
  | SdkNextTrack
  | SdkPreviousTrack
  | SdkPlay (uri : string)
  | SdkSeek (position_ms : Z).

(** What the SDK reports to ["player_state_changed"]. *)
Record SdkState := {
  paused : bool;
  current_track_uri : option string
}.

(** [setTrackIndex(i); setIsPlaying(p)] *)
Definition with_index (i : Z) (p : bool) (s : State) : State :=
  {| tracks := tracks s; trackIndex := i; isPlaying := p; query := query s;
     loading := loading s; error := error s; player := player s |}.

Definition with_isPlaying (p : bool) (s : State) : State :=
  with_index (trackIndex s) p s.

(** [player && spotifyToken]: the hosted backend is used. *)
Definition streaming (st : Store.State) (s : State) : bool :=
  bool_decide (is_Some (player s)) && truthy_str (Store.spotifyToken st).

(** [tracks[i]?.src ? true : false] *)
Definition has_src_at (ts : list Track) (i : Z) : bool :=
  match js_at ts i with Some t => truthy_str (src t) | None => false end.

(** App.jsx 138-144 *)
Definition togglePlay (st : Store.State) (s : State) : State * list sdk_cmd :=
  if streaming st s then (s, [SdkTogglePlay])
  else if has_src_at (tracks s) (trackIndex s) then (with_isPlaying (negb (isPlaying s)) s, [])
  else (s, []).

(** App.jsx 146-156 *)
Definition nextTrack (st : Store.State) (s : State) : State * list sdk_cmd :=
  let len := Z.of_nat (length (tracks s)) in
  if (len =? 0)%Z then (s, [])
  else if streaming st s then (s, [SdkNextTrack])
  else let newIndex := Z.rem (trackIndex s + 1) len in
       (with_index newIndex (has_src_at (tracks s) newIndex) s, []).

(** App.jsx 158-168 *)
Definition prevTrack (st : Store.State) (s : State) : State * list sdk_cmd :=
  let len := Z.of_nat (length (tracks s)) in
  if (len =? 0)%Z then (s, [])
  else if streaming st s then (s, [SdkPreviousTrack])
  else let newIndex := Z.rem (trackIndex s - 1 + len) len in
       (with_index newIndex (has_src_at (tracks s) newIndex) s, []).

(** App.jsx 171-173: the list [playTrack] indexes.  [None] is an
    inherited member of [Object.prototype] (truthy, but indexing it
    gives [undefined]). *)
Definition tracksToPlay (st : Store.State) (s : State) : option (list Track) :=
  if bool_decide (Store.currentPlaylist st = Some "favorites") then Some (Store.favorites st)
  else if truthy_str (Store.currentPlaylist st) then
    match Store.currentPlaylist st with
    | Some name =>
        match Store.get_playlist (Store.playlists st) name with
        | Store.OwnArray ts => Some ts
        | Store.Inherited => None
        | Store.Undefined => Some (tracks s)
        end
    | None => Some (tracks s)
    end
  else Some (tracks s).

(** App.jsx 178-182, the local branch.  [findIndex] only calls its
    callback (which reads [track.src]) when [tracks] is not empty. *)
Definition play_local (track : option Track) (s : State) : js_result State :=
  match track with
  | Some t =>
      let globalIndex := js_find_index (fun x => same_src x t) (tracks s) in
      JsOk (with_index (if (0 <=? globalIndex)%Z then globalIndex else 0) true s)
  | None =>
      match tracks s with
      | [] => JsOk (with_index 0 true s)
      | _ :: _ => JsThrow (TypeError "Cannot read properties of undefined (reading 'src')")
      end
  end.

(** App.jsx 170-183 *)
Definition playTrack (st : Store.State) (index : Z) (s : State)
    : js_result (State * list sdk_cmd) :=
  let track := match tracksToPlay st s with Some l => js_at l index | None => None end in
  if streaming st s then
    match track with
    | None => JsThrow (TypeError "Cannot read properties of undefined (reading 'uri')")
    | Some t =>
        match uri t with
        | Some u => if truthy_str (Some u) then JsOk (s, [SdkPlay u])
                    else js_map (fun s' => (s', [])) (play_local track s)
        | None => js_map (fun s' => (s', [])) (play_local track s)
        end
    end
  else js_map (fun s' => (s', [])) (play_local track s).

(** App.jsx 61-67, the listener of the player [p]. *)
Definition onPlayerStateChanged (p : SdkPlayer) (state : option SdkState) (s : State)
    : State :=
  match state with
  | None => s
  | Some ss =>
      with_index
        (js_or_num (js_find_index (uri_is (current_track_uri ss)) (listener_tracks p)) 0)
        (negb (paused ss)) s
  end.

(** App.jsx 105-108: [fetchTracks] up to its first [await]. *)
Definition fetchTracks_start (s : State) : State :=
  {| tracks := tracks s; trackIndex := trackIndex s; isPlaying := isPlaying s;
     query := query s; loading := true; error := None; player := player s |}.

(** App.jsx 109-131: the rest of [fetchTracks], given the answer of the
    token request and of the search request ([JsThrow] for a failure
    of either). *)
Definition fetchTracks_done (response : js_result (list Spotify.Item)) (s : State) : State :=
  match response with
  | JsOk items =>
      {| tracks := fetched_tracks items; trackIndex := 0; isPlaying := false;
         query := query s; loading := false; error := error s; player := player s |}
  | JsThrow _ =>
      {| tracks := []; trackIndex := trackIndex s; isPlaying := isPlaying s;
         query := query s; loading := false;
         error := Some "Failed to load tracks. Please try again."; player := player s |}
  end.

(** ** Invariant *)

(** The queue bound of the spec: when the queue is not empty the index
    designates one of its tracks. *)
Definition index_ok (s : State) : Prop :=
  tracks s = [] \/ (0 <= trackIndex s < Z.of_nat (length (tracks s)))%Z.

(** ** The handlers as events *)

(** Every handler of App.jsx that changes the controller's state: the
    user's transport actions (passed to NowPlaying and Playlist, App.jsx
    249-259), the two halves of [fetchTracks] and the SDK listener. *)
Inductive event : Type :=
  | EvTogglePlay
  | EvNextTrack
  | EvPrevTrack
  | EvPlayTrack (index : Z)
  | EvFetchStart
  | EvFetchDone (response : js_result (list Spotify.Item))
  | EvPlayerStateChanged (p : SdkPlayer) (state : option SdkState).

Definition handle (st : Store.State) (e : event) (s : State)
    : js_result (State * list sdk_cmd) :=
  match e with
  | EvTogglePlay => JsOk (togglePlay st s)
  | EvNextTrack => JsOk (nextTrack st s)
  | EvPrevTrack => JsOk (prevTrack st s)
  | EvPlayTrack i => playTrack st i s
  | EvFetchStart => JsOk (fetchTracks_start s, [])
  | EvFetchDone r => JsOk (fetchTracks_done r s, [])
  | EvPlayerStateChanged p ss => JsOk (onPlayerStateChanged p ss s, [])
  end.

Definition from_sdk (e : event) : bool :=
  match e with EvPlayerStateChanged _ _ => true | _ => false end.

(** [nextTrack] applied [k] times. *)
Definition iter_nextTrack (st : Store.State) (k : nat) (s : State) : State :=
  Nat.iter k (fun x => fst (nextTrack st x)) s.

(** Sample states for the witnesses. *)
Definition sample_state (ts : list Track) (i : Z) (pl : option SdkPlayer) : State :=
  {| tracks := ts; trackIndex := i; isPlaying := false; query := "genre:pop";
     loading := false; error := None; player := pl |}.

(** A player created before the first search answered: its listener
    closed over the empty initial [tracks]. *)
Definition early_player : SdkPlayer :=
  {| player_id := 0; listener_tracks := []; oauth_token := "BQD-token" |}.

Definition token_store : Store.State := Store.setSpotifyToken (Some "BQD-token") Store.initial.

(** A search result with a preview. *)
Definition sample_item : Spotify.Item :=
  {| Spotify.name := "E"; Spotify.artists := []; Spotify.preview_url := Some "https://p.scdn.co/e";
     Spotify.album := None; Spotify.uri := Some "spotify:track:e" |}.

(** ** The specification's view of the controller

    The queue of the specification is [tracks]; its position is
    [trackIndex] when the queue is not empty; its flag is [isPlaying]. *)
Definition abstract (s : State) : QueueSpec.AState :=
  {| QueueSpec.queue := tracks s;
     QueueSpec.current := match tracks s with [] => None | _ => Some (Z.to_nat (trackIndex s)) end;
     QueueSpec.playing := isPlaying s |}.

(** The events of the local transport and the operation of the
    specification each one implements: the answer to a search loads the
    queue. *)
Definition spec_op (e : event) : option QueueSpec.op :=
  match e with
  | EvTogglePlay => Some QueueSpec.OpToggle
  | EvNextTrack => Some QueueSpec.OpNext
  | EvPrevTrack => Some QueueSpec.OpPrev
  | EvFetchDone (JsOk items) => Some (QueueSpec.OpLoad (fetched_tracks items))
  | _ => None
  end.

(** The search answers carry well-formed preview locators. *)
Definition event_ok (e : event) : Prop :=
  match e with
  | EvFetchDone (JsOk items) => Forall QueueSpec.locator_ok (fetched_tracks items)
  | _ => True
  end.

(** What a local handler leaves unchanged, and keeps in range. *)
Definition local_frame (s s' : State) : Prop :=
  index_ok s' /\ player s' = player s.

(** A sequence of events handled one after the other; the first throw
    stops it. *)
Fixpoint run_events (st : Store.State) (evs : list event) (s : State) : js_result State :=
  match evs with
  | [] => JsOk s
  | e :: evs' =>
      match handle st e s with
      | JsOk (s', _) => run_events st evs' s'
      | JsThrow err => JsThrow err
      end
  end.

(** ** Helper lemmas *)

Lemma streaming_with_index st i p s : streaming st (with_index i p s) = streaming st s.
Proof. reflexivity. Qed.

Lemma tracks_nonempty_len (s : State) :
  tracks s <> [] -> (Z.of_nat (length (tracks s)) =? 0)%Z = false.
Proof. intros H. apply Z.eqb_neq. destruct (tracks s); simpl; [done | lia]. Qed.

Lemma nextTrack_local st s :
  streaming st s = false -> tracks s <> [] ->
  let i := Z.rem (trackIndex s + 1) (Z.of_nat (length (tracks s))) in
  nextTrack st s = (with_index i (has_src_at (tracks s) i) s, []).
Proof. intros Hs Hne. unfold nextTrack. by rewrite tracks_nonempty_len, Hs. Qed.

Lemma prevTrack_local st s :
  streaming st s = false -> tracks s <> [] ->
  let i := Z.rem (trackIndex s - 1 + Z.of_nat (length (tracks s)))
                 (Z.of_nat (length (tracks s))) in
  prevTrack st s = (with_index i (has_src_at (tracks s) i) s, []).
Proof. intros Hs Hne. unfold prevTrack. by rewrite tracks_nonempty_len, Hs. Qed.

Lemma index_ok_nonempty s :
  index_ok s -> tracks s <> [] -> (0 <= trackIndex s < Z.of_nat (length (tracks s)))%Z.
Proof. by intros [] ?. Qed.

Lemma index_ok_same_index s s' :
  tracks s' = tracks s -> trackIndex s' = trackIndex s -> index_ok s -> index_ok s'.
Proof. unfold index_ok. intros -> ->. done. Qed.

Lemma iter_nextTrack_local st s k :
  streaming st s = false -> tracks s <> [] ->
  (0 <= trackIndex s < Z.of_nat (length (tracks s)))%Z ->
  tracks (iter_nextTrack st k s) = tracks s /\
  player (iter_nextTrack st k s) = player s /\
  trackIndex (iter_nextTrack st k s) =
    ((trackIndex s + Z.of_nat k) mod Z.of_nat (length (tracks s)))%Z.
Proof.
  intros Hs Hne Hi. induction k as [|k (Ht & Hp & Hk)]; simpl.
  - split; [done | split; [done|]]. rewrite Z.add_0_r, Z.mod_small; lia.
  - fold (iter_nextTrack st k s).
    assert (Hs' : streaming st (iter_nextTrack st k s) = false)
      by (unfold streaming in *; by rewrite Hp).
    rewrite (nextTrack_local st _ Hs') by congruence. simpl.
    split; [done | split; [done|]]. rewrite Ht, Hk.
    rewrite Z.rem_mod_nonneg by (pose proof (Z.mod_pos_bound (trackIndex s + Z.of_nat k)
      (Z.of_nat (length (tracks s)))); lia).
    rewrite Z.add_mod_idemp_l by lia. f_equal. lia.
Qed.

(** The index [playTrack] selects, [globalIndex >= 0 ? globalIndex : 0],
    is in range. *)
Lemma found_or_zero_index_ok t p s :
  let gi := js_find_index (fun x => same_src x t) (tracks s) in
  index_ok (with_index (if (0 <=? gi)%Z then gi else 0) p s).
Proof.
  unfold index_ok. simpl. destruct (tracks s) as [|x l]; [by left|right].
  pose proof (js_find_index_bounds (fun y => same_src y t) (x :: l)).
  destruct (Z.leb_spec 0 (js_find_index (fun y => same_src y t) (x :: l))); simpl in *; lia.
Qed.

Lemma play_local_keeps_index_ok tr s s' :
  index_ok s -> play_local tr s = JsOk s' -> index_ok s'.
Proof.
  unfold play_local. intros Hok Hrun.
  destruct tr as [t|]; [simplify_eq; apply found_or_zero_index_ok|].
  unfold index_ok in *. destruct (tracks s) eqn:E; simplify_eq; simpl; auto.
Qed.

Lemma playTrack_cases st i s s' cmds :
  playTrack st i s = JsOk (s', cmds) ->
  s' = s \/ exists tr, play_local tr s = JsOk s'.
Proof.
  unfold playTrack. intros H.
  repeat (case_match; simplify_eq; try by left);
    match goal with
    | H : js_map _ (play_local ?tr ?s) = _ |- _ =>
        destruct (play_local tr s) eqn:E; simpl in H; simplify_eq; eauto
    end.
Qed.

Lemma rem_step_bounds a n : (0 <= a)%Z -> n <> 0%nat ->
  (0 <= Z.rem a (Z.of_nat n) < Z.of_nat n)%Z.
Proof. intros Ha Hn. apply rem_nonneg_bounds; lia. Qed.

Lemma len_eqb_false (s : State) :
  (Z.of_nat (length (tracks s)) =? 0)%Z = false -> tracks s <> [].
Proof. intros H E. rewrite E in H. discriminate. Qed.

Lemma local_move_index_ok s a p :
  (0 <= a)%Z -> tracks s <> [] ->
  index_ok (with_index (Z.rem a (Z.of_nat (length (tracks s)))) p s).
Proof.
  intros Ha Hne. right. simpl. apply rem_step_bounds; [done|].
  destruct (tracks s); simpl; congruence.
Qed.

Lemma tracksToPlay_main st s :
  Store.currentPlaylist st = None -> tracksToPlay st s = Some (tracks s).
Proof. intros H. unfold tracksToPlay. by rewrite H. Qed.

Lemma playTrack_local_main st s i :
  streaming st s = false -> Store.currentPlaylist st = None ->
  playTrack st i s = js_map (fun s' => (s', [])) (play_local (js_at (tracks s) i) s).
Proof. intros Hs Hc. unfold playTrack. by rewrite tracksToPlay_main, Hs. Qed.

(** With the local backend and the main list selected, [playTrack] of
    a track of the queue plays the first track with the same [src]. *)
Lemma playTrack_local_index st s i t :
  streaming st s = false -> Store.currentPlaylist st = None ->
  js_at (tracks s) i = Some t ->
  playTrack st i s =
    JsOk (with_index (js_find_index (fun x => same_src x t) (tracks s)) true s, []).
Proof.
  intros Hs Hc Hi. rewrite playTrack_local_main by done. rewrite Hi. simpl.
  destruct (js_find_index_le (fun x => same_src x t) (tracks s) i t
    ltac:(eauto using js_at_index_nonneg) Hi (same_src_refl t)).
  destruct (Z.leb_spec 0 (js_find_index (fun x => same_src x t) (tracks s))); [done | lia].
Qed.

(** JavaScript's [(i + 1) % n] then [(j - 1 + n) % n] is the identity on
    [0 <= i < n]. *)
Lemma rem_succ_pred i n :
  (0 <= i < n)%Z -> Z.rem (Z.rem (i + 1) n - 1 + n) n = i.
Proof.
  intros Hi. rewrite (Z.rem_mod_nonneg (i + 1)) by lia.
  destruct (Z.eq_dec (i + 1) n) as [E|E].
  - rewrite E, Z.mod_same, Z.rem_mod_nonneg by lia. rewrite Z.mod_small; lia.
  - rewrite (Z.mod_small (i + 1)) by lia. rewrite Z.rem_mod_nonneg by lia.
    replace (i + 1 - 1 + n)%Z with (i + 1 * n)%Z by lia.
    rewrite Z.mod_add, Z.mod_small; lia.
Qed.

#[export] Hint Resolve index_ok_same_index local_move_index_ok
  len_eqb_false : music.

(** ** Properties of the controller *)

(** ** Refinement of the specification's controller *)

Lemma truthy_locator t :
  QueueSpec.locator_ok t -> truthy_str (src t) = QueueSpec.has_preview t.
Proof.
  unfold QueueSpec.locator_ok, QueueSpec.has_preview, truthy_str.
  destruct (src t) as [v|]; intros H; simpl; repeat case_bool_decide; naive_solver.
Qed.

Lemma has_src_at_spec ts i :
  Forall QueueSpec.locator_ok ts -> (0 <= i)%Z ->
  has_src_at ts i = default false (QueueSpec.has_preview <$> ts !! Z.to_nat i).
Proof.
  intros Hok Hi. unfold has_src_at.
  replace i with (Z.of_nat (Z.to_nat i)) at 1 by lia. rewrite js_at_nat.
  destruct (ts !! Z.to_nat i) as [t|] eqn:E; simpl; [|done].
  apply truthy_locator. by eapply Forall_lookup_1.
Qed.

Lemma to_nat_rem_succ i n :
  (0 <= i < Z.of_nat n)%Z -> Z.to_nat (Z.rem (i + 1) (Z.of_nat n)) = (S (Z.to_nat i) mod n)%nat.
Proof.
  intros Hi. rewrite Z.rem_mod_nonneg, Z2Nat.inj_mod, Nat2Z.id by lia. f_equal. lia.
Qed.

Lemma to_nat_rem_pred i n :
  (0 <= i < Z.of_nat n)%Z ->
  Z.to_nat (Z.rem (i - 1 + Z.of_nat n) (Z.of_nat n)) = ((Z.to_nat i + n - 1) mod n)%nat.
Proof.
  intros Hi. rewrite Z.rem_mod_nonneg, Z2Nat.inj_mod, Nat2Z.id by lia. f_equal. lia.
Qed.

Lemma abstract_current s :
  tracks s <> [] -> QueueSpec.current (abstract s) = Some (Z.to_nat (trackIndex s)).
Proof. unfold abstract. simpl. by destruct (tracks s). Qed.

Lemma abstract_with_index i p s :
  tracks s <> [] ->
  abstract (with_index i p s) =
    {| QueueSpec.queue := tracks s; QueueSpec.current := Some (Z.to_nat i); QueueSpec.playing := p |}.
Proof. unfold abstract. simpl. by destruct (tracks s). Qed.

Lemma abstract_with_isPlaying p s :
  tracks s <> [] ->
  abstract (with_isPlaying p s) =
    {| QueueSpec.queue := tracks s; QueueSpec.current := Some (Z.to_nat (trackIndex s));
       QueueSpec.playing := p |}.
Proof. unfold abstract. simpl. by destruct (tracks s). Qed.

Lemma abstract_empty s :
  tracks s = [] -> QueueSpec.current (abstract s) = None.
Proof. unfold abstract. simpl. by intros ->. Qed.

Lemma nextTrack_refines st s :
  streaming st s = false -> index_ok s -> Forall QueueSpec.locator_ok (tracks s) ->
  (nextTrack st s).2 = [] /\ abstract (nextTrack st s).1 = QueueSpec.nextTrack (abstract s) /\
  tracks (nextTrack st s).1 = tracks s /\ local_frame s (nextTrack st s).1.
Proof.
  intros Hs Hi Hok. unfold local_frame. destruct (decide (tracks s = [])) as [E|Hne].
  - unfold nextTrack, QueueSpec.nextTrack. rewrite abstract_empty by done. rewrite E. auto.
  - pose proof (index_ok_nonempty s Hi Hne).
    rewrite (nextTrack_local st s Hs Hne). cbn [fst snd]. unfold QueueSpec.nextTrack.
    rewrite abstract_current, abstract_with_index by done. unfold QueueSpec.select. simpl.
    rewrite has_src_at_spec, to_nat_rem_succ by (done || apply rem_step_bounds; lia).
    repeat split; auto. apply local_move_index_ok; [lia|done].
Qed.

Lemma prevTrack_refines st s :
  streaming st s = false -> index_ok s -> Forall QueueSpec.locator_ok (tracks s) ->
  (prevTrack st s).2 = [] /\ abstract (prevTrack st s).1 = QueueSpec.prevTrack (abstract s) /\
  tracks (prevTrack st s).1 = tracks s /\ local_frame s (prevTrack st s).1.
Proof.
  intros Hs Hi Hok. unfold local_frame. destruct (decide (tracks s = [])) as [E|Hne].
  - unfold prevTrack, QueueSpec.prevTrack. rewrite abstract_empty by done. rewrite E. auto.
  - pose proof (index_ok_nonempty s Hi Hne).
    rewrite (prevTrack_local st s Hs Hne). cbn [fst snd]. unfold QueueSpec.prevTrack.
    rewrite abstract_current, abstract_with_index by done. unfold QueueSpec.select. simpl.
    rewrite has_src_at_spec, to_nat_rem_pred by (done || apply rem_step_bounds; lia).
    repeat split; auto. apply local_move_index_ok; [lia|done].
Qed.

Lemma togglePlay_refines st s :
  streaming st s = false -> index_ok s -> Forall QueueSpec.locator_ok (tracks s) ->
  (togglePlay st s).2 = [] /\ abstract (togglePlay st s).1 = QueueSpec.togglePlay (abstract s) /\
  tracks (togglePlay st s).1 = tracks s /\ local_frame s (togglePlay st s).1.
Proof.
  intros Hs Hi Hok. unfold local_frame, togglePlay, QueueSpec.togglePlay, QueueSpec.current_track.
  rewrite Hs. destruct (decide (tracks s = [])) as [E|Hne].
  - rewrite abstract_empty by done. unfold has_src_at. rewrite E, js_at_nil. auto.
  - pose proof (index_ok_nonempty s Hi Hne). rewrite abstract_current by done. simpl.
    rewrite has_src_at_spec by (done || lia).
    destruct (tracks s !! Z.to_nat (trackIndex s)) as [t|] eqn:Et; simpl; [|auto].
    destruct (QueueSpec.has_preview t); simpl; [|auto].
    rewrite abstract_with_isPlaying by done. repeat split; auto.
Qed.

Lemma fetchTracks_done_refines items s :
  abstract (fetchTracks_done (JsOk items) s) = QueueSpec.loadQueue (fetched_tracks items) (abstract s) /\
  local_frame s (fetchTracks_done (JsOk items) s).
Proof.
  unfold abstract, QueueSpec.loadQueue, local_frame, index_ok. simpl.
  split; [by destruct (fetched_tracks items)|]. split; [|done].
  destruct (fetched_tracks items) eqn:E; [by left|right]. simpl. lia.
Qed.

Lemma local_step_refines st e s o :
  streaming st s = false -> index_ok s -> Forall QueueSpec.locator_ok (tracks s) ->
  event_ok e -> spec_op e = Some o ->
  exists s', handle st e s = JsOk (s', []) /\ abstract s' = QueueSpec.apply o (abstract s) /\
    Forall QueueSpec.locator_ok (tracks s') /\ local_frame s s'.
Proof.
  intros Hs Hi Hok He Ho.
  destruct e as [| | | | |[items|]|]; simplify_eq/=.
  - destruct (togglePlay_refines st s Hs Hi Hok) as (Hc & Ha & Ht & Hf).
    destruct (togglePlay st s) as [s' c]; simpl in *; subst c.
    exists s'. rewrite Ht. auto.
  - destruct (nextTrack_refines st s Hs Hi Hok) as (Hc & Ha & Ht & Hf).
    destruct (nextTrack st s) as [s' c]; simpl in *; subst c.
    exists s'. rewrite Ht. auto.
  - destruct (prevTrack_refines st s Hs Hi Hok) as (Hc & Ha & Ht & Hf).
    destruct (prevTrack st s) as [s' c]; simpl in *; subst c.
    exists s'. rewrite Ht. auto.
  - destruct (fetchTracks_done_refines items s) as [Ha Hf]. eauto.
Qed.

(** With a preview locator on [t], the specification's identity rule
    and the code's [src] comparison agree on every track whose [uri]
    equal to [t]'s determines its [src]. *)
Lemma same_track_same_src t x :
  QueueSpec.has_preview t = true ->
  (uri x = uri t -> is_Some (uri t) -> src x = src t) ->
  QueueSpec.same_track t x = same_src x t.
Proof.
  unfold QueueSpec.has_preview, QueueSpec.same_track, same_src. intros Hp Hu.
  case_bool_decide as Hs; [|done]. destruct Hs as [p Ep]. rewrite Ep in Hu |- *.
  destruct (src x) as [q|], (uri t) as [u|], (uri x) as [v|];
    repeat case_bool_decide; naive_solver.
Qed.

(** The transport handlers and the SDK listener leave [loading] alone:
    only the two halves of [fetchTracks] set it. *)
Lemma onPlayerStateChanged_loading p ss s : loading (onPlayerStateChanged p ss s) = loading s.
Proof. unfold onPlayerStateChanged. by repeat case_match. Qed.

Lemma handle_keeps_loading st e s r :
  match e with EvFetchStart | EvFetchDone _ => False | _ => True end ->
  handle st e s = JsOk r -> loading r.1 = loading s.
Proof.
  intros He. destruct e; try contradiction; simpl; intros Hr; simplify_eq/=.
  - unfold togglePlay. by repeat case_match.
  - unfold nextTrack. by repeat case_match.
  - unfold prevTrack. by repeat case_match.
  - revert Hr. unfold playTrack, play_local. repeat case_match; intros; simplify_eq/=; done.
  - apply onPlayerStateChanged_loading.
Qed.

(** With the local backend, "previous" undoes "next". *)
Lemma prevTrack_after_nextTrack st s :
  streaming st s = false -> tracks s <> [] ->
  (0 <= trackIndex s < Z.of_nat (length (tracks s)))%Z ->
  trackIndex (fst (prevTrack st (fst (nextTrack st s)))) = trackIndex s.
Proof.
  intros Hs Hne Hi. rewrite (nextTrack_local st s Hs Hne). simpl.
  rewrite prevTrack_local by (rewrite ?streaming_with_index; done). simpl.
  by apply rem_succ_pred.
Qed.

(** C1: with the local backend (no player or no token) and a non-empty
    queue, pressing "next" as many times as there are tracks comes
    back to the starting track (spec, testable property 1), and
    "previous" right after "next" returns to it. *)
Theorem nextTrack_cycle st s :
  streaming st s = false -> tracks s <> [] ->
  (0 <= trackIndex s < Z.of_nat (length (tracks s)))%Z ->
  trackIndex (iter_nextTrack st (length (tracks s)) s) = trackIndex s /\
  trackIndex (fst (prevTrack st (fst (nextTrack st s)))) = trackIndex s.
Proof.
  intros Hs Hne Hi. split; [|by apply prevTrack_after_nextTrack]. destruct (iter_nextTrack_local st s (length (tracks s)) Hs Hne Hi)
    as (_ & _ & ->).
  replace (trackIndex s + Z.of_nat (length (tracks s)))%Z
    with (trackIndex s + 1 * Z.of_nat (length (tracks s)))%Z by lia.
  rewrite Z.mod_add, Z.mod_small; lia.
Qed.

(** C2: every handler of the controller except the SDK listener keeps
    the queue bound: if the queue is not empty, [trackIndex] designates
    one of its tracks. *)
Theorem handlers_keep_index_ok st e s s' cmds :
  from_sdk e = false -> index_ok s -> handle st e s = JsOk (s', cmds) -> index_ok s'.
Proof.
  intros Hsdk Hok Hh. destruct e; simpl in Hsdk, Hh; try discriminate.
  - unfold togglePlay in Hh. repeat case_match; simplify_eq; eauto with music.
  - unfold nextTrack in Hh. repeat case_match; simplify_eq; try done.
    pose proof (index_ok_nonempty s Hok ltac:(eauto with music)).
    apply local_move_index_ok; [lia | eauto with music].
  - unfold prevTrack in Hh. repeat case_match; simplify_eq; try done.
    pose proof (index_ok_nonempty s Hok ltac:(eauto with music)).
    apply local_move_index_ok; [lia | eauto with music].
  - destruct (playTrack_cases _ _ _ _ _ Hh) as [-> | [tr Hp]];
      [done | exact (play_local_keeps_index_ok _ _ _ Hok Hp)].
  - by simplify_eq.
  - simplify_eq. unfold fetchTracks_done, index_ok.
    destruct response as [items|]; simpl; [|by left].
    destruct items; [by left | right; simpl; lia].
Qed.

(** C3: with a player and a token, "play/pause", "next" and "previous" on
    a non-empty queue only send the command to the SDK: [trackIndex],
    [isPlaying] and the rest of the state wait for the SDK's
    notification (spec, testable property 6). *)
Theorem streaming_transport_no_state_change st s :
  streaming st s = true -> tracks s <> [] ->
  togglePlay st s = (s, [SdkTogglePlay]) /\
  nextTrack st s = (s, [SdkNextTrack]) /\
  prevTrack st s = (s, [SdkPreviousTrack]).
Proof.
  intros Hs Hne. unfold togglePlay, nextTrack, prevTrack.
  by rewrite Hs, tracks_nonempty_len.
Qed.

(** C4: when the SDK reports a track that is not in the list the
    listener closed over, the listener sets [trackIndex] to -1 (the code
    writes [findIndex(...) || 0], and [-1 || 0] is [-1]); the spec asks
    for index 0, and with a non-empty queue no track is current. *)
Theorem onPlayerStateChanged_unknown_uri p ss s :
  Forall (fun t => uri t <> current_track_uri ss) (listener_tracks p) ->
  trackIndex (onPlayerStateChanged p (Some ss) s) = (-1)%Z /\
  (tracks s <> [] -> ~ index_ok (onPlayerStateChanged p (Some ss) s)).
Proof.
  intros Hnot. assert (Hm : js_find_index (uri_is (current_track_uri ss)) (listener_tracks p) = (-1)%Z).
  { apply js_find_index_none. eapply Forall_impl; [exact Hnot|].
    intros t Ht. by apply bool_decide_eq_false_2. }
  simpl. rewrite Hm, js_or_num_nonzero by lia.
  split; [done|]. intros Hne [E|Hb]; simpl in *; [done | lia].
Qed.

(** C13: with the local backend, [playTrack] of a track of the main queue
    never throws, starts playing even when the track has no preview,
    and selects the first track of the queue with the same [src]. *)
Theorem playTrack_local_spec st s i t :
  streaming st s = false -> Store.currentPlaylist st = None ->
  js_at (tracks s) i = Some t ->
  exists s', playTrack st i s = JsOk (s', []) /\ isPlaying s' = true /\
    trackIndex s' = js_find_index (fun x => same_src x t) (tracks s) /\
    exists t', js_at (tracks s) (trackIndex s') = Some t' /\ src t' = src t.
Proof.
  intros Hs Hc Hi. rewrite (playTrack_local_index st s i t Hs Hc Hi).
  eexists. split; [done|]. split; [done|]. split; [done|]. simpl.
  destruct (js_find_index_found (fun x => same_src x t) (tracks s) _ eq_refl
    ltac:(eapply js_find_index_le; eauto using same_src_refl, js_at_index_nonneg))
    as (t' & Ht' & Hsrc).
  exists t'. split; [done|]. by apply same_src_true.
Qed.

(** Because tracks without a preview all have [src] null, playing
    the second of two preview-less tracks of the queue (local backend)
    selects the first one instead. *)
Lemma playTrack_null_src_wrong_track st s i j t u :
  streaming st s = false -> Store.currentPlaylist st = None ->
  (0 <= j < i)%Z -> js_at (tracks s) j = Some u -> js_at (tracks s) i = Some t ->
  src u = None -> src t = None ->
  exists s', playTrack st i s = JsOk (s', []) /\ isPlaying s' = true /\ trackIndex s' <> i.
Proof.
  intros Hs Hc Hji Hj Hi Hu Ht. rewrite (playTrack_local_index st s i t Hs Hc Hi).
  eexists. split; [done | split; [done|]]. simpl.
  pose proof (js_find_index_le (fun x => same_src x t) (tracks s) j u ltac:(lia) Hj
    ltac:(apply same_src_true; congruence)). lia.
Qed.

(** ** Witnesses *)

(** C6: with the local backend, the controller implements the
    specification's queue: from a state whose index is in range and
    whose preview locators are non-empty, every sequence of
    [togglePlay], [nextTrack], [prevTrack] and search answers runs
    without throwing, and its result, seen through [abstract], is the
    result of the corresponding operations of [QueueSpec]. *)
Theorem local_controller_refines_spec st evs ops s :
  streaming st s = false -> index_ok s -> Forall QueueSpec.locator_ok (tracks s) ->
  Forall event_ok evs -> mapM spec_op evs = Some ops ->
  exists s', run_events st evs s = JsOk s' /\ index_ok s' /\
    abstract s' = QueueSpec.run ops (abstract s).
Proof.
  intros Hs Hi Hok Hevs. revert s ops Hs Hi Hok.
  induction Hevs as [|e evs He _ IH]; intros s ops Hs Hi Hok Hm; simpl in Hm.
  - injection Hm as <-. by exists s.
  - destruct (spec_op e) as [o|] eqn:Ho; [|done]. simpl in Hm.
    destruct (mapM spec_op evs) as [os|]; simpl in Hm; [|done]. injection Hm as <-.
    destruct (local_step_refines st e s o) as (s1 & Hh & Ha & Hok1 & Hi1 & Hp1); [done..|].
    destruct (IH s1 os) as (s' & Hr & Hi' & Ha'); [by unfold streaming; rewrite Hp1 | done..|].
    exists s'. cbn [run_events]. rewrite Hh. split; [done|]. split; [done|]. by rewrite Ha', Ha.
Qed.

(** C7: with the local backend, [playTrack] of a track [t] with a preview,
    taken from the displayed list, implements the specification's
    [playTrack]: it finds [t]'s position in the queue by the identity
    rule (index 0 when absent) and plays, provided a [uri] equal to
    [t]'s determines the [src] in the queue. *)
Theorem playTrack_refines_spec st s i l t :
  streaming st s = false -> tracksToPlay st s = Some l -> js_at l i = Some t ->
  QueueSpec.has_preview t = true ->
  Forall (fun x => uri x = uri t -> is_Some (uri t) -> src x = src t) (tracks s) ->
  exists s', playTrack st i s = JsOk (s', []) /\ index_ok s' /\
    abstract s' = QueueSpec.playTrack t (abstract s).
Proof.
  intros Hs Hl Ht Hp Hu. unfold playTrack. rewrite Hs, Hl, Ht. simpl. eexists.
  split; [done|]. split; [apply found_or_zero_index_ok|].
  rewrite (js_find_index_ext _ (QueueSpec.same_track t))
    by (eapply Forall_impl; [exact Hu|]; intros x Hx; symmetry; by apply same_track_same_src).
  rewrite js_find_index_list_find. unfold QueueSpec.playTrack.
  destruct (decide (tracks s = [])) as [E|Hne].
  - unfold abstract. simpl. rewrite E, Hp. done.
  - rewrite abstract_with_index by done. simpl. rewrite Hp.
    destruct (list_find (fun y => QueueSpec.same_track t y = true) (tracks s))
      as [[k y]|]; simpl; destruct (tracks s); try done.
    destruct (Z.leb_spec 0 (Z.of_nat k)); [|lia]. by rewrite Nat2Z.id.
Qed.

(** C8: the hosted backend's notification implements the specification's
    rule when the listener's closure holds the current list and the
    reported track is in it: the index is the position of the first
    track with the reported uri, in range, and [isPlaying] is
    [!paused].  (When the track is absent the code stores -1, and the
    closure can hold an older list: see the theorems on the listener.) *)
Theorem onPlayerStateChanged_refines_spec p ss s :
  listener_tracks p = tracks s ->
  (exists t, t ∈ tracks s /\ uri t = current_track_uri ss) ->
  index_ok (onPlayerStateChanged p (Some ss) s) /\
  abstract (onPlayerStateChanged p (Some ss) s) =
    QueueSpec.notify (paused ss) (current_track_uri ss) (abstract s).
Proof.
  intros Hl (t & Ht & Hu). simpl. rewrite Hl, js_find_index_list_find.
  rewrite (list_find_ext _ (fun x => uri x = current_track_uri ss))
    by (intros x; unfold uri_is; by rewrite bool_decide_eq_true).
  destruct (list_find_elem_of (fun x => uri x = current_track_uri ss) (tracks s) t Ht Hu)
    as [[k y] Hk].
  rewrite Hk, js_or_num_nat. apply list_find_Some in Hk as Hky. destruct Hky as [Hky _].
  assert (Hne : tracks s <> []) by (intros E; rewrite E in Ht; inversion Ht).
  split; [right; simpl; apply lookup_lt_Some in Hky; lia|].
  rewrite abstract_with_index by done. unfold QueueSpec.notify. simpl.
  destruct (tracks s) as [|x xs]; [done|]. rewrite Hk. simpl. by rewrite Nat2Z.id.
Qed.

Lemma nextTrack_cycle_witness :
  streaming Store.initial (sample_state [track_A; track_B; track_C] 1 None) = false /\
  tracks (sample_state [track_A; track_B; track_C] 1 None) <> [] /\
  (0 <= trackIndex (sample_state [track_A; track_B; track_C] 1 None)
     < Z.of_nat (length (tracks (sample_state [track_A; track_B; track_C] 1 None))))%Z /\
  trackIndex (iter_nextTrack Store.initial
                (length (tracks (sample_state [track_A; track_B; track_C] 1 None)))
                (sample_state [track_A; track_B; track_C] 1 None))
    = trackIndex (sample_state [track_A; track_B; track_C] 1 None).
Proof.
  assert (H1 : streaming Store.initial (sample_state [track_A; track_B; track_C] 1 None) = false)
    by reflexivity.
  assert (H2 : tracks (sample_state [track_A; track_B; track_C] 1 None) <> []) by discriminate.
  assert (H3 : (0 <= trackIndex (sample_state [track_A; track_B; track_C] 1 None)
     < Z.of_nat (length (tracks (sample_state [track_A; track_B; track_C] 1 None))))%Z)
    by (simpl; lia).
  split; [exact H1 | split; [exact H2 | split; [exact H3 |]]].
  exact (proj1 (nextTrack_cycle _ _ H1 H2 H3)).
Defined.

Lemma handlers_keep_index_ok_witness :
  from_sdk EvNextTrack = false /\
  index_ok (sample_state [track_A; track_B] 1 None) /\
  handle Store.initial EvNextTrack (sample_state [track_A; track_B] 1 None)
    = JsOk (with_index 0 true (sample_state [track_A; track_B] 1 None), []) /\
  index_ok (with_index 0 true (sample_state [track_A; track_B] 1 None)).
Proof.
  assert (H2 : index_ok (sample_state [track_A; track_B] 1 None)) by (right; simpl; lia).
  assert (H3 : handle Store.initial EvNextTrack (sample_state [track_A; track_B] 1 None)
    = JsOk (with_index 0 true (sample_state [track_A; track_B] 1 None), [])) by reflexivity.
  split; [reflexivity | split; [exact H2 | split; [exact H3 |]]].
  apply (handlers_keep_index_ok Store.initial EvNextTrack _ _ _ eq_refl H2 H3).
Defined.

Lemma streaming_transport_no_state_change_witness :
  streaming token_store (sample_state [track_A; track_B] 0 (Some early_player)) = true /\
  tracks (sample_state [track_A; track_B] 0 (Some early_player)) <> [] /\
  togglePlay token_store (sample_state [track_A; track_B] 0 (Some early_player))
    = (sample_state [track_A; track_B] 0 (Some early_player), [SdkTogglePlay]) /\
  nextTrack token_store (sample_state [track_A; track_B] 0 (Some early_player))
    = (sample_state [track_A; track_B] 0 (Some early_player), [SdkNextTrack]) /\
  prevTrack token_store (sample_state [track_A; track_B] 0 (Some early_player))
    = (sample_state [track_A; track_B] 0 (Some early_player), [SdkPreviousTrack]).
Proof.
  assert (H1 : streaming token_store (sample_state [track_A; track_B] 0 (Some early_player)) = true)
    by reflexivity.
  assert (H2 : tracks (sample_state [track_A; track_B] 0 (Some early_player)) <> [])
    by discriminate.
  split; [exact H1 | split; [exact H2 |]].
  apply streaming_transport_no_state_change; [exact H1 | exact H2].
Defined.

Lemma onPlayerStateChanged_unknown_uri_witness :
  Forall (fun t => uri t <> current_track_uri {| paused := false; current_track_uri := Some "spotify:track:a" |})
    (listener_tracks early_player) /\
  trackIndex (onPlayerStateChanged early_player
                (Some {| paused := false; current_track_uri := Some "spotify:track:a" |})
                (sample_state [track_A; track_B] 0 (Some early_player))) = (-1)%Z /\
  (tracks (sample_state [track_A; track_B] 0 (Some early_player)) <> [] ->
   ~ index_ok (onPlayerStateChanged early_player
                (Some {| paused := false; current_track_uri := Some "spotify:track:a" |})
                (sample_state [track_A; track_B] 0 (Some early_player)))).
Proof.
  assert (H : Forall (fun t => uri t <> current_track_uri
                {| paused := false; current_track_uri := Some "spotify:track:a" |})
                (listener_tracks early_player)) by constructor.
  split; [exact H |]. apply onPlayerStateChanged_unknown_uri. exact H.
Defined.

Lemma playTrack_local_spec_witness :
  streaming Store.initial (sample_state [track_A; track_C] 0 None) = false /\
  Store.currentPlaylist Store.initial = None /\
  js_at (tracks (sample_state [track_A; track_C] 0 None)) 1 = Some track_C /\
  exists s', playTrack Store.initial 1 (sample_state [track_A; track_C] 0 None) = JsOk (s', []) /\
    isPlaying s' = true /\
    trackIndex s' = js_find_index (fun x => same_src x track_C)
                      (tracks (sample_state [track_A; track_C] 0 None)) /\
    exists t', js_at (tracks (sample_state [track_A; track_C] 0 None)) (trackIndex s') = Some t' /\
               src t' = src track_C.
Proof.
  split; [reflexivity | split; [reflexivity | split; [reflexivity |]]].
  apply playTrack_local_spec; reflexivity.
Defined.

Lemma playTrack_null_src_wrong_track_witness :
  streaming Store.initial (sample_state [track_C; track_D] 0 None) = false /\
  Store.currentPlaylist Store.initial = None /\ (0 <= 0 < 1)%Z /\
  js_at (tracks (sample_state [track_C; track_D] 0 None)) 0 = Some track_C /\
  js_at (tracks (sample_state [track_C; track_D] 0 None)) 1 = Some track_D /\
  src track_C = None /\ src track_D = None /\
  exists s', playTrack Store.initial 1 (sample_state [track_C; track_D] 0 None) = JsOk (s', []) /\
    isPlaying s' = true /\ trackIndex s' <> 1%Z.
Proof.
  split; [reflexivity | split; [reflexivity | split; [lia |]]].
  do 4 (split; [reflexivity |]).
  apply (playTrack_null_src_wrong_track Store.initial _ 1 0 track_D track_C);
    reflexivity || lia.
Defined.

Lemma local_controller_refines_spec_witness :
  exists s', run_events Store.initial
    [EvNextTrack; EvTogglePlay; EvPrevTrack; EvFetchDone (JsOk [sample_item])]
    (sample_state [track_A; track_C; track_B] 0 None) = JsOk s' /\ index_ok s' /\
  abstract s' = QueueSpec.run
    [QueueSpec.OpNext; QueueSpec.OpToggle; QueueSpec.OpPrev;
     QueueSpec.OpLoad (fetched_tracks [sample_item])]
    (abstract (sample_state [track_A; track_C; track_B] 0 None)).
Proof.
  apply local_controller_refines_spec.
  - reflexivity.
  - right. simpl. lia.
  - repeat constructor; discriminate.
  - repeat constructor. vm_compute. discriminate.
  - reflexivity.
Defined.

Lemma playTrack_refines_spec_witness :
  exists s', playTrack Store.initial 1 (sample_state [track_C; track_B; track_A] 0 None)
             = JsOk (s', []) /\ index_ok s' /\
    abstract s' = QueueSpec.playTrack track_B (abstract (sample_state [track_C; track_B; track_A] 0 None)).
Proof.
  apply (playTrack_refines_spec _ _ _ [track_C; track_B; track_A]).
  - reflexivity.
  - reflexivity.
  - reflexivity.
  - reflexivity.
  - repeat constructor; simpl; intros H; discriminate.
Defined.

Lemma onPlayerStateChanged_refines_spec_witness :
  index_ok (onPlayerStateChanged {| player_id := 1; listener_tracks := [track_A; track_B];
                                    oauth_token := "BQD-token" |}
              (Some {| paused := false; current_track_uri := Some "spotify:track:b" |})
              (sample_state [track_A; track_B] 0 None)) /\
  abstract (onPlayerStateChanged {| player_id := 1; listener_tracks := [track_A; track_B];
                                    oauth_token := "BQD-token" |}
              (Some {| paused := false; current_track_uri := Some "spotify:track:b" |})
              (sample_state [track_A; track_B] 0 None)) =
    QueueSpec.notify false (Some "spotify:track:b") (abstract (sample_state [track_A; track_B] 0 None)).
Proof.
  apply onPlayerStateChanged_refines_spec; [reflexivity|].
  exists track_B. split; [right; left | reflexivity].
Defined.

End Playback.
