(* ===== verification/Views.v ===== *)
(** * The views that call the store: NowPlaying.jsx and Playlist.jsx

    [NowPlaying] models the props App passes (App.jsx 249-256), the
    favourite test and the handlers of src/src/components/NowPlaying.jsx;
    [PlaylistView] the list shown by src/src/components/Playlist.jsx, its
    tab selection and its play button.  Positions and durations are
    JavaScript numbers, modelled as rationals [Q]. *)

From Stdlib Require Import QArith Qround Ascii.
From S2P Require Import Prelude Track Store Playback.

Module NowPlaying.

(** The props NowPlaying reads. *)
Record Props := {
  track : option Track;
  isPlaying : bool;
  player : option Playback.SdkPlayer
}.

(** App.jsx 249-256: App passes [track], [isPlaying], the handlers and
    [audioRef]; it passes no [player], so the prop is [undefined]. *)
Definition props_of_app (s : Playback.State) : Props := {|
  track := js_at (Playback.tracks s) (Playback.trackIndex s);
  isPlaying := Playback.isPlaying s;
  player := None
|}.

(** NowPlaying.jsx 55: [track && favorites.some((fav) => fav.uri === track.uri)] *)
Definition isFavorite (st : Store.State) (tr : option Track) : bool :=
  match tr with
  | Some t => js_some (uri_is (uri t)) (Store.favorites st)
  | None => false
  end.

(** NowPlaying.jsx 57-64 *)
Definition handleFavoriteToggle (tr : option Track) (st : Store.State) : Store.State :=
  match tr with
  | None => st
  | Some t =>
      if isFavorite st tr then Store.removeFromFavorites t st
      else Store.addToFavorites t st
  end.

(** [s.trim()]: the white space and line terminators of ECMAScript
    among the code units below 256 (tab, line feed, vertical tab, form
    feed, carriage return, space and the no-break space U+00A0). *)
Definition is_js_space (c : Ascii.ascii) : bool :=
  bool_decide (c ∈ [" "; "009"; "010"; "011"; "012"; "013"; "160"]%char).

Fixpoint drop_spaces (cs : list Ascii.ascii) : list Ascii.ascii :=
  match cs with
  | c :: cs' => if is_js_space c then drop_spaces cs' else cs
  | [] => []
  end.

Definition js_trim (s : string) : string :=
  String.string_of_list_ascii
    (rev (drop_spaces (rev (drop_spaces (String.list_ascii_of_string s))))).

(** NowPlaying.jsx 66-76: the store after the click and the new value of
    the [playlistName] input.  zustand's [set] is synchronous, so
    [addToPlaylist] sees the playlist [createPlaylist] just made. *)
Definition handleAddToPlaylist (tr : option Track) (playlistName : string)
    (existingPlaylistName : option string) (st : Store.State)
    : js_result (Store.State * string) :=
  match tr with
  | None => JsOk (st, playlistName)
  | Some t =>
      if truthy_str existingPlaylistName then
        match existingPlaylistName with
        | Some n => js_map (fun st' => (st', playlistName)) (Store.addToPlaylist t n st)
        | None => JsOk (st, playlistName)
        end
      else if truthy_str (Some (js_trim playlistName)) then
        js_map (fun st' => (st', ""))
          (Store.addToPlaylist t (js_trim playlistName)
             (Store.createPlaylist (js_trim playlistName) st))
      else JsOk (st, playlistName)
  end.

(** NowPlaying.jsx 46-53: the argument of [player.seek], if it is called,
    for a click at fraction [percent] of the bar. *)
Definition handleSeek (p : Props) (percent duration : Q) : option Q :=
  match player p, track p with
  | Some _, Some _ => Some (percent * duration * 1000)%Q
  | _, _ => None
  end.

End NowPlaying.

Module PlaylistView.

(** The list Playlist.jsx shows (lines 16-20); [None] is an inherited
    member of [Object.prototype], which is truthy and has no [map]. *)
Definition displayTracks (st : Store.State) (tracks : list Track) : option (list Track) :=
  if bool_decide (Store.currentPlaylist st = Some "favorites") then Some (Store.favorites st)
  else if truthy_str (Store.currentPlaylist st) then
    match Store.currentPlaylist st with
    | Some name =>
        match Store.get_playlist (Store.playlists st) name with
        | Store.OwnArray ts => Some ts
        | Store.Inherited => None
        | Store.Undefined => Some []
        end
    | None => Some tracks
    end
  else Some tracks.

(** Playlist.jsx 22: [currentPlaylist || "main"] *)
Definition activeTab (st : Store.State) : string :=
  match Store.currentPlaylist st with
  | Some n => if truthy_str (Some n) then n else "main"
  | None => "main"
  end.

(** Playlist.jsx 24-30 *)
Definition handleTabChange (value : string) (st : Store.State) : Store.State :=
  if bool_decide (value = "main") then Store.setCurrentPlaylist None st
  else Store.setCurrentPlaylist (Some value) st.

(** Playlist.jsx 47-55: the values of the tab triggers. *)
Definition tab_values (st : Store.State) : list string :=
  "main" :: "favorites" :: map fst (map_to_list (Store.playlists st)).

(** Playlist.jsx 96: [track.uri && playTrack(index)], the index handed to
    App's [playTrack], if any. *)
Definition onPlayClick (t : Track) (index : nat) : option Z :=
  if truthy_str (uri t) then Some (Z.of_nat index) else None.

(** ** The selection the views can make *)

(** [currentPlaylist] names the favourites or an own key of [playlists]. *)
Definition selection_ok (st : Store.State) : Prop :=
  match Store.currentPlaylist st with
  | None => True
  | Some n => n = "favorites" \/ is_Some (Store.playlists st !! n)
  end.

(** What the user can do to the store: click a tab (Playlist.jsx 46), or
    call any other action (NowPlaying, Playlist, Auth, Callback, App);
    [setCurrentPlaylist] is only called by [handleTabChange]. *)
Inductive ui_action : Type :=
  | ActTab (value : string)
  | ActStore (o : Store.op).

Definition ui_allowed (a : ui_action) (st : Store.State) : Prop :=
  match a with
  | ActTab v => v ∈ tab_values st
  | ActStore (Store.OpSetCurrentPlaylist _) => False
  | ActStore _ => True
  end.

Definition ui_step (a : ui_action) (st : Store.State) : js_result Store.State :=
  match a with
  | ActTab v => JsOk (handleTabChange v st)
  | ActStore o => Store.run o st
  end.

Inductive ui_reachable : Store.State -> Prop :=
  | ui_reachable_initial : ui_reachable Store.initial
  | ui_reachable_step a st st' :
      ui_reachable st -> ui_allowed a st -> ui_step a st = JsOk st' -> ui_reachable st'.

End PlaylistView.

(** * Properties of the views *)

Module ViewFacts.
Import NowPlaying PlaylistView.

(** ** Helper lemmas *)

Lemma tab_values_ok v st : v ∈ tab_values st -> selection_ok (handleTabChange v st).
Proof.
  unfold handleTabChange, selection_ok, tab_values. simpl.
  case_bool_decide; simpl; [done|]. intros Hv.
  apply elem_of_cons in Hv as [->|Hv]; [done|].
  apply elem_of_cons in Hv as [->|Hv]; [by left|]. right.
  apply list_elem_of_fmap in Hv as ([k x] & -> & Hkx). simpl.
  apply elem_of_map_to_list in Hkx. by exists x.
Qed.

Lemma ui_step_keeps_selection_ok a st st' :
  selection_ok st -> ui_allowed a st -> ui_step a st = JsOk st' -> selection_ok st'.
Proof.
  intros Hok Ha Hstep. destruct a as [v|o]; simpl in *.
  - simplify_eq. by apply tab_values_ok.
  - pose proof (Store.run_keeps_currentPlaylist o st st' Hstep) as Hc.
    pose proof (fun n => Store.run_keeps_playlist_keys o st st' n) as Hkeys.
    destruct o; try contradiction;
      try (unfold selection_ok in *; rewrite Hc;
           destruct (Store.currentPlaylist st); [|done];
           destruct Hok as [?|?]; [by left | right; by apply Hkeys]).
    + simpl in Hstep. simplify_eq. unfold selection_ok. simpl. right.
      by rewrite lookup_insert_eq.
    + simpl in Hstep. unfold Store.logout in Hstep. case_match; simplify_eq. done.
Qed.

(** ** Properties *)

(** The favourite button does nothing for a preview-less track when
    another preview-less track is a favourite: NowPlaying decides
    [isFavorite] by [uri] and calls [addToFavorites], which tests [src]
    (null for both) and ignores the track. *)
Lemma handleFavoriteToggle_null_src_noop st t x :
  src t = None -> x ∈ Store.favorites st -> src x = None ->
  Forall (fun f => uri f <> uri t) (Store.favorites st) ->
  isFavorite st (Some t) = false /\ handleFavoriteToggle (Some t) st = st.
Proof.
  intros Ht Hx Hxs Hnot.
  assert (Hf : isFavorite st (Some t) = false).
  { simpl. unfold js_some. destruct (existsb _ _) eqn:E; [|done].
    apply existsb_exists in E as (f & Hin%list_elem_of_In & Hf).
    apply bool_decide_eq_true in Hf. exfalso. exact (proj1 (Forall_forall _ _) Hnot f Hin Hf). }
  split; [done|]. unfold handleFavoriteToggle. rewrite Hf.
  apply Store.addToFavorites_null_src_ignored; eauto.
Qed.

(** C15: a playlist named "favorites" is created and filled, but the
    Playlist view then shows the favourites, not that playlist: the
    name is compared with the reserved value "favorites" first. *)
Theorem favorites_playlist_shadowed t st ts :
  exists st', handleAddToPlaylist (Some t) "favorites" None st = JsOk (st', "") /\
    Store.playlists st' !! "favorites" = Some [t] /\
    Store.currentPlaylist st' = Some "favorites" /\
    displayTracks st' ts = Some (Store.favorites st).
Proof.
  unfold handleAddToPlaylist. replace (js_trim "favorites") with "favorites" by reflexivity.
  simpl. unfold Store.addToPlaylist, Store.get_playlist. simpl.
  rewrite lookup_insert_eq. simpl. eexists. split; [done|].
  simpl. rewrite lookup_insert_eq. split; [done|]. split; [done|].
  reflexivity.
Qed.

(** C12: in every store state the views can reach, the list Playlist.jsx
    shows is the list App's [playTrack] indexes, so the index of a
    clicked row designates the clicked track. *)
Theorem ui_display_is_playTrack_list st s :
  ui_reachable st -> displayTracks st (Playback.tracks s) = Playback.tracksToPlay st s.
Proof.
  intros Hr. assert (Hok : selection_ok st).
  { induction Hr; [done|]. eauto using ui_step_keeps_selection_ok. }
  unfold displayTracks, Playback.tracksToPlay, selection_ok, Store.get_playlist in *.
  destruct (Store.currentPlaylist st) as [n|]; [|done].
  destruct Hok as [->|[ts Hts]]; [done|]. by rewrite Hts.
Qed.

(** ** Witnesses *)

Lemma ui_display_is_playTrack_list_witness :
  ui_reachable (handleTabChange "mix" (Store.createPlaylist "mix" Store.initial)) /\
  displayTracks (handleTabChange "mix" (Store.createPlaylist "mix" Store.initial))
    (Playback.tracks (Playback.sample_state [track_A; track_B] 0 None))
  = Playback.tracksToPlay (handleTabChange "mix" (Store.createPlaylist "mix" Store.initial))
      (Playback.sample_state [track_A; track_B] 0 None).
Proof.
  assert (H1 : ui_reachable (Store.createPlaylist "mix" Store.initial))
    by (apply (ui_reachable_step (ActStore (Store.OpCreatePlaylist "mix")) Store.initial);
        [constructor | exact I | reflexivity]).
  assert (H2 : ui_reachable (handleTabChange "mix" (Store.createPlaylist "mix" Store.initial))).
  { apply (ui_reachable_step (ActTab "mix") (Store.createPlaylist "mix" Store.initial));
      [exact H1 | | reflexivity].
    simpl. apply (bool_decide_unpack _); vm_compute; reflexivity. }
  split; [exact H2 |]. apply ui_display_is_playTrack_list. exact H2.
Defined.

End ViewFacts.
