(* ===== verification/NowPlayingUi.v ===== *)
(** * NowPlaying's controls and its playlist-name input

    What NowPlaying.jsx 78-185 renders from its props, the store and its
    own state [playlistName] (line 10): the texts, which buttons are
    disabled, and the "Add to {name}" buttons, one per key of
    [playlists]; and what a click or a keystroke does, through the
    handlers of Views.v.  A disabled button cannot be clicked, so an
    event happens only when its control is enabled ([enabled]). *)

From S2P Require Import Prelude Track Store Playback Views.

Module NowPlayingUi.
Import NowPlaying.

(** The component's own state, with the store it reads. *)
Record Ui := {
  playlistName : string;
  store : Store.State
}.

(** NowPlaying.jsx 10: [useState("")] *)
Definition init (st : Store.State) : Ui := {| playlistName := ""; store := st |}.

Definition default_image : string := "/music-notes-background-illustration-ai-generative-free-photo.jpg".

(** [a || b] on strings. *)
Definition or_else (a : option string) (b : string) : string :=
  match a with Some s => if truthy_str (Some s) then s else b | None => b end.

Record View := {
  image_src : string;
  heading : string;
  subheading : string;
  play_label : string;
  favorite_label : string;
  prev_disabled : bool;
  play_disabled : bool;
  next_disabled : bool;
  favorite_disabled : bool;
  input_value : string;
  input_disabled : bool;
  add_disabled : bool;
  add_to_buttons : gset string
}.

(** NowPlaying.jsx 78-185 *)
Definition render (p : Props) (u : Ui) : View :=
  let t := track p in
  let no_track := negb (bool_decide (is_Some t)) in
  {| image_src := or_else (image <$> t) default_image;
     heading := or_else (title <$> t) "No Track Selected";
     subheading := or_else (artist <$> t) "Unknown Artist";
     play_label := if isPlaying p then "Pause" else "Play";
     favorite_label := if isFavorite (store u) t then "Remove from Favorites" else "Add to Favorites";
     prev_disabled := no_track;
     play_disabled := negb (truthy_str (t ≫= uri));
     next_disabled := no_track;
     favorite_disabled := no_track;
     input_value := playlistName u;
     input_disabled := no_track;
     add_disabled := no_track || negb (truthy_str (Some (js_trim (playlistName u))));
     add_to_buttons := dom (Store.playlists (store u)) |}.

Inductive ev : Type :=
  | Type_ (value : string)
  | ClickAdd
  | ClickAddTo (name : string)
  | ClickFavorite.

(** The control the event comes from is rendered and enabled. *)
Definition enabled (p : Props) (u : Ui) (e : ev) : bool :=
  let v := render p u in
  match e with
  | Type_ _ => negb (input_disabled v)
  | ClickAdd => negb (add_disabled v)
  | ClickAddTo n => bool_decide (is_Some (track p)) && bool_decide (n ∈ add_to_buttons v)
  | ClickFavorite => negb (favorite_disabled v)
  end.

(** NowPlaying.jsx 155 ([setPlaylistName(e.target.value)]), 161
    ([handleAddToPlaylist()]), 172 ([handleAddToPlaylist(name)]) and 139
    ([handleFavoriteToggle]). *)
Definition step (p : Props) (e : ev) (u : Ui) : js_result Ui :=
  match e with
  | Type_ v => JsOk {| playlistName := v; store := store u |}
  | ClickAdd =>
      js_map (fun r => {| playlistName := r.2; store := r.1 |})
             (handleAddToPlaylist (track p) (playlistName u) None (store u))
  | ClickAddTo n =>
      js_map (fun r => {| playlistName := r.2; store := r.1 |})
             (handleAddToPlaylist (track p) (playlistName u) (Some n) (store u))
  | ClickFavorite => JsOk {| playlistName := playlistName u; store := handleFavoriteToggle (track p) (store u) |}
  end.

(** A playlist "mix" holding track A, the input holding " mix ", and
    track B on screen. *)
Definition sample_ui : Ui :=
  {| playlistName := " mix "; store := Store.with_playlists (<["mix" := [track_A]]> ∅) Store.initial |}.
Definition sample_props : Props := {| track := Some track_B; isPlaying := false; player := None |}.

End NowPlayingUi.

Module NowPlayingUiFacts.
Import NowPlaying NowPlayingUi.

(** ** Helper lemmas *)

Lemma addToPlaylist_own t n ts st :
  Store.playlists st !! n = Some ts ->
  Store.addToPlaylist t n st = JsOk (Store.with_playlists (<[n := ts ++ [t]]> (Store.playlists st)) st).
Proof. intros H. unfold Store.addToPlaylist, Store.get_playlist. by rewrite H. Qed.

Lemma addToPlaylist_created t n st :
  Store.addToPlaylist t n (Store.createPlaylist n st) =
  JsOk (Store.with_playlists (<[n := [t]]> (Store.playlists (Store.createPlaylist n st))) (Store.createPlaylist n st)).
Proof.
  rewrite (addToPlaylist_own t n []); [done|]. unfold Store.createPlaylist. simpl. apply lookup_insert_eq.
Qed.

(** The "Add" path of [handleAddToPlaylist]: with a track and a
    non-blank input it creates the playlist, adds the track and clears
    the input; otherwise it does nothing. *)
Lemma handleAdd_input t name ex st :
  truthy_str ex = false ->
  handleAddToPlaylist (Some t) name ex st =
  if truthy_str (Some (js_trim name))
  then JsOk (Store.with_playlists (<[js_trim name := [t]]> (Store.playlists (Store.createPlaylist (js_trim name) st)))
               (Store.createPlaylist (js_trim name) st), "")
  else JsOk (st, name).
Proof.
  intros Hex. unfold handleAddToPlaylist. rewrite Hex. simpl. by rewrite addToPlaylist_created.
Qed.

Lemma handleAdd_input_ok t name ex st :
  truthy_str ex = false -> exists r, handleAddToPlaylist (Some t) name ex st = JsOk r.
Proof. intros Hex. rewrite handleAdd_input by done. destruct (truthy_str (Some (js_trim name))); eauto. Qed.

(** ** Theorems *)

(** C16: NowPlaying's controls never throw: whatever the store holds
    (inherited names and all), every keystroke and every click on an
    enabled control completes.  The "Add to {name}" buttons are the own
    keys of [playlists], and the "Add" button creates its playlist
    before adding to it, so [addToPlaylist] never meets an inherited
    member from this view. *)
Theorem nowplaying_controls_never_throw p u e :
  enabled p u e = true -> exists u', step p e u = JsOk u'.
Proof.
  unfold enabled, step. destruct e as [v| |n|]; intros He; [eauto | | |eauto].
  - simpl in He. destruct (track p) as [t|]; [|discriminate].
    destruct (handleAdd_input_ok t (playlistName u) None (store u) eq_refl) as [r ->]. eauto.
  - simpl in He. apply andb_prop in He as [Ht He]. destruct (track p) as [t|]; [|discriminate].
    apply bool_decide_eq_true, elem_of_dom in He as [ts Hts].
    unfold handleAddToPlaylist. destruct (truthy_str (Some n)) eqn:Hn.
    + rewrite (addToPlaylist_own _ _ ts) by done. eauto.
    + destruct (handleAdd_input_ok t (playlistName u) (Some n) (store u) Hn) as [r Hr].
      unfold handleAddToPlaylist in Hr. rewrite Hn in Hr. rewrite Hr. eauto.
Qed.

(** C17: typing the name of an existing playlist and clicking "Add"
    throws its tracks away: [createPlaylist] writes an empty array at
    the name before the track is added, so the playlist becomes the one
    track (and the selected list), while the "Add to {name}" button of
    the same playlist appends to it. *)
Theorem add_input_replaces_playlist p u t ts :
  track p = Some t -> truthy_str (Some (js_trim (playlistName u))) = true ->
  Store.playlists (store u) !! js_trim (playlistName u) = Some ts ->
  enabled p u ClickAdd = true /\ enabled p u (ClickAddTo (js_trim (playlistName u))) = true /\
  (exists u', step p ClickAdd u = JsOk u' /\
     Store.playlists (store u') !! js_trim (playlistName u) = Some [t] /\
     Store.currentPlaylist (store u') = Some (js_trim (playlistName u)) /\ playlistName u' = "") /\
  (exists u', step p (ClickAddTo (js_trim (playlistName u))) u = JsOk u' /\
     Store.playlists (store u') !! js_trim (playlistName u) = Some (ts ++ [t])).
Proof.
  intros Ht Htr Hts. split; [|split; [|split]].
  - unfold enabled, render. cbn [add_disabled]. by rewrite Ht, Htr.
  - unfold enabled, render. cbn [add_to_buttons]. rewrite Ht.
    apply bool_decide_eq_true, elem_of_dom. eauto.
  - unfold step. rewrite Ht, handleAdd_input, Htr by done. simpl.
    eexists. split; [done|]. simpl. by rewrite lookup_insert_eq.
  - unfold step, handleAddToPlaylist. rewrite Ht, Htr, (addToPlaylist_own _ _ ts) by done. simpl.
    eexists. split; [done|]. simpl. apply lookup_insert_eq.
Qed.

Lemma nowplaying_controls_never_throw_witness :
  exists u', step sample_props (ClickAddTo "mix") sample_ui = JsOk u'.
Proof. apply nowplaying_controls_never_throw. vm_compute. reflexivity. Defined.

Lemma add_input_replaces_playlist_witness :
  exists u', step sample_props ClickAdd sample_ui = JsOk u' /\
    Store.playlists (store u') !! "mix" = Some [track_B].
Proof.
  destruct (add_input_replaces_playlist sample_props sample_ui track_B [track_A] eq_refl eq_refl eq_refl)
    as (_ & _ & (u' & H1 & H2 & _) & _).
  exists u'. split; [exact H1 | exact H2].
Defined.

End NowPlayingUiFacts.
