(* ===== verification/PlaylistUi.v ===== *)
(** * The rows, tabs and buttons of Playlist.jsx

    What Playlist.jsx 39-121 renders from the store and App's [tracks]:
    the tab triggers, the message of an empty list and one row per
    track of [displayTracks] (its number, picture, title, artist,
    duration, play button and, inside a playlist, remove button); and
    what a click on a tab or on a row's buttons does.  A row's buttons
    exist only on rendered rows, and a disabled play button cannot be
    clicked ([enabled]). *)

From S2P Require Import Prelude Track Store Playback Views.

Module PlaylistUi.
Import PlaylistView.

Definition default_image : string := "/music-notes-background-illustration-ai-generative-free-photo.jpg".

Record Row := {
  number : nat;
  row_image : string;
  row_title : string;
  row_artist : string;
  row_duration : string;
  play_disabled : bool;
  play_title : string;
  remove_shown : bool
}.

(** Playlist.jsx 102: inside a playlist other than the favourites. *)
Definition in_playlist (st : Store.State) : bool :=
  truthy_str (Store.currentPlaylist st) && negb (bool_decide (Store.currentPlaylist st = Some "favorites")).

(** Playlist.jsx 74-113, the row of [track] at [index].  The tracks
    fetchTracks builds have no [duration_ms], so the duration cell is
    "-". *)
Definition row (st : Store.State) (index : nat) (t : Track) : Row := {|
  number := S index;
  row_image := if truthy_str (Some (image t)) then image t else default_image;
  row_title := title t;
  row_artist := artist t;
  row_duration := "-";
  play_disabled := negb (truthy_str (uri t));
  play_title := if truthy_str (uri t) then "Play track" else "Track not available";
  remove_shown := in_playlist st
|}.

Record View := {
  tabs : list string;
  active : string;
  empty_message : bool;
  rows : list Row
}.

(** Playlist.jsx 39-121: [displayTracks.map] throws on an inherited
    member of [playlists]. *)
Definition render (st : Store.State) (tracks : list Track) : js_result View :=
  match displayTracks st tracks with
  | None => JsThrow (TypeError "displayTracks.map is not a function")
  | Some l => JsOk {| tabs := tab_values st; active := activeTab st;
                      empty_message := bool_decide (l = []); rows := imap (row st) l |}
  end.

Inductive ev : Type :=
  | ClickTab (value : string)
  | ClickPlay (index : nat)
  | ClickRemove (index : nat).

Definition enabled (st : Store.State) (tracks : list Track) (e : ev) : bool :=
  match e, displayTracks st tracks with
  | ClickTab v, _ => bool_decide (v ∈ tab_values st)
  | ClickPlay i, Some l => match l !! i with Some t => truthy_str (uri t) | None => false end
  | ClickRemove i, Some l => bool_decide (is_Some (l !! i)) && in_playlist st
  | _, None => false
  end.

(** Playlist.jsx 46 ([onValueChange={handleTabChange}]), 96
    ([track.uri && playTrack(index)]) and 106
    ([removeFromPlaylist(track, currentPlaylist)]): the new store and the
    index handed to App's [playTrack], if any. *)
Definition step (st : Store.State) (tracks : list Track) (e : ev) : js_result (Store.State * option Z) :=
  match e with
  | ClickTab v => JsOk (handleTabChange v st, None)
  | ClickPlay i =>
      match displayTracks st tracks ≫= (fun l => l !! i) with
      | Some t => JsOk (st, onPlayClick t i)
      | None => JsOk (st, None)
      end
  | ClickRemove i =>
      match displayTracks st tracks ≫= (fun l => l !! i), Store.currentPlaylist st with
      | Some t, Some n => js_map (fun st' => (st', None)) (Store.removeFromPlaylist t n st)
      | _, _ => JsOk (st, None)
      end
  end.

(** A playlist "mix" of the two preview-less tracks C and D, selected. *)
Definition sample_store : Store.State :=
  Store.with_currentPlaylist (Some "mix")
    (Store.with_playlists (<["mix" := [track_C; track_D]]> ∅) Store.initial).

End PlaylistUi.

Module PlaylistUiFacts.
Import NowPlaying PlaylistView PlaylistUi.

(** ** Helper lemmas *)

Lemma filter_null_src (l : list Track) (t : Track) :
  src t = None ->
  List.filter (fun x => negb (same_src x t)) l = List.filter (fun x => bool_decide (is_Some (src x))) l.
Proof.
  intros Ht. apply filter_ext. intros x. unfold same_src. rewrite Ht.
  destruct (src x); simpl; rewrite ?bool_decide_eq_true_2, ?bool_decide_eq_false_2 by (done || eauto); done.
Qed.

(** ** Theorems *)

(** C14: tracks without a preview all have [src] null, and the store
    keys tracks by [src]: the favourite button does nothing for a
    preview-less track when another preview-less track is a favourite
    (NowPlaying decides [isFavorite] by [uri], [addToFavorites] tests
    [src]), and the remove button of one preview-less row of a
    playlist removes every preview-less track of that playlist. *)
Theorem null_src_tracks_collide :
  (forall st t x, src t = None -> x ∈ Store.favorites st -> src x = None ->
     Forall (fun f => uri f <> uri t) (Store.favorites st) ->
     isFavorite st (Some t) = false /\ handleFavoriteToggle (Some t) st = st) /\
  (forall st ts n l i t, Store.currentPlaylist st = Some n -> n <> "favorites" -> n <> "" ->
     Store.playlists st !! n = Some l -> l !! i = Some t -> src t = None ->
     enabled st ts (ClickRemove i) = true /\
     exists st', step st ts (ClickRemove i) = JsOk (st', None) /\
       Store.playlists st' !! n = Some (List.filter (fun x => bool_decide (is_Some (src x))) l)).
Proof.
  split; [intros st t x; apply ViewFacts.handleFavoriteToggle_null_src_noop|].
  intros st ts n l i t Hc Hf He Hl Hi Ht.
  assert (Hd : displayTracks st ts = Some l).
  { unfold displayTracks. rewrite Hc, bool_decide_eq_false_2 by congruence.
    unfold Store.get_playlist. rewrite Hl. simpl. by rewrite bool_decide_eq_false_2. }
  assert (Hin : in_playlist st = true).
  { unfold in_playlist. rewrite Hc, bool_decide_eq_false_2 by congruence. simpl.
    by rewrite bool_decide_eq_false_2. }
  split.
  - unfold enabled. rewrite Hd, Hin, bool_decide_eq_true_2; [done | by rewrite Hi].
  - unfold step. rewrite Hd. simpl. rewrite Hi, Hc.
    unfold Store.removeFromPlaylist, Store.get_playlist. rewrite Hl. simpl.
    eexists. split; [done|]. simpl. rewrite lookup_insert_eq. by rewrite filter_null_src.
Qed.

Lemma null_src_tracks_collide_witness :
  exists st', step sample_store [] (ClickRemove 0) = JsOk (st', None) /\
    Store.playlists st' !! "mix" = Some [].
Proof.
  destruct (proj2 null_src_tracks_collide sample_store [] "mix" [track_C; track_D] 0 track_C
              eq_refl ltac:(discriminate) ltac:(discriminate) eq_refl eq_refl eq_refl) as [_ (st' & H1 & H2)].
  exists st'. split; [exact H1 | exact H2].
Defined.

End PlaylistUiFacts.
