(* ===== verification/Boundary.v ===== *)
(** * The error boundary around the main page

    Module [ErrorBoundary] translates src/src/components/ErrorBoundary.jsx:
    its state [hasError], [getDerivedStateFromError], the "Try again"
    button and [render] (the fallback card or the children).  Module
    [Page] puts it where App.jsx 202-271 does, around the page whose
    Playlist view maps over [displayTracks] (Playlist.jsx 16-20 and 74):
    a render of the children that throws switches the boundary to the
    fallback.  Errors thrown by event handlers (the store's
    [removeFromPlaylist], [addToPlaylist], App's [playTrack]) are not
    render errors: React does not route them to a boundary, and the
    handler's update is dropped ([ui_step] returns [JsThrow]).  NowPlaying
    reads the track through [track?.] everywhere, so its render does not
    throw and is not part of the page's failure modes. *)

From S2P Require Import Prelude Track Store Playback Views.

Module ErrorBoundary.

(** ErrorBoundary.jsx 9 *)
Record State := { hasError : bool }.

Definition initial : State := {| hasError := false |}.

(** ErrorBoundary.jsx 12-14 *)
Definition getDerivedStateFromError (error : js_error) (b : State) : State :=
  {| hasError := true |}.

(** ErrorBoundary.jsx 36: the "Try again" button. *)
Definition tryAgain (b : State) : State := {| hasError := false |}.

Inductive view : Type :=
  | Fallback
  | Children.

(** ErrorBoundary.jsx 20-47 *)
Definition render (b : State) : view := if hasError b then Fallback else Children.

End ErrorBoundary.

Module Page.
Import PlaylistView.

Record State := {
  boundary : ErrorBoundary.State;
  store : Store.State;
  tracks : list Track
}.

(** Playlist.jsx 16-20 and 74: [displayTracks.map(...)] throws when
    [displayTracks] is not an array (an inherited member such as
    [playlists["toString"]] is a function). *)
Definition render_playlist (st : Store.State) (ts : list Track) : js_result (list Track) :=
  match displayTracks st ts with
  | Some l => JsOk l
  | None => JsThrow (TypeError "displayTracks.map is not a function")
  end.

(** A render of App.jsx 202-271: with the boundary closed, a child
    that throws opens it.  The Playlist is rendered here in every state,
    while App renders it only on the tabs page with the Playlist tab
    open: an over-approximation of the renders that can throw. *)
Definition rerender (p : State) : State :=
  if ErrorBoundary.hasError (boundary p) then p
  else match render_playlist (store p) (tracks p) with
       | JsOk _ => p
       | JsThrow e => {| boundary := ErrorBoundary.getDerivedStateFromError e (boundary p);
                         store := store p; tracks := tracks p |}
       end.

Inductive ev : Type :=
  | EvUi (a : ui_action)
  | EvTryAgain
  | EvTracks (ts : list Track).

Definition step (e : ev) (p : State) : State :=
  rerender
    match e with
    | EvUi a =>
        match ui_step a (store p) with
        | JsOk st' => {| boundary := boundary p; store := st'; tracks := tracks p |}
        | JsThrow _ => p
        end
    | EvTryAgain => {| boundary := ErrorBoundary.tryAgain (boundary p); store := store p;
                       tracks := tracks p |}
    | EvTracks ts => {| boundary := boundary p; store := store p; tracks := ts |}
    end.

Definition initial : State :=
  rerender {| boundary := ErrorBoundary.initial; store := Store.initial; tracks := [] |}.

Inductive reachable : State -> Prop :=
  | reach_init : reachable initial
  | reach_step e p :
      reachable p -> (forall a, e = EvUi a -> ui_allowed a (store p)) -> reachable (step e p).

End Page.

Module BoundaryFacts.
Import PlaylistView.

Lemma selection_ok_render st ts :
  selection_ok st -> exists l, Page.render_playlist st ts = JsOk l.
Proof.
  unfold selection_ok, Page.render_playlist, displayTracks, Store.get_playlist.
  destruct (Store.currentPlaylist st) as [n|]; [|intros _; eauto].
  intros [->|[l Hl]]; [eauto|].
  case_bool_decide; [eauto|]. destruct (truthy_str (Some n)); [|eauto]. rewrite Hl. eauto.
Qed.

Lemma rerender_closed p :
  selection_ok (Page.store p) -> Page.rerender p = p.
Proof.
  intros Hs. unfold Page.rerender. destruct (ErrorBoundary.hasError _); [done|].
  by destruct (selection_ok_render _ (Page.tracks p) Hs) as [l ->].
Qed.

(** In every state of the page reachable through the views, the
    Playlist view renders an array and the boundary shows the
    children. *)
Lemma page_inv p :
  Page.reachable p -> selection_ok (Page.store p) /\ ErrorBoundary.hasError (Page.boundary p) = false.
Proof.
  induction 1 as [|e p _ [Hs Hb] Ha].
  - unfold Page.initial. rewrite rerender_closed by done. done.
  - unfold Page.step. destruct e as [a| |ts].
    + destruct (ui_step a (Page.store p)) as [st'|] eqn:E.
      * assert (Hs' : selection_ok st') by (eapply ViewFacts.ui_step_keeps_selection_ok; eauto).
        by rewrite rerender_closed.
      * by rewrite rerender_closed.
    + by rewrite rerender_closed.
    + by rewrite rerender_closed.
Qed.

End BoundaryFacts.
