(* ===== verification/Auth.v ===== *)
(** * Tokens and login: api/spotify.js, Callback.jsx and Auth.jsx

    [SpotifyApi.getTokenFromHash] is the parser of the OAuth redirect
    fragment (src/src/api/spotify.js 13-24) over the JavaScript
    semantics of [String.prototype.split] with a one-character
    separator, of array destructuring ([const [key, value]]: [value] is
    [undefined] when the item has no "=") and of assignment to a plain
    object ([acc["__proto__"] = string] is ignored by the [__proto__]
    setter).  [CallbackPage.effect] is the effect of Callback.jsx and
    [AuthForm] the component of Auth.jsx: its state, its handlers as
    events of a state machine with the store and the request in flight,
    the cards it renders, and the constraint validation the browser
    applies to its inputs before [submit]; the store actions it awaits
    are those of [Store]. *)

From Stdlib Require Import Ascii.
From S2P Require Import Prelude Track Store.

Module SpotifyApi.

(** [s.split(sep)] for a one-character separator. *)
Fixpoint js_split (sep : Ascii.ascii) (s : string) : list string :=
  match s with
  | EmptyString => [""]
  | String c s' =>
      if bool_decide (c = sep) then "" :: js_split sep s'
      else match js_split sep s' with
           | w :: ws => String c w :: ws
           | [] => [String c ""]
           end
  end.

(** [s.substring(1)] *)
Definition substring1 (s : string) : string :=
  match s with String _ s' => s' | EmptyString => EmptyString end.

(** The object [acc] of the reduction: own properties to values, where a
    value is a string or [undefined]. *)
Abbreviation hash_object := (gmap string (option string)).

(** [acc[key] = value] *)
Definition js_assign (acc : hash_object) (key : string) (value : option string) : hash_object :=
  if bool_decide (key = "__proto__") then acc else <[key := value]> acc.

(** The callback of [reduce]: [const [key, value] = item.split("=")]. *)
Definition add_item (acc : hash_object) (item : string) : hash_object :=
  match js_split "=" item with
  | key :: rest => js_assign acc key (head rest)
  | [] => js_assign acc "undefined" None
  end.

(** spotify.js 13-24: the token and the new value of
    [window.location.hash] (set to ""). *)
Definition getTokenFromHash (location_hash : string) : option string * string :=
  let hash := foldl add_item ∅ (js_split "&" (substring1 location_hash)) in
  (match hash !! "access_token" with Some v => v | None => None end, "").

End SpotifyApi.

Module CallbackPage.

(** Callback.jsx 11-17: the token is stored, and the page navigates to
    "/", only when it is truthy.  Returns the store, the new hash and
    whether [navigate("/")] was called. *)
Definition effect (location_hash : string) (st : Store.State) : Store.State * string * bool :=
  let '(token, hash') := SpotifyApi.getTokenFromHash location_hash in
  if truthy_str token then (Store.setSpotifyToken token st, hash', true)
  else (st, hash', false).

End CallbackPage.

(** [user?.email] of Auth.jsx 56. *)
Definition user_email (u : User) : option string := email u.

Module AuthForm.

(** The state of [Auth] (Auth.jsx 11-15). *)
Record State := {
  email : string;
  password : string;
  isSignup : bool;
  error : option string;
  loading : bool
}.

(** Auth.jsx 20-22: [handleSubmit] up to its [await]. *)
Definition handleSubmit_start (f : State) : State :=
  {| email := email f; password := password f; isSignup := isSignup f;
     error := None; loading := true |}.

(** [err.message || 'Authentication failed. Please try again.'] *)
Definition error_message (e : js_error) : string :=
  match e with
  | ServiceError m => if truthy_str (Some m) then m else "Authentication failed. Please try again."
  | TypeError m => if truthy_str (Some m) then m else "Authentication failed. Please try again."
  end.

(** Auth.jsx 24-36: the rest of [handleSubmit], given the outcome of the
    store action it awaited ([signup] or [login]). *)
Definition handleSubmit_done (outcome : js_result Store.State) (f : State) : State :=
  match outcome with
  | JsOk _ =>
      {| email := ""; password := ""; isSignup := isSignup f; error := error f;
         loading := false |}
  | JsThrow e =>
      {| email := email f; password := password f; isSignup := isSignup f;
         error := Some (error_message e); loading := false |}
  end.

(** The store action the form awaits (Auth.jsx 25-29), given the answer
    of Supabase to [signUp] or to [signInWithPassword]. *)
Definition submit_action (f : State) (signUp : js_result (option User))
    (signIn : js_result User) (st : Store.State) : js_result Store.State :=
  if isSignup f then Store.signup signUp st else Store.login signIn st.

(** ** The browser's constraint validation of the two inputs

    Auth.jsx 82-102 declares the email input [type="email"] and
    [required], the password input [required] and [minLength={6}]; the
    browser does not fire [submit] while an input is invalid (HTML
    Living Standard, "constraint validation" and "valid email
    address").  [minLength] counts UTF-16 code units, one per character
    of [string] here. *)

Definition in_range (lo hi : nat) (c : ascii) : bool :=
  Nat.leb lo (nat_of_ascii c) && Nat.leb (nat_of_ascii c) hi.

(** [[a-zA-Z0-9]] *)
Definition is_alnum (c : ascii) : bool := in_range 48 57 c || in_range 65 90 c || in_range 97 122 c.

(** The characters of the local part: [[a-zA-Z0-9.!#$%&'*+/=?^_`{|}~-]]. *)
Definition is_atext (c : ascii) : bool := is_alnum c || has_char c ".!#$%&'*+/=?^_`{|}~-".

Fixpoint all_chars (p : ascii -> bool) (s : string) : bool :=
  match s with EmptyString => true | String c s' => p c && all_chars p s' end.

Fixpoint last_char (s : string) : option ascii :=
  match s with
  | EmptyString => None
  | String c EmptyString => Some c
  | String _ s' => last_char s'
  end.

(** A label of the domain: [[a-zA-Z0-9]([a-zA-Z0-9-]{0,61}[a-zA-Z0-9])?]. *)
Definition valid_label (l : string) : bool :=
  match l, last_char l with
  | String c _, Some d =>
      is_alnum c && is_alnum d && Nat.leb (String.length l) 63 &&
      all_chars (fun x => is_alnum x || bool_decide (x = "-"%char)) l
  | _, _ => false
  end.

(** A valid email address: a non-empty local part, one "@", and labels
    separated by ".". *)
Definition valid_email (v : string) : bool :=
  match SpotifyApi.js_split "@" v with
  | [l; d] => negb (bool_decide (l = "")) && all_chars is_atext l &&
              forallb valid_label (SpotifyApi.js_split "." d)
  | _ => false
  end.

(** [required] and [type="email"]: neither [valueMissing] nor
    [typeMismatch]. *)
Definition email_valid (v : string) : bool := negb (bool_decide (v = "")) && valid_email v.

(** [required] and [minLength={6}]: neither [valueMissing] nor
    [tooShort] (a value the user typed). *)
Definition password_valid (v : string) : bool := negb (bool_decide (v = "")) && Nat.leb 6 (String.length v).

Definition form_valid (f : State) : bool := email_valid (email f) && password_valid (password f).

(** ** The component with the store

    The form together with the store and the request in flight: whether
    the submitted [handleSubmit] closed over [isSignup], and the email
    and password it passed to [signup] or [login]. *)
Record Sys := {
  form : State;
  store : Store.State;
  request : option (bool * string * string)
}.

Inductive ev : Type :=
  | SetEmail (v : string)
  | SetPassword (v : string)
  | ToggleSignup
  | Submit
  | Answer (signUp : js_result (option User)) (signIn : js_result User)
  | ClickLogout (signOut : option string).

(** Auth.jsx 88, 99: the inputs' [onChange]; Auth.jsx 122: the link
    that switches between login and signup. *)
Definition with_form (f : State) (s : Sys) : Sys :=
  {| form := f; store := store s; request := request s |}.

Definition with_store (st : Store.State) (s : Sys) : Sys :=
  {| form := form s; store := st; request := request s |}.

(** Auth.jsx 39-51: the loading card; 53-70: the welcome card with its
    logout button; 72-127: the form.  The alert is [{error && ...}]:
    neither [null] nor [""] renders it.  A label [None] is the
    spinner. *)
Record FormView := {
  form_title : string;
  form_description : string;
  email_value : string;
  password_value : string;
  alert : option string;
  submit_label : option string;
  submit_disabled : bool;
  switch_label : string;
  switch_disabled : bool
}.

Inductive card : Type :=
  | CardLoading
  | CardWelcome (description : string) (logout_disabled : bool) (logout_label : option string)
  | CardForm (v : FormView).

Definition render (s : Sys) : card :=
  let f := form s in
  if Store.authLoading (store s) then CardLoading
  else if Store.isAuthenticated (store s) then
    CardWelcome ("You are logged in as " +:+ default "" (Store.user (store s) ≫= user_email))
                (loading f) (if loading f then None else Some "Logout")
  else CardForm {|
    form_title := if isSignup f then "Create an account" else "Login";
    form_description := if isSignup f then "Sign up to start listening" else "Login to access your music";
    email_value := email f;
    password_value := password f;
    alert := if truthy_str (error f) then error f else None;
    submit_label := if loading f then None else Some (if isSignup f then "Sign Up" else "Login");
    submit_disabled := loading f;
    switch_label := if isSignup f then "Already have an account? Login" else "Don't have an account? Sign Up";
    switch_disabled := loading f |}.

Definition on_form (s : Sys) : bool :=
  negb (Store.authLoading (store s)) && negb (Store.isAuthenticated (store s)).

(** The controls exist on the card rendered; the submit button and the
    switch are disabled while [loading] (Auth.jsx 110 and 122), and the
    browser submits only a valid form; the logout button (Auth.jsx
    60-64) is disabled while [loading]. *)
Definition allowedb (e : ev) (s : Sys) : bool :=
  match e with
  | SetEmail _ | SetPassword _ => on_form s
  | ToggleSignup => on_form s && negb (loading (form s))
  | Submit => on_form s && negb (loading (form s)) && form_valid (form s)
  | Answer _ _ => bool_decide (is_Some (request s))
  | ClickLogout _ =>
      negb (Store.authLoading (store s)) && Store.isAuthenticated (store s) && negb (loading (form s))
  end.

(** [onClick={logout}]: the store's [logout] runs with Supabase's answer
    to [signOut]; its rejection is not caught and changes nothing. *)
Definition step (e : ev) (s : Sys) : Sys :=
  let f := form s in
  match e with
  | SetEmail v => with_form {| email := v; password := password f; isSignup := isSignup f;
                               error := error f; loading := loading f |} s
  | SetPassword v => with_form {| email := email f; password := v; isSignup := isSignup f;
                                  error := error f; loading := loading f |} s
  | ToggleSignup => with_form {| email := email f; password := password f;
                                 isSignup := negb (isSignup f); error := error f;
                                 loading := loading f |} s
  | Submit => {| form := handleSubmit_start f; store := store s;
                 request := Some (isSignup f, email f, password f) |}
  | Answer signUp signIn =>
      let outcome := match request s with
                     | Some (true, _, _) => Store.signup signUp (store s)
                     | _ => Store.login signIn (store s)
                     end in
      {| form := handleSubmit_done outcome f;
         store := match outcome with JsOk st' => st' | JsThrow _ => store s end;
         request := None |}
  | ClickLogout signOut =>
      match Store.logout signOut (store s) with
      | JsOk st' => with_store st' s
      | JsThrow _ => s
      end
  end.

Definition init (st : Store.State) : Sys :=
  {| form := {| email := ""; password := ""; isSignup := false; error := None; loading := false |};
     store := st; request := None |}.

Inductive reachable (st0 : Store.State) : Sys -> Prop :=
  | reach_init : reachable st0 (init st0)
  | reach_step e s : reachable st0 s -> allowedb e s = true -> reachable st0 (step e s).

Fixpoint run (evs : list ev) (s : Sys) : Sys :=
  match evs with [] => s | e :: es => run es (step e s) end.

Fixpoint trace_ok (evs : list ev) (s : Sys) : bool :=
  match evs with [] => true | e :: es => allowedb e s && trace_ok es (step e s) end.

(** What the card relies on: [error] is [null] or a non-empty message,
    and a request in flight carries the values the browser accepted. *)
Definition form_inv (s : Sys) : Prop :=
  (forall m, error (form s) = Some m -> m <> "") /\
  (forall su em pw, request s = Some (su, em, pw) ->
     valid_email em = true /\ (6 <= String.length pw)%nat).

(** Auth settled without a session: the user types an email and a
    password and submits the login form. *)
Definition settled : Store.State := Store.with_auth None false false Store.initial.
Definition trace_login : list ev :=
  [SetEmail "listener@example.com"; SetPassword "secret-123"; Submit].

End AuthForm.

(** * Properties *)

Module AuthFacts.
Import SpotifyApi.

(** The fragment an authorization server writes: [k1=v1&k2=v2&...]. *)

Definition enc_pair (p : string * string) : string := String.append p.1 (String "=" p.2).

Fixpoint join_amp (w : string) (ws : list string) : string :=
  match ws with
  | [] => w
  | w' :: ws' => String.append w (String "&" (join_amp w' ws'))
  end.

Definition encode_pairs (ps : list (string * string)) : string :=
  match ps with
  | [] => ""
  | p :: ps' => join_amp (enc_pair p) (map enc_pair ps')
  end.

(** A key or value of the fragment: no "&" and no "=". *)
Definition plain (s : string) : Prop := has_char "&" s = false /\ has_char "=" s = false.

(** The value of the last pair with key [k]. *)
Definition last_value (k : string) (ps : list (string * string)) : option string :=
  foldl (fun r p => if bool_decide (p.1 = k) then Some p.2 else r) None ps.

(** ** Helper lemmas *)

Lemma js_split_plain sep w : has_char sep w = false -> js_split sep w = [w].
Proof.
  induction w as [|c w IH]; simpl; [done|].
  intros [Hc Hw]%orb_false_iff. rewrite IH by done.
  rewrite bool_decide_eq_false_2; [done|]. intros ->. by rewrite bool_decide_eq_true_2 in Hc.
Qed.

Lemma js_split_append sep w r :
  has_char sep w = false -> js_split sep (String.append w (String sep r)) = w :: js_split sep r.
Proof.
  induction w as [|c w IH]; simpl.
  - intros _. by rewrite bool_decide_eq_true_2.
  - intros [Hc Hw]%orb_false_iff. rewrite IH by done.
    rewrite bool_decide_eq_false_2; [done|]. intros ->. by rewrite bool_decide_eq_true_2 in Hc.
Qed.

Lemma js_split_join w ws :
  has_char "&" w = false -> Forall (fun x => has_char "&" x = false) ws ->
  js_split "&" (join_amp w ws) = w :: ws.
Proof.
  revert w. induction ws as [|w' ws IH]; intros w Hw Hws; simpl; [by apply js_split_plain|].
  apply Forall_cons in Hws as [Hw' Hws]. rewrite js_split_append by done. by rewrite IH.
Qed.

Lemma add_item_pair acc p :
  plain p.1 -> plain p.2 -> add_item acc (enc_pair p) = js_assign acc p.1 (Some p.2).
Proof.
  intros [_ Hk] [_ Hv]. unfold add_item, enc_pair.
  rewrite js_split_append, js_split_plain by done. done.
Qed.

Lemma enc_pair_no_amp p : plain p.1 -> plain p.2 -> has_char "&" (enc_pair p) = false.
Proof. intros [Hk _] [Hv _]. unfold enc_pair. rewrite has_char_append. simpl. by rewrite Hk, Hv. Qed.

Lemma last_value_from k ps r :
  foldl (fun r p => if bool_decide (p.1 = k) then Some p.2 else r) r ps =
  match last_value k ps with Some v => Some v | None => r end.
Proof.
  unfold last_value.
  set (f := fun (r : option string) (p : string * string) =>
              if bool_decide (p.1 = k) then Some p.2 else r).
  revert r. induction ps as [|p ps IH]; intros r; simpl; [done|].
  rewrite (IH (f r p)), (IH (f None p)).
  destruct (foldl f None ps); [done|]. unfold f. by case_bool_decide.
Qed.

Lemma js_assign_lookup acc key v k :
  key <> "__proto__" ->
  js_assign acc key v !! k = if bool_decide (key = k) then Some v else acc !! k.
Proof.
  intros Hk. unfold js_assign. rewrite bool_decide_eq_false_2 by done.
  rewrite lookup_insert. by repeat case_decide; case_bool_decide.
Qed.

Lemma foldl_assign_lookup acc ps k :
  Forall (fun p => plain p.1 /\ plain p.2 /\ p.1 <> "__proto__") ps ->
  foldl add_item acc (map enc_pair ps) !! k =
    match last_value k ps with Some v => Some (Some v) | None => acc !! k end.
Proof.
  revert acc. induction ps as [|p ps IH]; intros acc Hps; [done|].
  apply Forall_cons in Hps as [(Hk & Hv & Hp) Hps]. simpl.
  rewrite IH by done. rewrite add_item_pair by done.
  unfold last_value at 2. simpl. rewrite last_value_from.
  destruct (last_value k ps); [done|].
  rewrite js_assign_lookup by done. by case_bool_decide.
Qed.

(** The parser reads back the last [access_token] of an encoded
    fragment, and clears the hash. *)
Lemma getTokenFromHash_encoded ps :
  Forall (fun p => plain p.1 /\ plain p.2 /\ p.1 <> "__proto__") ps ->
  getTokenFromHash (String "#" (encode_pairs ps)) = (last_value "access_token" ps, "").
Proof.
  destruct ps as [|p ps]; [reflexivity|]. intros Hps. unfold getTokenFromHash. simpl.
  pose proof Hps as Hall. apply Forall_cons in Hps as [(Hk & Hv & _) Hps].
  rewrite js_split_join.
  - change (enc_pair p :: map enc_pair ps) with (map enc_pair (p :: ps)).
    rewrite foldl_assign_lookup by done. by destruct (last_value _ _).
  - by apply enc_pair_no_amp.
  - apply Forall_fmap. eapply Forall_impl; [exact Hps|].
    intros q (Hq1 & Hq2 & _). by apply enc_pair_no_amp.
Qed.

Lemma form_trace_reachable st0 evs s :
  AuthForm.reachable st0 s -> AuthForm.trace_ok evs s = true -> AuthForm.reachable st0 (AuthForm.run evs s).
Proof.
  revert s. induction evs as [|e evs IH]; intros s Hs Ht; simpl in *; [done|].
  apply andb_true_iff in Ht as [He Ht]. apply IH; [by constructor | done].
Qed.

Lemma error_message_nonempty e : AuthForm.error_message e <> "".
Proof.
  destruct e as [m|m]; simpl; unfold truthy_str;
    case_bool_decide; simpl; [discriminate | done | discriminate | done].
Qed.

Lemma form_valid_request f :
  AuthForm.form_valid f = true ->
  AuthForm.valid_email (AuthForm.email f) = true /\ (6 <= String.length (AuthForm.password f))%nat.
Proof.
  unfold AuthForm.form_valid, AuthForm.email_valid, AuthForm.password_valid.
  intros [[_ He]%andb_true_iff [_ Hp]%andb_true_iff]%andb_true_iff. split; [done|]. by apply Nat.leb_le.
Qed.

Lemma step_form_inv e s :
  AuthForm.allowedb e s = true -> AuthForm.form_inv s -> AuthForm.form_inv (AuthForm.step e s).
Proof.
  intros Ha [He Hq]. destruct e as [v|v| | |r1 r2|r]; simpl in *.
  1-3: by split.
  - split; [done|]. intros su em pw [= <- <- <-].
    apply andb_true_iff in Ha as [_ Hv]. by apply form_valid_request.
  - split; [|done]. destruct (match AuthForm.request s with Some (true, _, _) => _ | _ => _ end); simpl;
      [exact He | intros m [= <-]; apply error_message_nonempty].
  - destruct (Store.logout r (AuthForm.store s)); by split.
Qed.

(** ** Properties *)

(** On a redirect fragment [#k1=v1&...&kn=vn] (keys and values without
    "&" or "=", no key "__proto__"), Callback stores the value of the
    last [access_token] pair and navigates to "/" when that value is
    non-empty, and otherwise neither stores a token nor navigates; in
    both cases it clears the hash. *)
Lemma callback_fragment_roundtrip ps st :
  Forall (fun p => plain p.1 /\ plain p.2 /\ p.1 <> "__proto__") ps ->
  CallbackPage.effect (String "#" (encode_pairs ps)) st =
    match last_value "access_token" ps with
    | Some t => if truthy_str (Some t) then (Store.setSpotifyToken (Some t) st, "", true)
                else (st, "", false)
    | None => (st, "", false)
    end.
Proof.
  intros Hps. unfold CallbackPage.effect. rewrite getTokenFromHash_encoded by done.
  by destruct (last_value _ _).
Qed.

(** ** Witnesses *)

(** C37: the login card is well typed for what it renders: in every
    reachable state the form's [error] is [null] or a non-empty
    message ([err.message || 'Authentication failed. Please try
    again.']), so the alert of Auth.jsx 104-108 shows exactly the error
    set; and, the browser validating [type="email"], [required] and
    [minLength={6}] before [submit], every [login] or [signup] in
    flight was passed a valid email address and a password of at least
    6 characters. *)
Theorem auth_form_well_typed st0 s :
  AuthForm.reachable st0 s ->
  (forall m, AuthForm.error (AuthForm.form s) = Some m -> m <> "") /\
  (forall v, AuthForm.render s = AuthForm.CardForm v -> AuthForm.alert v = AuthForm.error (AuthForm.form s)) /\
  (forall su em pw, AuthForm.request s = Some (su, em, pw) ->
     AuthForm.valid_email em = true /\ (6 <= String.length pw)%nat).
Proof.
  intros Hr. assert (Hinv : AuthForm.form_inv s).
  { induction Hr as [|e s _ IH Ha]; [split; [done | intros ? ? ? ?; discriminate]|].
    by apply step_form_inv. }
  destruct Hinv as [He Hq]. split; [exact He | split; [|exact Hq]].
  intros v. unfold AuthForm.render.
  destruct (Store.authLoading (AuthForm.store s)), (Store.isAuthenticated (AuthForm.store s));
    intros Hv; try discriminate.
  injection Hv as <-. simpl. destruct (AuthForm.error (AuthForm.form s)) as [m|] eqn:Em; [|done].
  specialize (He m eq_refl). unfold truthy_str. by rewrite bool_decide_eq_false_2.
Qed.

(** C38: the form's [loading] flag is set exactly while a [login] or
    [signup] it submitted is awaited: the submit button and the switch
    are disabled while [loading], so at most one request is in flight,
    and its answer clears the flag whatever it is. *)
Theorem auth_form_loading_iff_request st0 s :
  AuthForm.reachable st0 s ->
  AuthForm.loading (AuthForm.form s) = bool_decide (is_Some (AuthForm.request s)) /\
  (is_Some (AuthForm.request s) ->
   AuthForm.allowedb AuthForm.Submit s = false /\ AuthForm.allowedb AuthForm.ToggleSignup s = false).
Proof.
  intros Hr. assert (Hl : AuthForm.loading (AuthForm.form s) = bool_decide (is_Some (AuthForm.request s))).
  { induction Hr as [|e s _ IH Ha]; [done|].
    destruct e as [v|v| | |r1 r2|r]; simpl in *; try done.
    - by destruct (match AuthForm.request s with Some (true, _, _) => _ | _ => _ end).
    - by destruct (Store.logout r (AuthForm.store s)). }
  split; [done|]. intros Hs. simpl. rewrite Hl, bool_decide_eq_true_2 by done.
  by rewrite !andb_false_r.
Qed.

(** A failed [login] keeps the store as it was and the credentials the
    user typed, stops loading, and shows the service's message, or the
    default message when it is empty. *)
Lemma login_failure_shows_message s em pw signUp e :
  AuthForm.request s = Some (false, em, pw) ->
  let s' := AuthForm.step (AuthForm.Answer signUp (JsThrow e)) s in
  AuthForm.store s' = AuthForm.store s /\
  AuthForm.email (AuthForm.form s') = AuthForm.email (AuthForm.form s) /\
  AuthForm.password (AuthForm.form s') = AuthForm.password (AuthForm.form s) /\
  AuthForm.loading (AuthForm.form s') = false /\
  AuthForm.error (AuthForm.form s') = Some (AuthForm.error_message e).
Proof. intros Hr. simpl. by rewrite Hr. Qed.

Lemma auth_form_loading_iff_request_witness :
  AuthForm.allowedb AuthForm.Submit (AuthForm.run AuthForm.trace_login (AuthForm.init AuthForm.settled)) = false.
Proof.
  apply (auth_form_loading_iff_request AuthForm.settled).
  - apply form_trace_reachable; [constructor | vm_compute; reflexivity].
  - vm_compute. by eexists.
Defined.

Lemma auth_form_well_typed_witness :
  AuthForm.reachable AuthForm.settled (AuthForm.run AuthForm.trace_login (AuthForm.init AuthForm.settled)) /\
  AuthForm.valid_email "listener@example.com" = true /\ (6 <= String.length "secret-123")%nat.
Proof.
  assert (Hr : AuthForm.reachable AuthForm.settled (AuthForm.run AuthForm.trace_login (AuthForm.init AuthForm.settled)))
    by (apply form_trace_reachable; [constructor | vm_compute; reflexivity]).
  split; [exact Hr|].
  exact (proj2 (proj2 (auth_form_well_typed _ _ Hr)) false _ _ eq_refl).
Defined.

End AuthFacts.
