(* ===== verification/Requests.v ===== *)
(** * The HTTP requests of the Spotify Web API client

    [fetchTracks] (App.jsx 104-131) first awaits [getSpotifyToken]
    (spotify.js 26-43), a client-credentials request whose
    [Authorization] header is ["Basic " + btoa(CLIENT_ID:CLIENT_SECRET)],
    and then a search request whose URL carries
    [encodeURIComponent(query)] and whose header carries the token it
    got.  [getSpotifyAuthUrl] (spotify.js 8-11) builds the authorize URL
    of the implicit grant that Callback.jsx reads back.

    Module [UriEncoding] models the two builtins these lines call,
    [encodeURIComponent] and [btoa], on the strings of the model: a Rocq
    [string] is a JS string whose code units are all below 256 (the
    range [btoa] accepts; [encodeURIComponent] writes them as one or two
    UTF-8 bytes).  The decoders a server applies ([decodeURIComponent],
    base64 decoding) are written next to them as the reference the
    round-trip theorems use.  Module [SpotifyRequests] translates the
    requests and the way [fetchTracks] chains them. *)

From Stdlib Require Import Ascii Wf_nat.
From coqutil Require Import Z.prove_Zeq_bitwise.
From S2P Require Import Prelude Track Playback Auth.

Module UriEncoding.

Definition code (c : ascii) : Z := Z.of_N (N_of_ascii c).
Definition char_of (n : Z) : ascii := ascii_of_N (Z.to_N n).

(** The characters [encodeURIComponent] leaves as they are. *)
Definition unreserved (c : ascii) : bool :=
  let n := code c in
  bool_decide (65 <= n <= 90)%Z || bool_decide (97 <= n <= 122)%Z || bool_decide (48 <= n <= 57)%Z ||
  bool_decide (c ∈ ["-"; "_"; "."; "!"; "~"; "*"; "'"; "("; ")"]%char).

Definition hex_digits : string := "0123456789ABCDEF".

Definition hex_digit (n : Z) : ascii := default "0"%char (String.get (Z.to_nat n) hex_digits).

(** ["%" + two upper-case hexadecimal digits] of one byte. *)
Definition percent (b : Z) : string :=
  String "%" (String (hex_digit (Z.shiftr b 4)) (String (hex_digit (Z.land b (Z.ones 4))) "")).

(** The UTF-8 bytes of a code point below 256: one byte below 128,
    otherwise [110xxxxx 10xxxxxx]. *)
Definition utf8_lead (n : Z) : Z := Z.lor 192 (Z.shiftr n 6).
Definition utf8_cont (n : Z) : Z := Z.lor 128 (Z.land n (Z.ones 6)).

Definition utf8 (n : Z) : list Z := if (n <? 128)%Z then [n] else [utf8_lead n; utf8_cont n].

Definition encode_char (c : ascii) : string :=
  if unreserved c then String c "" else foldr (fun b s => percent b +:+ s) "" (utf8 (code c)).

Fixpoint encodeURIComponent (s : string) : string :=
  match s with
  | EmptyString => EmptyString
  | String c s' => encode_char c +:+ encodeURIComponent s'
  end.

(** The reference decoder (ECMAScript [decodeURIComponent] restricted
    to the code points the model's strings hold): [%XX] escapes of one
    byte below 128 or of a two-byte UTF-8 sequence led by C2 or C3;
    anything else after a [%] is a [URIError], here [None]. *)
Definition hex_value (c : ascii) : option Z :=
  (fun p : nat * ascii => Z.of_nat p.1) <$>
    list_find (fun d => d = c) (String.list_ascii_of_string hex_digits).

Definition decode_octet (h1 h2 : ascii) : option Z :=
  v1 ← hex_value h1; v2 ← hex_value h2; Some (Z.lor (Z.shiftl v1 4) v2).

Fixpoint decodeURIComponent (s : string) : option string :=
  match s with
  | EmptyString => Some EmptyString
  | String c s' =>
      if bool_decide (c = "%"%char) then
        match s' with
        | String h1 (String h2 s'') =>
            b ← decode_octet h1 h2;
            if (b <? 128)%Z then String (char_of b) <$> decodeURIComponent s''
            else match s'' with
                 | String p (String h3 (String h4 s3)) =>
                     b2 ← decode_octet h3 h4;
                     if bool_decide (p = "%"%char) && bool_decide (194 <= b <= 195)%Z &&
                        bool_decide (Z.land b2 192 = 128)%Z
                     then String (char_of (Z.lor (Z.shiftl (Z.land b (Z.ones 5)) 6) (Z.land b2 (Z.ones 6))))
                            <$> decodeURIComponent s3
                     else None
                 | _ => None
                 end
        | _ => None
        end
      else String c <$> decodeURIComponent s'
  end.

End UriEncoding.

Module Base64.
Import UriEncoding.

Definition alphabet : string :=
  "ABCDEFGHIJKLMNOPQRSTUVWXYZabcdefghijklmnopqrstuvwxyz0123456789+/".

Definition digit (v : Z) : ascii := default "A"%char (String.get (Z.to_nat v) alphabet).

(** Three bytes as a 24-bit group, and its six-bit pieces. *)
Definition group (a b c : Z) : Z := Z.lor (Z.shiftl a 16) (Z.lor (Z.shiftl b 8) c).
Definition six (n k : Z) : Z := Z.land (Z.shiftr n k) (Z.ones 6).

(** [btoa(s)] on a string of code units below 256 (a larger one makes
    it throw [InvalidCharacterError]; the model's strings hold none):
    every three bytes become four digits, and the last one or two bytes
    are padded with "=". *)
Fixpoint btoa (s : string) : string :=
  match s with
  | String a (String b (String c rest)) =>
      let n := group (code a) (code b) (code c) in
      String (digit (six n 18)) (String (digit (six n 12)) (String (digit (six n 6))
        (String (digit (six n 0)) (btoa rest))))
  | String a (String b EmptyString) =>
      let n := group (code a) (code b) 0 in
      String (digit (six n 18)) (String (digit (six n 12)) (String (digit (six n 6)) "="))
  | String a EmptyString =>
      let n := group (code a) 0 0 in
      String (digit (six n 18)) (String (digit (six n 12)) "==")
  | EmptyString => EmptyString
  end.

(** The reference decoder of RFC 4648 (what [atob] and a server reading
    a Basic [Authorization] header do), on canonical input. *)
Definition value (c : ascii) : option Z :=
  (fun p : nat * ascii => Z.of_nat p.1) <$>
    list_find (fun d => d = c) (String.list_ascii_of_string alphabet).

Definition join4 (v0 v1 v2 v3 : Z) : Z :=
  Z.lor (Z.shiftl v0 18) (Z.lor (Z.shiftl v1 12) (Z.lor (Z.shiftl v2 6) v3)).

Definition byte (n k : Z) : ascii := char_of (Z.land (Z.shiftr n k) (Z.ones 8)).

Fixpoint atob (s : string) : option string :=
  match s with
  | EmptyString => Some EmptyString
  | String c0 (String c1 (String c2 (String c3 rest))) =>
      v0 ← value c0; v1 ← value c1;
      if bool_decide (c2 = "="%char /\ c3 = "="%char /\ rest = "") then
        Some (String (byte (join4 v0 v1 0 0) 16) "")
      else
        v2 ← value c2;
        if bool_decide (c3 = "="%char /\ rest = "") then
          let n := join4 v0 v1 v2 0 in Some (String (byte n 16) (String (byte n 8) ""))
        else
          v3 ← value c3;
          let n := join4 v0 v1 v2 v3 in
          rest' ← atob rest; Some (String (byte n 16) (String (byte n 8) (String (byte n 0) rest')))
  | _ => None
  end.

End Base64.

Module SpotifyRequests.
Import UriEncoding Base64.

(** spotify.js 3-6 *)
Definition CLIENT_ID : string := "7bf016f6c9a24351b46f75530bc8a973".
Definition CLIENT_SECRET : string := "0694254cedc84d35b432190e379c70e4".
Definition REDIRECT_URI : string := "http://127.0.0.1:3000/callback".
Definition SCOPES : string :=
  "streaming user-read-email user-read-private user-read-playback-state user-modify-playback-state".

(** spotify.js 8-11 *)
Definition getSpotifyAuthUrl : string :=
  "https://accounts.spotify.com/authorize?client_id=" +:+ CLIENT_ID +:+
  "&response_type=token&redirect_uri=" +:+ encodeURIComponent REDIRECT_URI +:+
  "&scope=" +:+ encodeURIComponent SCOPES.

(** An HTTP request as axios sends it. *)
Record request := {
  method : string;
  url : string;
  headers : list (string * string);
  body : string
}.

(** spotify.js 34: ["Basic " + btoa(`${CLIENT_ID}:${CLIENT_SECRET}`)]. *)
Definition basic_auth (id secret : string) : string := "Basic " +:+ btoa (id +:+ ":" +:+ secret).

(** spotify.js 28-37 *)
Definition token_request : request := {|
  method := "POST";
  url := "https://accounts.spotify.com/api/token";
  headers := [("Content-Type", "application/x-www-form-urlencoded");
              ("Authorization", basic_auth CLIENT_ID CLIENT_SECRET)];
  body := "grant_type=client_credentials"
|}.

(** [response.data] of the token endpoint: [access_token] is [undefined]
    when the answer has none. *)
Record token_data := { access_token : option string }.

(** spotify.js 26-43: the request sent, and how the promise settles: the
    answer's [access_token], or the error, logged and rethrown. *)
Definition getSpotifyToken (answer : js_result token_data) : request * js_result (option string) :=
  (token_request, match answer with JsOk d => JsOk (access_token d) | JsThrow e => JsThrow e end).

(** A template literal's [${v}]: [undefined] prints as "undefined". *)
Definition template (v : option string) : string := default "undefined" v.

(** App.jsx 110-113 *)
Definition search_request (query : string) (token : option string) : request := {|
  method := "GET";
  url := "https://api.spotify.com/v1/search?q=" +:+ encodeURIComponent query +:+ "&type=track&limit=10";
  headers := [("Authorization", "Bearer " +:+ template token)];
  body := ""
|}.

(** App.jsx 108-113: the requests the [try] block of [fetchTracks] sends,
    in order, and what reaches its [catch] or the code after the awaits
    (the answer of the search, or the first error thrown). *)
Definition fetchTracks_requests (query : string) (token_answer : js_result token_data)
    (search_answer : js_result (list Spotify.Item)) : list request * js_result (list Spotify.Item) :=
  let '(r1, token) := getSpotifyToken token_answer in
  match token with
  | JsThrow e => ([r1], JsThrow e)
  | JsOk t => ([r1; search_request query t], search_answer)
  end.

(** App.jsx 104-131: [fetchTracks] on App's state, its requests and its
    effect. *)
Definition fetchTracks (token_answer : js_result token_data) (search_answer : js_result (list Spotify.Item))
    (s : Playback.State) : list request * Playback.State :=
  let '(reqs, r) := fetchTracks_requests (Playback.query s) token_answer search_answer in
  (reqs, Playback.fetchTracks_done r (Playback.fetchTracks_start s)).

(** How a server reads a request: the [key=value] pairs of the query
    string, and the credentials of a Basic [Authorization] header. *)
Definition query_params (u : string) : list (string * string) :=
  match SpotifyApi.js_split "?" u with
  | [_; q] => map (fun item => match SpotifyApi.js_split "=" item with
                               | [k; v] => (k, v)
                               | _ => (item, "")
                               end) (SpotifyApi.js_split "&" q)
  | _ => []
  end.

Fixpoint split_first (sep : ascii) (s : string) : option (string * string) :=
  match s with
  | EmptyString => None
  | String c s' =>
      if bool_decide (c = sep) then Some ("", s')
      else (fun p : string * string => (String c p.1, p.2)) <$> split_first sep s'
  end.

Definition basic_credentials (header : string) : option (string * string) :=
  match split_first " " header with
  | Some ("Basic", encoded) => decoded ← atob encoded; split_first ":" decoded
  | _ => None
  end.

End SpotifyRequests.

Module UriFacts.
Import UriEncoding.

Lemma code_range c : (0 <= code c < 256)%Z.
Proof. unfold code. pose proof (N_ascii_bounded c). lia. Qed.

Lemma char_of_code c : char_of (code c) = c.
Proof. unfold char_of, code. rewrite N2Z.id. apply ascii_N_embedding. Qed.

(** A property of every byte value, checked by evaluation. *)
Lemma forall_byte (P : Z -> bool) :
  forallb (fun n => P (Z.of_nat n)) (seq 0 256) = true -> forall b, (0 <= b < 256)%Z -> P b = true.
Proof.
  intros H b Hb. rewrite forallb_forall in H. rewrite <- (Z2Nat.id b) by lia.
  apply H, in_seq. lia.
Qed.

Lemma decode_octet_percent b : (0 <= b < 256)%Z ->
  decode_octet (hex_digit (Z.shiftr b 4)) (hex_digit (Z.land b (Z.ones 4))) = Some b.
Proof.
  intros Hb.
  set (P := fun b => bool_decide (decode_octet (hex_digit (Z.shiftr b 4))
                                    (hex_digit (Z.land b (Z.ones 4))) = Some b)).
  assert (Hall : forallb (fun n => P (Z.of_nat n)) (seq 0 256) = true) by (vm_compute; reflexivity).
  exact (bool_decide_eq_true_1 _ (forall_byte P Hall b Hb)).
Qed.

Lemma decode_unreserved c rest :
  unreserved c = true -> decodeURIComponent (String c rest) = String c <$> decodeURIComponent rest.
Proof.
  intros Hu. simpl. rewrite bool_decide_eq_false_2; [done|].
  intros ->. vm_compute in Hu. discriminate.
Qed.

Lemma decode_percent_ascii b rest : (0 <= b < 128)%Z ->
  decodeURIComponent (percent b +:+ rest) = String (char_of b) <$> decodeURIComponent rest.
Proof.
  intros Hb. unfold percent. simpl. rewrite decode_octet_percent by lia. simpl.
  by rewrite (proj2 (Z.ltb_lt b 128)) by lia.
Qed.

(** The two bytes of a code point from 128 to 255 and what the decoder
    reads back from them, checked on every such code point. *)
Lemma utf8_two_bytes n : (128 <= n < 256)%Z ->
  (0 <= utf8_lead n < 256)%Z /\ (0 <= utf8_cont n < 256)%Z /\ (utf8_lead n <? 128)%Z = false /\
  (194 <= utf8_lead n <= 195)%Z /\ Z.land (utf8_cont n) 192 = 128%Z /\
  Z.lor (Z.shiftl (Z.land (utf8_lead n) (Z.ones 5)) 6) (Z.land (utf8_cont n) (Z.ones 6)) = n.
Proof.
  intros Hn.
  set (P := fun n : Z => bool_decide ((n < 128)%Z \/
    (0 <= utf8_lead n < 256)%Z /\ (0 <= utf8_cont n < 256)%Z /\ (utf8_lead n <? 128)%Z = false /\
    (194 <= utf8_lead n <= 195)%Z /\ Z.land (utf8_cont n) 192 = 128%Z /\
    Z.lor (Z.shiftl (Z.land (utf8_lead n) (Z.ones 5)) 6) (Z.land (utf8_cont n) (Z.ones 6)) = n)).
  assert (Hall : forallb (fun n => P (Z.of_nat n)) (seq 0 256) = true) by (vm_compute; reflexivity).
  pose proof (bool_decide_eq_true_1 _ (forall_byte P Hall n ltac:(lia))) as [H|H]; [lia | exact H].
Qed.

Lemma decode_percent_utf8 n rest : (128 <= n < 256)%Z ->
  decodeURIComponent (percent (utf8_lead n) +:+ percent (utf8_cont n) +:+ rest)
  = String (char_of n) <$> decodeURIComponent rest.
Proof.
  intros Hn. destruct (utf8_two_bytes n Hn) as (Hl & Hk & Hlt & Hlead & Hcont & Hback).
  revert Hl Hk Hlt Hlead Hcont Hback. generalize (utf8_lead n) (utf8_cont n). intros l k Hl Hk Hlt Hlead Hcont Hback.
  unfold percent. simpl. rewrite !decode_octet_percent by lia. simpl. rewrite Hlt.
  rewrite !bool_decide_eq_true_2 by (done || lia). simpl. by rewrite Hback.
Qed.

Lemma decode_encode_char c rest :
  decodeURIComponent (encode_char c +:+ rest) = String c <$> decodeURIComponent rest.
Proof.
  unfold encode_char. destruct (unreserved c) eqn:Hu; [by apply decode_unreserved|].
  pose proof (code_range c) as Hc. unfold utf8. destruct (Z.ltb_spec (code c) 128); cbn [foldr].
  - rewrite string_app_nil_r, decode_percent_ascii by lia. by rewrite char_of_code.
  - rewrite string_app_nil_r, string_app_assoc, decode_percent_utf8 by lia. by rewrite char_of_code.
Qed.

Lemma decode_encode s : decodeURIComponent (encodeURIComponent s) = Some s.
Proof.
  induction s as [|c s IH]; [done|]. simpl. by rewrite decode_encode_char, IH.
Qed.

End UriFacts.

Module Base64Facts.
Import UriEncoding Base64 UriFacts.

Lemma six_range n k : (0 <= six n k < 64)%Z.
Proof. unfold six. rewrite Z.land_ones by lia. apply Z.mod_pos_bound. lia. Qed.

(** Every digit decodes to its value and is not the padding "=". *)
Lemma value_digit v : (0 <= v < 64)%Z -> value (digit v) = Some v /\ digit v <> "="%char.
Proof.
  intros Hv.
  set (P := fun v : Z => bool_decide ((64 <= v)%Z \/ value (digit v) = Some v /\ digit v <> "="%char)).
  assert (Hall : forallb (fun n => P (Z.of_nat n)) (seq 0 256) = true) by (vm_compute; reflexivity).
  pose proof (bool_decide_eq_true_1 _ (forall_byte P Hall v ltac:(lia))) as [H|H]; [lia | exact H].
Qed.

Lemma chunk3 a b c : (0 <= a < 2^8)%Z -> (0 <= b < 2^8)%Z -> (0 <= c < 2^8)%Z ->
  let n := group a b c in let m := join4 (six n 18) (six n 12) (six n 6) (six n 0) in
  Z.land (Z.shiftr m 16) (Z.ones 8) = a /\ Z.land (Z.shiftr m 8) (Z.ones 8) = b /\
  Z.land (Z.shiftr m 0) (Z.ones 8) = c.
Proof. intros Ha Hb Hc n m. subst n m. unfold group, six, join4. split; [|split]; prove_Zeq_bitwise. Qed.

Lemma chunk2 a b : (0 <= a < 2^8)%Z -> (0 <= b < 2^8)%Z ->
  let n := group a b 0 in let m := join4 (six n 18) (six n 12) (six n 6) 0 in
  Z.land (Z.shiftr m 16) (Z.ones 8) = a /\ Z.land (Z.shiftr m 8) (Z.ones 8) = b.
Proof. intros Ha Hb n m. subst n m. unfold group, six, join4. split; prove_Zeq_bitwise. Qed.

Lemma chunk1 a : (0 <= a < 2^8)%Z ->
  let n := group a 0 0 in Z.land (Z.shiftr (join4 (six n 18) (six n 12) 0 0) 16) (Z.ones 8) = a.
Proof. intros Ha n. subst n. unfold group, six, join4. prove_Zeq_bitwise. Qed.

Lemma byte_code n k c : Z.land (Z.shiftr n k) (Z.ones 8) = code c -> byte n k = c.
Proof. intros H. unfold byte. by rewrite H, char_of_code. Qed.

Lemma code_range8 c : (0 <= code c < 2^8)%Z.
Proof. apply code_range. Qed.

Lemma atob_btoa s : atob (btoa s) = Some s.
Proof.
  induction s as [s IH] using (induction_ltof1 _ String.length).
  destruct s as [|a [|b [|c rest]]]; [done|..]; cbn [btoa atob].
  - pose proof (chunk1 _ (code_range8 a)) as Ha.
    set (n := group (code a) 0 0) in *.
    rewrite (proj1 (value_digit (six n 18) (six_range _ _))), (proj1 (value_digit (six n 12) (six_range _ _))).
    cbn [mbind option_bind]. rewrite bool_decide_eq_true_2 by done. by rewrite (byte_code _ _ a Ha).
  - destruct (chunk2 _ _ (code_range8 a) (code_range8 b)) as [Ha Hb].
    set (n := group (code a) (code b) 0) in *.
    destruct (value_digit (six n 6) (six_range _ _)) as [E2 N2].
    rewrite (proj1 (value_digit (six n 18) (six_range _ _))), (proj1 (value_digit (six n 12) (six_range _ _))).
    cbn [mbind option_bind]. rewrite bool_decide_eq_false_2 by (intros [? _]; auto).
    rewrite E2. cbn [mbind option_bind]. rewrite bool_decide_eq_true_2 by done.
    by rewrite (byte_code _ _ a Ha), (byte_code _ _ b Hb).
  - destruct (chunk3 _ _ _ (code_range8 a) (code_range8 b) (code_range8 c)) as (Ha & Hb & Hc).
    set (n := group (code a) (code b) (code c)) in *.
    destruct (value_digit (six n 6) (six_range _ _)) as [E2 N2].
    destruct (value_digit (six n 0) (six_range _ _)) as [E3 N3].
    rewrite (proj1 (value_digit (six n 18) (six_range _ _))), (proj1 (value_digit (six n 12) (six_range _ _))).
    cbn [mbind option_bind]. rewrite bool_decide_eq_false_2 by (intros [? _]; auto).
    rewrite E2. cbn [mbind option_bind]. rewrite bool_decide_eq_false_2 by (intros [? _]; auto).
    rewrite E3, IH by (unfold ltof; simpl; lia). cbn [mbind option_bind].
    by rewrite (byte_code _ _ a Ha), (byte_code _ _ b Hb), (byte_code _ _ c Hc).
Qed.

End Base64Facts.

Module RequestFacts.
Import UriEncoding Base64 SpotifyRequests UriFacts Base64Facts AuthFacts.

(** ** Helper lemmas *)

(** No escape [encodeURIComponent] writes contains a separator of the
    query string. *)
Lemma encode_char_plain c : forallb (fun x => negb (has_char x (encode_char c))) ["&"; "="; "?"]%char = true.
Proof.
  rewrite <- (char_of_code c).
  set (P := fun n => forallb (fun x => negb (has_char x (encode_char (char_of n)))) ["&"; "="; "?"]%char).
  assert (Hall : forallb (fun n => P (Z.of_nat n)) (seq 0 256) = true) by (vm_compute; reflexivity).
  exact (forall_byte P Hall (code c) (code_range c)).
Qed.

Lemma encode_plain x s :
  x = "&"%char \/ x = "="%char \/ x = "?"%char -> has_char x (encodeURIComponent s) = false.
Proof.
  intros Hx. induction s as [|c s IH]; [done|]. simpl. rewrite has_char_append, IH, orb_false_r.
  pose proof (encode_char_plain c) as H. rewrite forallb_forall in H.
  apply negb_true_iff, H. destruct Hx as [->|[->| ->]]; simpl; tauto.
Qed.

Lemma split_first_app sep w r :
  has_char sep w = false -> split_first sep (w +:+ String sep r) = Some (w, r).
Proof.
  induction w as [|c w IH]; simpl.
  - intros _. by rewrite bool_decide_eq_true_2.
  - intros [Hc Hw]%orb_false_iff. rewrite bool_decide_eq_false_2 by (intros ->; by rewrite bool_decide_eq_true_2 in Hc).
    by rewrite IH.
Qed.

(** [k=v] with a plain value splits into its key and value. *)
Lemma split_pair k v :
  has_char "=" k = false -> has_char "=" v = false -> SpotifyApi.js_split "=" (k +:+ String "=" v) = [k; v].
Proof. intros Hk Hv. by rewrite js_split_append, js_split_plain. Qed.

Lemma query_params_split base q :
  has_char "?" base = false -> has_char "?" q = false ->
  query_params (base +:+ String "?" q) =
  map (fun item => match SpotifyApi.js_split "=" item with [k; v] => (k, v) | _ => (item, "") end)
      (SpotifyApi.js_split "&" q).
Proof. intros Hb Hq. unfold query_params. by rewrite js_split_append, js_split_plain. Qed.

(** ** Theorems *)

(** C27: the search request carries the query intact: for every query
    string, a server splitting the URL at "?", "&" and "=" reads exactly
    the parameters [q], [type] and [limit], and [q] decodes back to the
    query (no character [encodeURIComponent] writes is a separator).
    The authorize URL of [getSpotifyAuthUrl] reads back the same way:
    client id, [response_type=token], and the redirect URI and scopes
    decoded. *)
Theorem search_request_carries_query q t :
  (exists v, query_params (url (search_request q t)) = [("q", v); ("type", "track"); ("limit", "10")] /\
             decodeURIComponent v = Some q) /\
  (exists r sc, query_params getSpotifyAuthUrl =
     [("client_id", CLIENT_ID); ("response_type", "token"); ("redirect_uri", r); ("scope", sc)] /\
     decodeURIComponent r = Some REDIRECT_URI /\ decodeURIComponent sc = Some SCOPES).
Proof.
  split; [|exists (encodeURIComponent REDIRECT_URI), (encodeURIComponent SCOPES);
          split; [vm_compute; reflexivity | split; apply decode_encode]].
  exists (encodeURIComponent q). split; [|apply decode_encode].
  assert (Hq : forall x, x = "&"%char \/ x = "?"%char -> has_char x ("q=" +:+ encodeURIComponent q) = false).
  { intros x Hx. rewrite has_char_append, encode_plain by tauto. destruct Hx as [->| ->]; reflexivity. }
  change (url (search_request q t)) with
    ("https://api.spotify.com/v1/search" +:+ String "?" (("q=" +:+ encodeURIComponent q) +:+ "&type=track&limit=10")).
  rewrite query_params_split; [|done|rewrite has_char_append, Hq by tauto; done].
  rewrite js_split_append by (apply Hq; tauto).
  change ("q=" +:+ encodeURIComponent q) with ("q" +:+ String "=" (encodeURIComponent q)).
  cbn [map]. rewrite split_pair by (done || apply encode_plain; tauto). reflexivity.
Qed.

(** C28: the [Authorization] header of the token request gives the
    credentials back: for an id without ":", a server decoding
    ["Basic " + btoa(id + ":" + secret)] reads exactly that id and
    secret.  With spotify.js's constants, every browser that runs the
    app sends [CLIENT_SECRET] in a form anyone reads back. *)
Theorem basic_auth_roundtrip id secret :
  has_char ":" id = false -> basic_credentials (basic_auth id secret) = Some (id, secret).
Proof.
  intros Hid. unfold basic_credentials, basic_auth.
  change ("Basic " +:+ btoa (id +:+ ":" +:+ secret)) with ("Basic" +:+ String " " (btoa (id +:+ ":" +:+ secret))).
  rewrite split_first_app by reflexivity. cbn [mbind option_bind]. rewrite atob_btoa. cbn [mbind option_bind].
  by apply split_first_app.
Qed.

(** C29: every run of [fetchTracks] ends with [loading] false and takes
    one of two paths: the token request fails, and it sends nothing else,
    empties the list and shows the error; or the token request answers,
    and it sends the search with whatever [access_token] the answer had
    ("Bearer undefined" when it had none), after which the list is the
    search result at index 0 with no error, or empty with the error. *)
Theorem fetchTracks_outcomes ta sa s :
  Playback.loading (fetchTracks ta sa s).2 = false /\
  ((exists e, ta = JsThrow e /\ (fetchTracks ta sa s).1 = [token_request] /\
      Playback.tracks (fetchTracks ta sa s).2 = [] /\
      Playback.error (fetchTracks ta sa s).2 = Some "Failed to load tracks. Please try again.") \/
   (exists d, ta = JsOk d /\
      (fetchTracks ta sa s).1 = [token_request; search_request (Playback.query s) (access_token d)] /\
      headers (search_request (Playback.query s) (access_token d)) =
        [("Authorization", "Bearer " +:+ default "undefined" (access_token d))] /\
      match sa with
      | JsOk items => Playback.tracks (fetchTracks ta sa s).2 = fetched_tracks items /\
                      Playback.trackIndex (fetchTracks ta sa s).2 = 0%Z /\
                      Playback.error (fetchTracks ta sa s).2 = None
      | JsThrow _ => Playback.tracks (fetchTracks ta sa s).2 = [] /\
                     Playback.error (fetchTracks ta sa s).2 = Some "Failed to load tracks. Please try again."
      end)).
Proof.
  unfold fetchTracks, fetchTracks_requests, getSpotifyToken.
  destruct ta as [d|e]; [|split; [done | left; by exists e]].
  destruct sa as [items|e]; (split; [done | right; exists d; done]).
Qed.

Lemma basic_auth_roundtrip_witness :
  basic_credentials (basic_auth CLIENT_ID CLIENT_SECRET) = Some (CLIENT_ID, CLIENT_SECRET) /\
  (("Authorization", basic_auth CLIENT_ID CLIENT_SECRET) ∈ headers token_request).
Proof.
  split; [apply basic_auth_roundtrip; reflexivity | simpl; right; left].
Defined.

End RequestFacts.
