(* ===== verification/App.v ===== *)
(** * The App component as one state machine

    [App.Sys] puts together what App.jsx's behaviour depends on: the
    zustand store, App's React state, the world of the Spotify SDK (the
    global [window.onSpotifyWebPlaybackSDKReady], the player objects,
    which of them are connected, the commands sent to them) and React's
    bookkeeping for App's effects (the dependencies and the cleanup of
    the last run of each effect, the identity of the [tracks] array, the
    [fetchTracks] calls in flight).  [App.step] processes one event of
    the environment (a user action, an answer of the network, a call of
    the SDK) and then runs the effects whose dependencies changed, as
    React does after the render the event causes.  [App.reachable] is
    the set of states the environment can drive App into. *)

From S2P Require Import Prelude React Track Store Playback Views Auth Requests.

Module App.

Import PlaylistView.

(** The SDK side: the callback App installed, whether the SDK script has
    already called it, the player objects created, the connected ones,
    and every command sent, with the id of the player it went to. *)
Record Sdk := {
  ready_cb : option (string * list Track);
  loaded : bool;
  instances : list Playback.SdkPlayer;
  connected : list nat;
  sent : list (nat * Playback.sdk_cmd)
}.

(** React's bookkeeping: [tracks_version] is the identity of the
    [tracks] array (every [setTracks] makes a new array, and React
    compares dependencies with [Object.is]); [e1_deps]/[e1_cleanup] are
    the dependencies of the last run of the effect of App.jsx 42-75 and
    the cleanup it returned, with the [player] it closed over;
    [e3_deps] those of the effect of App.jsx 134-136.  The [fetchTracks]
    calls in flight ([inflight]) are numbered, with the [query] each
    closed over; [tokens] holds those whose [getSpotifyToken] has
    answered, with the token they await the search with, and
    [sent_requests] every request App has sent, with its call. *)
Record Hooks := {
  tracks_version : nat;
  e1_deps : option (option string * nat);
  e1_cleanup : option (option Playback.SdkPlayer);
  e3_deps : option (string * bool * bool);
  inflight : list (nat * string);
  next_fetch : nat;
  tokens : list (nat * option string);
  sent_requests : list (nat * SpotifyRequests.request)
}.

Record Sys := {
  store : Store.State;
  app : Playback.State;
  sdk : Sdk;
  hooks : Hooks
}.

Definition with_store (st : Store.State) (s : Sys) : Sys :=
  {| store := st; app := app s; sdk := sdk s; hooks := hooks s |}.
Definition with_app (a : Playback.State) (s : Sys) : Sys :=
  {| store := store s; app := a; sdk := sdk s; hooks := hooks s |}.
Definition with_sdk (k : Sdk) (s : Sys) : Sys :=
  {| store := store s; app := app s; sdk := k; hooks := hooks s |}.
Definition with_hooks (h : Hooks) (s : Sys) : Sys :=
  {| store := store s; app := app s; sdk := sdk s; hooks := h |}.

(** [player.disconnect()] *)
Definition disconnect (p : option Playback.SdkPlayer) (k : Sdk) : Sdk :=
  match p with
  | Some pl =>
      {| ready_cb := ready_cb k; loaded := loaded k; instances := instances k;
         connected := List.filter (fun i => negb (Nat.eqb i (Playback.player_id pl))) (connected k);
         sent := sent k |}
  | None => k
  end.

(** The effect of App.jsx 42-75, deps [[spotifyToken, tracks]] (the
    array by identity, [tracks_version]).  When it runs, the previous
    cleanup runs first ([if (player) player.disconnect()] with the
    [player] of the render that ran it), then the effect returns early
    without a token, or installs a new [onSpotifyWebPlaybackSDKReady]
    closing over this render's token and tracks and returns a cleanup
    closing over this render's [player]. *)
Definition player_effect_commit (s : Sys) : Sys :=
  let h := hooks s in
  let deps := (Store.spotifyToken (store s), tracks_version h) in
  let k := match e1_cleanup h with Some p => disconnect p (sdk s) | None => sdk s end in
  let h' (cleanup : option (option Playback.SdkPlayer)) :=
    {| tracks_version := tracks_version h; e1_deps := Some deps; e1_cleanup := cleanup;
       e3_deps := e3_deps h; inflight := inflight h; next_fetch := next_fetch h;
       tokens := tokens h; sent_requests := sent_requests h |} in
  match Store.spotifyToken (store s) with
  | Some tok =>
      if truthy_str (Some tok) then
        {| store := store s; app := app s;
           sdk := {| ready_cb := Some (tok, Playback.tracks (app s)); loaded := loaded k;
                     instances := instances k; connected := connected k; sent := sent k |};
           hooks := h' (Some (Playback.player (app s))) |}
      else with_hooks (h' None) (with_sdk k s)
  | None => with_hooks (h' None) (with_sdk k s)
  end.

Definition player_effect : effect Sys (option string * nat) :=
  {| deps := fun s => (Store.spotifyToken (store s), tracks_version (hooks s));
     last_deps := fun s => e1_deps (hooks s);
     commit := player_effect_commit |}.

Definition effect_player (s : Sys) : Sys := use_effect player_effect s.

(** The effect of App.jsx 134-136, deps [[query, isAuthenticated,
    authLoading]]: [fetchTracks()] starts a request for this render's
    [query]: it sends the token request (App.jsx 109); the answers are
    later events. *)
Definition fetch_deps (s : Sys) : string * bool * bool :=
  (Playback.query (app s), Store.isAuthenticated (store s), Store.authLoading (store s)).

Definition fetch_effect_commit (s : Sys) : Sys :=
  let h := hooks s in
  let st := store s in
  let deps := fetch_deps s in
  let go := Store.isAuthenticated st && negb (Store.authLoading st) in
  {| store := st;
     app := if go then Playback.fetchTracks_start (app s) else app s;
     sdk := sdk s;
     hooks := {| tracks_version := tracks_version h; e1_deps := e1_deps h;
                 e1_cleanup := e1_cleanup h; e3_deps := Some deps;
                 inflight := if go then inflight h ++ [(next_fetch h, Playback.query (app s))]
                             else inflight h;
                 next_fetch := if go then S (next_fetch h) else next_fetch h;
                 tokens := tokens h;
                 sent_requests := if go then sent_requests h ++ [(next_fetch h, SpotifyRequests.token_request)]
                                  else sent_requests h |} |}.

Definition fetch_effect : effect Sys (string * bool * bool) :=
  {| deps := fetch_deps;
     last_deps := fun s => e3_deps (hooks s);
     commit := fetch_effect_commit |}.

Definition effect_fetch (s : Sys) : Sys := use_effect fetch_effect s.

(** The effects after a render, in the order of App.jsx. *)
Definition flush (s : Sys) : Sys := effect_fetch (effect_player s).

(** App.jsx 185-189 *)
Definition handleSearch (term : string) (a : Playback.State) : Playback.State :=
  let t := NowPlaying.js_trim term in
  {| Playback.tracks := Playback.tracks a; Playback.trackIndex := Playback.trackIndex a;
     Playback.isPlaying := Playback.isPlaying a;
     Playback.query := if truthy_str (Some t) then t else "genre:pop";
     Playback.loading := Playback.loading a; Playback.error := Playback.error a;
     Playback.player := Playback.player a |}.

(** The events of the environment. *)
Inductive ev : Type :=
  | EvUi (a : ui_action)
  | EvTransport (e : Playback.event)
  | EvSearch (term : string)
  | EvTokenDone (id : nat) (answer : js_result SpotifyRequests.token_data)
  | EvFetchDone (id : nat) (response : js_result (list Spotify.Item))
  | EvSdkLoaded
  | EvPlayerReady (id : nat)
  | EvPlayerState (id : nat) (state : option Playback.SdkState).

Definition find_instance (k : Sdk) (id : nat) : option Playback.SdkPlayer :=
  List.find (fun p => Nat.eqb (Playback.player_id p) id) (instances k).

(** What the environment can do in a state. *)
Definition allowedb (e : ev) (s : Sys) : bool :=
  match e with
  | EvUi (ActTab v) => bool_decide (v ∈ tab_values (store s))
  | EvUi (ActStore (Store.OpSetCurrentPlaylist _)) => false
  | EvUi (ActStore _) => true
  | EvTransport e' => negb (Playback.from_sdk e') && match e' with
                      | Playback.EvFetchStart | Playback.EvFetchDone _ => false
                      | _ => true end
  | EvSearch _ => true
  | EvTokenDone id _ => bool_decide (id ∈ map fst (inflight (hooks s))) &&
                        negb (bool_decide (id ∈ map fst (tokens (hooks s))))
  | EvFetchDone id _ => bool_decide (id ∈ map fst (tokens (hooks s)))
  | EvSdkLoaded => true
  | EvPlayerReady id | EvPlayerState id _ => bool_decide (id ∈ connected (sdk s))
  end.
(** [player.togglePlay()], ... : the commands of a handler go to the
    player object in App's state. *)
Definition send (target : nat) (cmds : list Playback.sdk_cmd) (k : Sdk) : Sdk :=
  {| ready_cb := ready_cb k; loaded := loaded k; instances := instances k;
     connected := connected k; sent := sent k ++ map (fun c => (target, c)) cmds |}.

(** The ["ready"] listener: [setPlayer(player)]. *)
Definition setPlayer (p : Playback.SdkPlayer) (a : Playback.State) : Playback.State :=
  {| Playback.tracks := Playback.tracks a; Playback.trackIndex := Playback.trackIndex a;
     Playback.isPlaying := Playback.isPlaying a; Playback.query := Playback.query a;
     Playback.loading := Playback.loading a; Playback.error := Playback.error a;
     Playback.player := Some p |}.

(** The end of the fetch [id]: it leaves the set of calls in flight and
    [setTracks] makes a new array. *)
Definition answer (id : nat) (h : Hooks) : Hooks :=
  {| tracks_version := S (tracks_version h); e1_deps := e1_deps h; e1_cleanup := e1_cleanup h;
     e3_deps := e3_deps h; inflight := List.filter (fun q => negb (Nat.eqb q.1 id)) (inflight h);
     next_fetch := next_fetch h; tokens := List.filter (fun q => negb (Nat.eqb q.1 id)) (tokens h);
     sent_requests := sent_requests h |}.

(** The query the fetch [id] closed over. *)
Definition fetch_query (id : nat) (h : Hooks) : string :=
  default "" (snd <$> List.find (fun q => Nat.eqb q.1 id) (inflight h)).

(** App.jsx 109-113: [getSpotifyToken()] of the fetch [id] resolved with
    [token]: the search request is sent with the query the fetch closed
    over.  No state of App changes, so nothing renders. *)
Definition token_answered (id : nat) (token : option string) (h : Hooks) : Hooks :=
  {| tracks_version := tracks_version h; e1_deps := e1_deps h; e1_cleanup := e1_cleanup h;
     e3_deps := e3_deps h; inflight := inflight h; next_fetch := next_fetch h;
     tokens := tokens h ++ [(id, token)];
     sent_requests := sent_requests h ++ [(id, SpotifyRequests.search_request (fetch_query id h) token)] |}.

(** The SDK script calls [window.onSpotifyWebPlaybackSDKReady] once,
    when it has loaded; the callback (App.jsx 45-70) builds a player
    closing over its token and tracks and calls [player.connect()]. *)
Definition sdk_loads (k : Sdk) : Sdk :=
  if loaded k then k else
  match ready_cb k with
  | Some (tok, trs) =>
      let p := {| Playback.player_id := length (instances k);
                  Playback.listener_tracks := trs; Playback.oauth_token := tok |} in
      {| ready_cb := ready_cb k; loaded := true; instances := instances k ++ [p];
         connected := connected k ++ [Playback.player_id p]; sent := sent k |}
  | None =>
      {| ready_cb := None; loaded := true; instances := instances k;
         connected := connected k; sent := sent k |}
  end.

Definition step (e : ev) (s : Sys) : Sys :=
  match e with
  | EvUi a =>
      match ui_step a (store s) with
      | JsOk st' => flush (with_store st' s)
      | JsThrow _ => s
      end
  | EvTransport e' =>
      match Playback.handle (store s) e' (app s) with
      | JsOk (a', cmds) =>
          let target := match Playback.player (app s) with
                        | Some p => Playback.player_id p | None => 0 end in
          flush (with_sdk (send target cmds (sdk s)) (with_app a' s))
      | JsThrow _ => s
      end
  | EvSearch term => flush (with_app (handleSearch term (app s)) s)
  | EvTokenDone id ta =>
      match (SpotifyRequests.getSpotifyToken ta).2 with
      | JsOk token => with_hooks (token_answered id token (hooks s)) s
      | JsThrow e =>
          flush (with_hooks (answer id (hooks s)) (with_app (Playback.fetchTracks_done (JsThrow e) (app s)) s))
      end
  | EvFetchDone id r =>
      flush (with_hooks (answer id (hooks s)) (with_app (Playback.fetchTracks_done r (app s)) s))
  | EvSdkLoaded => with_sdk (sdk_loads (sdk s)) s
  | EvPlayerReady id =>
      match find_instance (sdk s) id with
      | Some p => flush (with_app (setPlayer p (app s)) s)
      | None => s
      end
  | EvPlayerState id st =>
      match find_instance (sdk s) id with
      | Some p => flush (with_app (Playback.onPlayerStateChanged p st (app s)) s)
      | None => s
      end
  end.

Definition sdk0 : Sdk :=
  {| ready_cb := None; loaded := false; instances := []; connected := []; sent := [] |}.

Definition hooks0 : Hooks :=
  {| tracks_version := 0; e1_deps := None; e1_cleanup := None; e3_deps := None;
     inflight := []; next_fetch := 0; tokens := []; sent_requests := [] |}.

(** App mounted: the initial states and the effects of the first render. *)
Definition init : Sys :=
  flush {| store := Store.initial; app := Playback.initial; sdk := sdk0; hooks := hooks0 |}.

Inductive reachable : Sys -> Prop :=
  | reachable_init : reachable init
  | reachable_step e s : reachable s -> allowedb e s = true -> reachable (step e s).

Fixpoint run (evs : list ev) (s : Sys) : Sys :=
  match evs with [] => s | e :: es => run es (step e s) end.

Fixpoint trace_ok (evs : list ev) (s : Sys) : bool :=
  match evs with [] => true | e :: es => allowedb e s && trace_ok es (step e s) end.

(** The network answers the [fetchTracks] calls in flight, oldest
    first, until none is left: the token request with [ta], then the
    search request with [r]; [fuel] bounds the number of answers.
    [None] is running out of fuel with a call still in flight. *)
Fixpoint quiesce (fuel : nat) (ta : js_result SpotifyRequests.token_data)
    (r : js_result (list Spotify.Item)) (s : Sys) : option Sys :=
  match inflight (hooks s) with
  | [] => Some s
  | (id, _) :: _ =>
      match fuel with
      | O => None
      | S n =>
          if bool_decide (id ∈ map fst (tokens (hooks s)))
          then quiesce n ta r (step (EvFetchDone id r) s)
          else quiesce n ta r (step (EvTokenDone id ta) s)
      end
  end.

(** ** Sample runs *)

Definition mk_item (n : string) (pv u : option string) : Spotify.Item :=
  {| Spotify.name := n; Spotify.artists := []; Spotify.preview_url := pv;
     Spotify.album := None; Spotify.uri := u |}.

Definition user1 : User := {| user_id := "u1"; email := Some "listener@example.com" |}.

(** A client-credentials token the token endpoint answers. *)
Definition token_ok : js_result SpotifyRequests.token_data :=
  JsOk {| SpotifyRequests.access_token := Some "BQC-app" |}.

(** The session resolves, Callback stores a token, the SDK loads and its
    player gets ready before the first search answers; a second search
    then answers. *)
Definition trace_hosted : list ev :=
  [EvUi (ActStore (Store.OpInitializeAuth (JsOk true) (JsOk user1)));
   EvUi (ActStore (Store.OpSetSpotifyToken (Some "BQD-token")));
   EvSdkLoaded; EvPlayerReady 0; EvTokenDone 0 token_ok;
   EvFetchDone 0 (JsOk [mk_item "A" None (Some "spotify:track:a");
                        mk_item "B" None (Some "spotify:track:b")]);
   EvSearch "artist:drake"; EvTokenDone 1 token_ok;
   EvFetchDone 1 (JsOk [mk_item "C" None (Some "spotify:track:c")])].

(** The session resolves, the first search answers with tracks that have
    previews, and the user presses play. *)
Definition trace_local_play : list ev :=
  [EvUi (ActStore (Store.OpInitializeAuth (JsOk true) (JsOk user1)));
   EvTokenDone 0 token_ok;
   EvFetchDone 0 (JsOk [mk_item "A" (Some "https://p.scdn.co/a") (Some "spotify:track:a");
                        mk_item "B" (Some "https://p.scdn.co/b") (Some "spotify:track:b")]);
   EvTransport Playback.EvTogglePlay].

(** Two searches in flight; the answer to the first arrives last. *)
Definition trace_race : list ev :=
  [EvUi (ActStore (Store.OpInitializeAuth (JsOk true) (JsOk user1)));
   EvSearch "artist:drake"; EvTokenDone 1 token_ok;
   EvFetchDone 1 (JsOk [mk_item "Drake" None (Some "spotify:track:d")]);
   EvTokenDone 0 token_ok; EvFetchDone 0 (JsOk [mk_item "Pop" None (Some "spotify:track:p")])].

(** The session resolves and the first search fails. *)
Definition trace_fail : list ev :=
  [EvUi (ActStore (Store.OpInitializeAuth (JsOk true) (JsOk user1)));
   EvTokenDone 0 token_ok; EvFetchDone 0 (JsThrow (ServiceError "Network Error"))].

(** What App renders (App.jsx 191-271): the page it shows, the
    NowPlaying and Playlist tabs only when the search list is not
    empty. *)
Inductive page : Type :=
  | PageInitializing
  | PageAuth
  | PageLoading
  | PageError (message : string)
  | PageTabs (nowPlaying : NowPlaying.Props) (playlist : list Track)
  | PageNoTracks.

Definition render (s : Sys) : page :=
  if Store.authLoading (store s) then PageInitializing
  else if negb (Store.isAuthenticated (store s)) then PageAuth
  else if Playback.loading (app s) then PageLoading
  else if truthy_str (Playback.error (app s)) then PageError (default "" (Playback.error (app s)))
  else if bool_decide (0 < length (Playback.tracks (app s)))%nat
  then PageTabs (NowPlaying.props_of_app (app s)) (Playback.tracks (app s))
  else PageNoTracks.

(** App.jsx 191, 204 and 206-213: the logo titled "Spotify Connected" is
    rendered, once authentication is settled and the user is signed in,
    when [!spotifyToken]. *)
Definition spotify_logo_shown (s : Sys) : bool :=
  negb (Store.authLoading (store s)) && Store.isAuthenticated (store s) &&
  negb (truthy_str (Store.spotifyToken (store s))).

(** The session resolves with a user: the first search is in flight. *)
Definition trace_signed_in : list ev :=
  [EvUi (ActStore (Store.OpInitializeAuth (JsOk true) (JsOk user1)))].

(** The session resolves, the first search answers, the user adds its
    track to the favourites, then searches again and the search fails. *)
Definition trace_favorites_hidden : list ev :=
  [EvUi (ActStore (Store.OpInitializeAuth (JsOk true) (JsOk user1)));
   EvTokenDone 0 token_ok; EvFetchDone 0 (JsOk [mk_item "A" (Some "https://p.scdn.co/a") (Some "spotify:track:a")]);
   EvUi (ActStore (Store.OpAddToFavorites
                     (to_track (mk_item "A" (Some "https://p.scdn.co/a") (Some "spotify:track:a")))));
   EvSearch "artist:drake"; EvTokenDone 1 token_ok;
   EvFetchDone 1 (JsThrow (ServiceError "Network Error"))].

(** Every command sent went to a player object the SDK created, and the
    player in App's state is one of them. *)
Definition commands_to_instances (s : Sys) : Prop :=
  (forall p, Playback.player (app s) = Some p -> p ∈ instances (sdk s)) /\
  Forall (fun ic => exists p, p ∈ instances (sdk s) /\ Playback.player_id p = ic.1) (sent (sdk s)).

(** The requests of the [fetchTracks] calls: call numbers are fresh and
    distinct, a token is recorded only for a call in flight, and each
    call in flight has sent its token request and, once its token came
    back, the search request with the query it closed over and that
    token. *)
Definition requests_ok (h : Hooks) : Prop :=
  NoDup (map fst (inflight h)) /\
  (forall id, id ∈ map fst (inflight h) -> (id < next_fetch h)%nat) /\
  (forall id tok, (id, tok) ∈ tokens h -> id ∈ map fst (inflight h)) /\
  (forall id q, (id, q) ∈ inflight h ->
     (id, SpotifyRequests.token_request) ∈ sent_requests h /\
     forall tok, (id, tok) ∈ tokens h -> (id, SpotifyRequests.search_request q tok) ∈ sent_requests h).

(** The effects have run for the current values of their dependencies. *)
Definition synced (s : Sys) : Prop :=
  e1_deps (hooks s) = Some (Store.spotifyToken (store s), tracks_version (hooks s)) /\
  e3_deps (hooks s) = Some (fetch_deps s).

(** ** Helper lemmas *)

Lemma trace_reachable evs s :
  reachable s -> trace_ok evs s = true -> reachable (run evs s).
Proof.
  revert s. induction evs as [|e evs IH]; intros s Hs Ht; simpl in *; [done|].
  apply andb_true_iff in Ht as [He Ht]. apply IH; [by constructor | done].
Qed.

Lemma player_effect_laws : effect_laws player_effect.
Proof. split; intros s; simpl; unfold player_effect_commit; repeat case_match; simpl; congruence. Qed.

Lemma fetch_effect_laws : effect_laws fetch_effect.
Proof. split; intros s; simpl; unfold fetch_effect_commit; simpl; by destruct (Store.isAuthenticated (store s) && negb (Store.authLoading (store s))). Qed.

Lemma player_fetch_independent : independent player_effect fetch_effect.
Proof.
  split; intros s; simpl; [unfold fetch_effect_commit | unfold player_effect_commit];
    repeat case_match; simpl; split; done.
Qed.

Lemma effect_player_app s : app (effect_player s) = app s.
Proof. apply use_effect_preserves. intros s'. simpl. unfold player_effect_commit. by repeat case_match. Qed.

Lemma effect_player_store s : store (effect_player s) = store s.
Proof. apply use_effect_preserves. intros s'. simpl. unfold player_effect_commit. by repeat case_match. Qed.

(** The search effect only starts a request: whether it runs or not,
    the store is left alone. *)
Lemma flush_store s : store (flush s) = store s.
Proof.
  unfold flush. rewrite <- (effect_player_store s). generalize (effect_player s) as s'. intros s'.
  unfold effect_fetch. try unfold use_effect. try case_bool_decide; reflexivity.
Qed.

Lemma flush_synced s : synced (flush s).
Proof.
  exact (use_effects2_synced _ _ player_effect_laws fetch_effect_laws player_fetch_independent s).
Qed.

Lemma flush_synced_id s : synced s -> flush s = s.
Proof. intros [H1 H3]. exact (use_effects2_skip player_effect fetch_effect s H1 H3). Qed.

Lemma reachable_synced s : reachable s -> synced s.
Proof.
  induction 1 as [|e s _ IH _]; [apply flush_synced|].
  destruct e; simpl; repeat case_match; try apply flush_synced; try done.
Qed.

Lemma flush_app_unauth s :
  Store.isAuthenticated (store s) = false -> app (flush s) = app s.
Proof.
  intros H. unfold flush, effect_fetch, use_effect. case_bool_decide; [apply effect_player_app|].
  simpl. unfold fetch_effect_commit. rewrite effect_player_store, H. apply effect_player_app.
Qed.

Lemma flush_sdk_instances s : instances (sdk (flush s)) = instances (sdk s).
Proof.
  unfold flush, effect_fetch. rewrite (use_effect_preserves fetch_effect (fun s => instances (sdk s))) by done.
  apply (use_effect_preserves player_effect (fun s => instances (sdk s))). intros s'. simpl.
  unfold player_effect_commit, disconnect. by repeat case_match.
Qed.

Lemma flush_sent s : sent (sdk (flush s)) = sent (sdk s).
Proof.
  unfold flush, effect_fetch. rewrite (use_effect_preserves fetch_effect (fun s => sent (sdk s))) by done.
  apply (use_effect_preserves player_effect (fun s => sent (sdk s))). intros s'. simpl.
  unfold player_effect_commit, disconnect. by repeat case_match.
Qed.

Lemma flush_player s : Playback.player (app (flush s)) = Playback.player (app s).
Proof.
  unfold flush, effect_fetch.
  rewrite (use_effect_preserves fetch_effect (fun s => Playback.player (app s))), effect_player_app; [done|].
  intros s'. simpl. unfold fetch_effect_commit. by destruct (_ && _).
Qed.

Lemma find_instance_in k id p : find_instance k id = Some p -> p ∈ instances k.
Proof. unfold find_instance. intros [H _]%find_some. by apply list_elem_of_In. Qed.

Lemma handle_player st e a a' cmds :
  Playback.from_sdk e = false -> Playback.handle st e a = JsOk (a', cmds) ->
  Playback.player a' = Playback.player a /\ (cmds <> [] -> Playback.streaming st a = true).
Proof.
  intros Hsdk H. destruct e; simpl in Hsdk, H; try discriminate;
    unfold Playback.togglePlay, Playback.nextTrack, Playback.prevTrack, Playback.playTrack,
      Playback.play_local, js_map in H;
    simplify_eq; repeat (case_match; simplify_eq); try destruct response;
    (split; [done | intros Hc; first [done | by destruct Hc]]).
Qed.

Lemma streaming_some st a : Playback.streaming st a = true -> exists p, Playback.player a = Some p.
Proof.
  unfold Playback.streaming. intros [H _]%andb_true_iff.
  apply bool_decide_eq_true in H as [p Hp]. eauto.
Qed.

Lemma sdk_loads_instances k p : p ∈ instances k -> p ∈ instances (sdk_loads k).
Proof.
  unfold sdk_loads. intros Hp. repeat case_match; simpl; try done.
  apply elem_of_app. by left.
Qed.

Lemma sdk_loads_sent k : sent (sdk_loads k) = sent k.
Proof. unfold sdk_loads. destruct (loaded k); [done|]. by destruct (ready_cb k) as [[]|]. Qed.

Lemma commands_to_instances_mono s s' :
  commands_to_instances s -> Playback.player (app s') = Playback.player (app s) ->
  sent (sdk s') = sent (sdk s) -> (forall p, p ∈ instances (sdk s) -> p ∈ instances (sdk s')) ->
  commands_to_instances s'.
Proof.
  intros [Hp Hs] Hpl Hsent Hinst. split.
  - intros p Hp'. apply Hinst, Hp. congruence.
  - rewrite Hsent. eapply Forall_impl; [exact Hs|]. intros ic (p & Hin & Hid). eauto.
Qed.

Lemma flush_commands s : commands_to_instances s -> commands_to_instances (flush s).
Proof.
  intros H. apply (commands_to_instances_mono s); [done | apply flush_player | apply flush_sent |].
  intros p. by rewrite flush_sdk_instances.
Qed.

Lemma step_commands e s :
  allowedb e s = true -> commands_to_instances s -> commands_to_instances (step e s).
Proof.
  intros Hall H. destruct e as [a|e'|term|id ta|id r| |id|id st]; simpl in *.
  - destruct (ui_step a (store s)) as [st'|] eqn:E; [|done].
    apply flush_commands. by apply (commands_to_instances_mono s).
  - destruct (Playback.handle _ _ _) as [[a' cmds]|] eqn:Hh; [|done]. apply flush_commands.
    apply andb_true_iff in Hall as [Hsdk _]. apply negb_true_iff in Hsdk.
    destruct (handle_player _ _ _ _ _ Hsdk Hh) as [Hpl Hcmd]. destruct H as [Hp Hs].
    split; simpl; [intros p Hp'; apply Hp; congruence|].
    apply Forall_app. split; [done|]. destruct cmds as [|c cmds]; [constructor|].
    destruct (streaming_some _ _ (Hcmd ltac:(done))) as [p Hpl'].
    apply Forall_forall. intros ic (c' & -> & _)%list_elem_of_fmap. rewrite Hpl'.
    exists p. split; [by apply Hp | done].
  - apply flush_commands. by apply (commands_to_instances_mono s).
  - destruct ta; [by apply (commands_to_instances_mono s)|].
    apply flush_commands. by apply (commands_to_instances_mono s).
  - apply flush_commands. destruct r; by apply (commands_to_instances_mono s).
  - apply (commands_to_instances_mono s); [done | done | apply sdk_loads_sent |].
    intros p. apply sdk_loads_instances.
  - destruct (find_instance _ _) as [p|] eqn:Hf; [|done]. apply flush_commands.
    destruct H as [Hp Hs]. split; [intros p' [= <-]; by eapply find_instance_in | done].
  - destruct (find_instance _ _) as [p|] eqn:Hf; [|done]. apply flush_commands.
    apply (commands_to_instances_mono s); [done | by destruct st | done | done].
Qed.

Lemma elem_of_map_fst {B} (x : nat) (l : list (nat * B)) : x ∈ map fst l <-> exists y, (x, y) ∈ l.
Proof.
  split; [intros ([x' y] & -> & Hin)%list_elem_of_fmap; by exists y|].
  intros [y Hy]. apply list_elem_of_fmap. by exists (x, y).
Qed.

Lemma fetch_query_spec id q h :
  NoDup (map fst (inflight h)) -> (id, q) ∈ inflight h -> fetch_query id h = q.
Proof.
  unfold fetch_query. generalize (inflight h) as l. intros l.
  induction l as [|[i q'] l IH]; simpl; [intros _ Hin; by apply elem_of_nil in Hin|].
  rewrite NoDup_cons. intros [Hi Hnd] [[= -> ->]|Hin]%elem_of_cons; [by rewrite Nat.eqb_refl|].
  destruct (Nat.eqb_spec i id) as [->|]; [|by apply IH].
  exfalso. apply Hi, elem_of_map_fst. by exists q.
Qed.

Lemma requests_ok_ext h h' :
  inflight h' = inflight h -> next_fetch h' = next_fetch h -> tokens h' = tokens h ->
  sent_requests h' = sent_requests h -> requests_ok h -> requests_ok h'.
Proof. unfold requests_ok. intros -> -> -> ->. done. Qed.

Lemma effect_player_book s :
  (inflight (hooks (effect_player s)), next_fetch (hooks (effect_player s)),
   tokens (hooks (effect_player s)), sent_requests (hooks (effect_player s))) =
  (inflight (hooks s), next_fetch (hooks s), tokens (hooks s), sent_requests (hooks s)).
Proof.
  apply (use_effect_preserves player_effect
    (fun s => (inflight (hooks s), next_fetch (hooks s), tokens (hooks s), sent_requests (hooks s)))).
  intros s'. simpl. unfold player_effect_commit. by repeat case_match.
Qed.

Lemma fetch_commit_requests_ok s : requests_ok (hooks s) -> requests_ok (hooks (fetch_effect_commit s)).
Proof.
  intros H. unfold fetch_effect_commit. cbn zeta. unfold requests_ok. cbn [hooks inflight next_fetch tokens sent_requests].
  destruct (Store.isAuthenticated (store s) && negb (Store.authLoading (store s))); [|exact H].
  destruct H as (Hnd & Hlt & Htk & Hreq).
  assert (Hn : next_fetch (hooks s) ∉ map fst (inflight (hooks s))) by (intros H; specialize (Hlt _ H); lia).
  split; [|split; [|split]].
  - rewrite map_app. apply NoDup_app. split; [done|]. split; [|apply NoDup_singleton].
    intros x Hx ->%list_elem_of_singleton. by apply Hn.
  - intros id. rewrite map_app, elem_of_app. cbn [map fst]. rewrite list_elem_of_singleton.
    intros [H| ->]; [specialize (Hlt _ H)|]; lia.
  - intros id tok H. rewrite map_app, elem_of_app. left. by eapply Htk.
  - intros id q. rewrite elem_of_app, list_elem_of_singleton. intros [H|[= -> ->]].
    + destruct (Hreq _ _ H) as [H1 H2]. split; [apply elem_of_app; by left|].
      intros tok Ht. apply elem_of_app. left. by apply H2.
    + split; [apply elem_of_app; right; by left|]. intros tok Ht. exfalso. apply Hn. by eapply Htk.
Qed.

Lemma flush_requests_ok s : requests_ok (hooks s) -> requests_ok (hooks (flush s)).
Proof.
  intros H. unfold flush, effect_fetch.
  apply (use_effect_preserves_prop fetch_effect (fun x => requests_ok (hooks x))).
  - intros x. apply fetch_commit_requests_ok.
  - pose proof (effect_player_book s) as Hb. simplify_eq. by apply (requests_ok_ext (hooks s)).
Qed.

Lemma answer_requests_ok id h : requests_ok h -> requests_ok (answer id h).
Proof.
  intros (Hnd & Hlt & Htk & Hreq). unfold answer, requests_ok. cbn [inflight next_fetch tokens sent_requests].
  split; [by apply Store.nodup_map_filter|]. split; [|split].
  - intros x (y & Hy%elem_of_js_filter)%elem_of_map_fst. apply Hlt, elem_of_map_fst. exists y. apply Hy.
  - intros x tok [Hx Ht]%elem_of_js_filter. apply Htk, elem_of_map_fst in Ht as [q Hq].
    apply elem_of_map_fst. exists q. by apply elem_of_js_filter.
  - intros x q [_ Hq]%elem_of_js_filter. destruct (Hreq _ _ Hq) as [H1 H2]. split; [done|].
    intros tok [_ Ht]%elem_of_js_filter. by apply H2.
Qed.

Lemma token_answered_requests_ok id tok h :
  requests_ok h -> id ∈ map fst (inflight h) -> requests_ok (token_answered id tok h).
Proof.
  intros (Hnd & Hlt & Htk & Hreq) Hin. unfold token_answered, requests_ok.
  cbn [inflight next_fetch tokens sent_requests]. split; [done|]. split; [done|]. split.
  - intros x t. rewrite elem_of_app, list_elem_of_singleton. intros [H|[= -> ->]]; [by eapply Htk | done].
  - intros x q Hq. destruct (Hreq _ _ Hq) as [H1 H2]. split; [apply elem_of_app; by left|].
    intros t. rewrite elem_of_app, list_elem_of_singleton. intros [Ht|Ht].
    + apply elem_of_app. left. by apply H2.
    + injection Ht as -> ->. apply elem_of_app. right. apply list_elem_of_singleton.
      by rewrite (fetch_query_spec _ q h Hnd Hq).
Qed.

Lemma step_requests_ok e s :
  allowedb e s = true -> requests_ok (hooks s) -> requests_ok (hooks (step e s)).
Proof.
  intros Ha H. destruct e as [a|e'|term|id ta|id r| |id|id st]; cbn [step].
  - destruct (ui_step a (store s)); [by apply flush_requests_ok | done].
  - destruct (Playback.handle _ e' _) as [[a' cmds]|]; [by apply flush_requests_ok | done].
  - by apply flush_requests_ok.
  - cbn [allowedb] in Ha. apply andb_true_iff in Ha as [Hin _]. apply bool_decide_eq_true in Hin.
    destruct ta as [d|err]; cbn [SpotifyRequests.getSpotifyToken snd].
    + by apply token_answered_requests_ok.
    + apply flush_requests_ok. by apply answer_requests_ok.
  - apply flush_requests_ok. by apply answer_requests_ok.
  - done.
  - destruct (find_instance _ _); [by apply flush_requests_ok | done].
  - destruct (find_instance _ _); [by apply flush_requests_ok | done].
Qed.

Lemma reachable_requests_ok s : reachable s -> requests_ok (hooks s).
Proof.
  induction 1 as [|e s _ IH Ha]; [|by apply step_requests_ok].
  apply flush_requests_ok. split; [constructor|]. split; [intros ? Hx; by apply elem_of_nil in Hx|].
  split; [intros ? ? Hx; by apply elem_of_nil in Hx | intros ? ? Hx; by apply elem_of_nil in Hx].
Qed.

Lemma reachable_run_trace evs : trace_ok evs init = true -> reachable (run evs init).
Proof. intros H. apply trace_reachable; [constructor | exact H]. Qed.

(** The spinner is on only while a search is in flight. *)
Lemma effect_player_inflight s : inflight (hooks (effect_player s)) = inflight (hooks s).
Proof.
  apply (use_effect_preserves player_effect (fun s => inflight (hooks s))). intros s'. simpl.
  unfold player_effect_commit. by repeat case_match.
Qed.

Lemma flush_spinner s :
  (Playback.loading (app s) = true -> inflight (hooks s) <> []) ->
  Playback.loading (app (flush s)) = true -> inflight (hooks (flush s)) <> [].
Proof.
  intros H. unfold flush, effect_fetch.
  apply (use_effect_preserves_prop fetch_effect
           (fun x => Playback.loading (app x) = true -> inflight (hooks x) <> [])).
  - intros x Hx. simpl. unfold fetch_effect_commit. simpl.
    destruct (_ && _); simpl; [intros _ Hn; by apply app_nil in Hn as [_ ?] | exact Hx].
  - by rewrite effect_player_app, effect_player_inflight.
Qed.

Lemma step_spinner e s :
  allowedb e s = true -> (Playback.loading (app s) = true -> inflight (hooks s) <> []) ->
  Playback.loading (app (step e s)) = true -> inflight (hooks (step e s)) <> [].
Proof.
  intros Ha H. destruct e as [a|e'|term|id ta|id r| |id|id st]; simpl.
  - destruct (ui_step a (store s)); [by apply flush_spinner | done].
  - destruct (Playback.handle _ e' _) as [[a' cmds]|] eqn:E; [|done]. apply flush_spinner. simpl.
    assert (He : match e' with Playback.EvFetchStart | Playback.EvFetchDone _ => False | _ => True end)
      by (simpl in Ha; destruct e'; done || discriminate (andb_prop _ _ Ha).2).
    pose proof (Playback.handle_keeps_loading _ e' _ _ He E) as Hl. simpl in Hl. by rewrite Hl.
  - apply flush_spinner. exact H.
  - destruct ta; [exact H|].
    apply flush_spinner. simpl. discriminate.
  - apply flush_spinner. simpl. unfold Playback.fetchTracks_done. by destruct r.
  - exact H.
  - destruct (find_instance _ _); [by apply flush_spinner | done].
  - destruct (find_instance _ _); [|done]. apply flush_spinner. simpl.
    rewrite Playback.onPlayerStateChanged_loading. exact H.
Qed.

Lemma reachable_spinner s :
  reachable s -> Playback.loading (app s) = true -> inflight (hooks s) <> [].
Proof.
  induction 1 as [|e s _ IH Ha]; [|by apply step_spinner].
  apply flush_spinner. simpl. discriminate.
Qed.

(** A render after an answer does not start a search: the search effect
    is synced when its dependencies did not move. *)
Lemma flush_fetch_synced s : effect_synced fetch_effect s -> flush s = effect_player s.
Proof.
  intros Hs. unfold flush, effect_fetch. apply use_effect_skip.
  unfold effect_synced, effect_player.
  destruct (use_effect_other2 player_effect fetch_effect player_fetch_independent s) as [-> ->].
  exact Hs.
Qed.

Lemma flush_app_fetch_synced s : effect_synced fetch_effect s -> app (flush s) = app s.
Proof. intros Hs. rewrite flush_fetch_synced by done. apply effect_player_app. Qed.

(** An answer leaves the dependencies of the search effect alone:
    [fetchTracks] sets [tracks], [loading] and [error], not [query], and
    the store is untouched. *)
Lemma answer_fetch_synced s id r :
  reachable s ->
  effect_synced fetch_effect (with_hooks (answer id (hooks s)) (with_app (Playback.fetchTracks_done r (app s)) s)).
Proof.
  intros Hs. destruct (reachable_synced s Hs) as [_ H3]. unfold effect_synced. simpl. rewrite H3.
  unfold Playback.fetchTracks_done. by destruct r.
Qed.

(** The end of a [fetchTracks] call, after its answer or after a
    failed token request: App's state is [fetchTracks]' and the render
    after it starts no other call. *)
Lemma answer_app s id r :
  reachable s ->
  app (flush (with_hooks (answer id (hooks s)) (with_app (Playback.fetchTracks_done r (app s)) s))) =
  Playback.fetchTracks_done r (app s).
Proof. intros Hs. rewrite flush_app_fetch_synced by (by apply answer_fetch_synced). done. Qed.

Lemma step_answer_app s id r :
  reachable s -> app (step (EvFetchDone id r) s) = Playback.fetchTracks_done r (app s).
Proof. apply answer_app. Qed.

Lemma step_token_fail_app s id e :
  reachable s -> app (step (EvTokenDone id (JsThrow e)) s) = Playback.fetchTracks_done (JsThrow e) (app s).
Proof. apply answer_app. Qed.

Lemma filter_out_length (id : nat) (l : list (nat * string)) :
  id ∈ map fst l -> (length (List.filter (fun q => negb (Nat.eqb q.1 id)) l) < length l)%nat.
Proof.
  induction l as [|[i q] l IH]; simpl; intros Hin; [by apply elem_of_nil in Hin|].
  pose proof (List.filter_length_le (fun q => negb (Nat.eqb q.1 id)) l) as Hle.
  destruct (Nat.eqb_spec i id) as [->|Hne]; simpl; [lia|].
  apply elem_of_cons in Hin as [->|Hin]; [done|]. specialize (IH Hin). lia.
Qed.

Lemma answer_inflight s id r :
  reachable s -> id ∈ map fst (inflight (hooks s)) ->
  (length (inflight (hooks (flush (with_hooks (answer id (hooks s))
     (with_app (Playback.fetchTracks_done r (app s)) s))))) < length (inflight (hooks s)))%nat.
Proof.
  intros Hs Hin. rewrite flush_fetch_synced by (by apply answer_fetch_synced).
  rewrite effect_player_inflight. simpl. by apply filter_out_length.
Qed.

(** The answer to a search in flight removes its call. *)
Lemma step_answer_inflight s id r :
  reachable s -> id ∈ map fst (inflight (hooks s)) ->
  (length (inflight (hooks (step (EvFetchDone id r) s))) < length (inflight (hooks s)))%nat.
Proof. apply answer_inflight. Qed.

(** A token answer keeps the call in flight and sends its search. *)
Lemma step_token_ok s id d :
  step (EvTokenDone id (JsOk d)) s = with_hooks (token_answered id (SpotifyRequests.access_token d) (hooks s)) s.
Proof. reflexivity. Qed.

Lemma quiesce_fuel n ta r s :
  reachable s -> (2 * length (inflight (hooks s)) <= n)%nat ->
  exists s', quiesce n ta r s = Some s' /\ reachable s' /\ inflight (hooks s') = [].
Proof.
  revert s. induction n as [n IH] using lt_wf_ind. intros s Hs Hn.
  destruct n as [|n]; cbn [quiesce].
  { destruct (inflight (hooks s)) eqn:Hi; [by exists s | simpl in Hn; lia]. }
  destruct (inflight (hooks s)) as [|[id q] rest] eqn:Hi; [by exists s|].
  assert (Hin : id ∈ map fst (inflight (hooks s))) by (rewrite Hi; left).
  case_bool_decide as Ht.
  - apply IH; [lia | apply reachable_step; [done | simpl; by rewrite bool_decide_eq_true_2] |].
    pose proof (step_answer_inflight s id r Hs Hin) as Hlt. rewrite Hi in Hlt. cbn [length] in Hn, Hlt. lia.
  - assert (Ha : allowedb (EvTokenDone id ta) s = true).
    { simpl. rewrite bool_decide_eq_true_2, bool_decide_eq_false_2 by done. done. }
    destruct ta as [d|e].
    + destruct n as [|n]; [simpl in Hn; lia|]. rewrite step_token_ok.
      set (s1 := with_hooks (token_answered id (SpotifyRequests.access_token d) (hooks s)) s).
      assert (Hi1 : inflight (hooks s1) = (id, q) :: rest) by exact Hi.
      assert (Hs1 : reachable s1) by (unfold s1; rewrite <- step_token_ok; by apply reachable_step).
      assert (Hin1 : id ∈ map fst (tokens (hooks s1))).
      { unfold s1. simpl. rewrite map_app. apply elem_of_app. right. left. }
      cbn [quiesce]. rewrite Hi1, bool_decide_eq_true_2 by done.
      apply IH; [lia | apply reachable_step; [done | cbn [allowedb]; by rewrite bool_decide_eq_true_2] |].
      pose proof (step_answer_inflight s1 id r Hs1 ltac:(by rewrite Hi1; left)) as Hlt.
      rewrite Hi1 in Hlt. cbn [length] in Hn, Hlt. lia.
    + apply IH; [lia | by apply reachable_step |].
      pose proof (answer_inflight s id (JsThrow e) Hs Hin) as Hlt. rewrite Hi in Hlt.
      cbn [length] in Hn, Hlt. cbn [step SpotifyRequests.getSpotifyToken snd]. lia.
Qed.

(** ** Properties of the whole component *)

(** C19: a successful logout resets the store and nothing else: the
    store after it does not depend on the state before and holds no
    favourite, playlist, selection, user or token, while App's playback
    state ([tracks], [trackIndex], [isPlaying], [player]) is left as it
    was; and App does reach states where a track is playing (the spec
    asks logout to reset the playback state to non-playing and to drop
    the streaming session). *)
Theorem logout_keeps_playback :
  (forall s1 s2, store (step (EvUi (ActStore (Store.OpLogout None))) s1) =
                 store (step (EvUi (ActStore (Store.OpLogout None))) s2)) /\
  (forall s, let s' := step (EvUi (ActStore (Store.OpLogout None))) s in
     Store.favorites (store s') = [] /\ Store.playlists (store s') = ∅ /\
     Store.currentPlaylist (store s') = None /\ Store.user (store s') = None /\
     Store.spotifyToken (store s') = None /\ app s' = app s) /\
  exists s, reachable s /\ Playback.isPlaying (app s) = true.
Proof.
  split; [|split].
  - intros s1 s2. simpl. by rewrite !flush_store.
  - intros s. simpl. rewrite flush_store, flush_app_unauth by done. done.
  - exists (run trace_local_play init). split; [apply reachable_run_trace|]; vm_compute; reflexivity.
Qed.

(** C20: App can hold and use a player the effect cleanup has
    disconnected: after two search answers the effect of App.jsx 42-75
    has run its cleanup with the player of an earlier render, so the
    player in App's state is no longer connected while App still sends
    it the user's commands. *)
Theorem player_disconnected_while_in_use :
  exists s p, reachable s /\ Playback.player (app s) = Some p /\
    Playback.streaming (store s) (app s) = true /\ (Playback.player_id p ∉ connected (sdk s)) /\
    sent (sdk (step (EvTransport Playback.EvNextTrack) s)) =
      sent (sdk s) ++ [(Playback.player_id p, Playback.SdkNextTrack)].
Proof.
  exists (run trace_hosted init), Playback.early_player.
  split; [apply reachable_run_trace; vm_compute; reflexivity|].
  split; [vm_compute; reflexivity|]. split; [vm_compute; reflexivity|].
  split; [apply (bool_decide_unpack _); vm_compute; reflexivity | vm_compute; reflexivity].
Qed.

(** The SDK listener closes over the [tracks] of the render that
    installed [onSpotifyWebPlaybackSDKReady]: when the SDK loads before
    the first search answers, a notification for a track of the current
    list sets [trackIndex] to -1. *)
Lemma stale_listener_loses_track :
  exists s ss t, reachable s /\ (0 ∈ connected (sdk s)) /\
    (t ∈ Playback.tracks (app s)) /\ uri t = Playback.current_track_uri ss /\
    Playback.trackIndex (app (step (EvPlayerState 0 (Some ss)) s)) = (-1)%Z.
Proof.
  exists (run (firstn 6 trace_hosted) init),
    {| Playback.paused := false; Playback.current_track_uri := Some "spotify:track:a" |},
    (to_track (mk_item "A" None (Some "spotify:track:a"))).
  split; [apply reachable_run_trace; vm_compute; reflexivity|].
  split; [apply (bool_decide_unpack _); vm_compute; reflexivity|].
  split; [apply (bool_decide_unpack _); vm_compute; reflexivity|].
  split; vm_compute; reflexivity.
Qed.

(** C21: submitting the search form with the query already in effect
    starts no request and changes nothing shown: the effect of App.jsx
    134-136 only runs when [query] changes.  After a failed search the
    page says "Please try again", but trying the same query again does
    not refetch (the spec says a catalog failure is retryable). *)
Theorem search_same_query_no_fetch s term :
  reachable s -> Playback.query (handleSearch term (app s)) = Playback.query (app s) ->
  inflight (hooks (step (EvSearch term) s)) = inflight (hooks s) /\
  Playback.tracks (app (step (EvSearch term) s)) = Playback.tracks (app s) /\
  Playback.error (app (step (EvSearch term) s)) = Playback.error (app s).
Proof.
  intros Hr Hq. destruct (reachable_synced s Hr) as [H1 H3].
  assert (Hs : synced (with_app (handleSearch term (app s)) s)).
  { split; [exact H1|]. unfold fetch_deps in *. cbn [with_app app hooks store]. rewrite Hq. exact H3. }
  change (step (EvSearch term) s) with (flush (with_app (handleSearch term (app s)) s)).
  by rewrite (flush_synced_id _ Hs).
Qed.

(** C22: asynchronous completions are not fenced.  With two searches in
    flight, the answer to the earlier query arriving last replaces the
    results, so the list shown belongs to a query that is no longer the
    current one, and nothing is loading any more. *)
Theorem stale_response_overwrites :
  exists s, reachable s /\ Playback.query (app s) = "artist:drake" /\
    inflight (hooks s) = [] /\ Playback.loading (app s) = false /\
    Playback.tracks (app s) = fetched_tracks [mk_item "Pop" None (Some "spotify:track:p")].
Proof.
  exists (run trace_race init).
  split; [apply reachable_run_trace; vm_compute; reflexivity|].
  repeat split; vm_compute; reflexivity.
Qed.

(** C23: in every reachable state, each command App has sent went to a
    player object the SDK created, and the player in App's state is one
    of them; and the requests of the [fetchTracks] calls are well
    addressed: every call in flight has a fresh number, has sent the
    token request, and once its token came back has sent the search
    request for the query that call closed over, with that token, even
    when a later search has changed the query since. *)
Theorem outputs_well_addressed s : reachable s -> commands_to_instances s /\ requests_ok (hooks s).
Proof.
  intros Hr. split; [|by apply reachable_requests_ok].
  induction Hr as [|e s _ IH Hall].
  - split; [intros p Hp; discriminate | constructor].
  - by apply step_commands.
Qed.

(** C26: what App renders.  The favourites and the playlists are
    reached only through the Playlist tab, which App renders only when
    the search list is not empty and the last search did not fail: with
    no tracks no page shows the tabs, and a reachable state holds a
    favourite while its page is the error message of a failed search.
    The logo titled "Spotify Connected" is shown when there is no
    Spotify token: a signed-in user without one sees it, and once the
    token is set and the streaming player is ready it disappears. *)
Theorem favorites_hidden_without_results :
  (forall s, Playback.tracks (app s) = [] -> forall np l, render s <> PageTabs np l) /\
  (exists s, reachable s /\ Store.favorites (store s) <> [] /\
             render s = PageError "Failed to load tracks. Please try again.") /\
  (exists s, reachable s /\ Store.spotifyToken (store s) = None /\ spotify_logo_shown s = true) /\
  (exists s, reachable s /\ is_Some (Playback.player (app s)) /\ spotify_logo_shown s = false).
Proof.
  split; [|split; [|split]].
  - intros s Ht np l. unfold render. rewrite Ht. by repeat case_match.
  - exists (run trace_favorites_hidden init).
    split; [apply reachable_run_trace; vm_compute; reflexivity|].
    split; vm_compute; [discriminate | reflexivity].
  - exists (run trace_favorites_hidden init).
    split; [apply reachable_run_trace; vm_compute; reflexivity|]. vm_compute. auto.
  - exists (run trace_hosted init).
    split; [apply reachable_run_trace; vm_compute; reflexivity|]. vm_compute. split; [eexists|]; reflexivity.
Qed.

(** C24: the loading message always ends: in every reachable state
    "Loading tracks..." is shown only while a [fetchTracks] call is in
    flight; the answer to its search request, a result or an error, or
    a failure of its token request turns it off (the render after it
    starts no new search), so at most one answer of the network reaches
    a state without it. *)
Theorem loading_always_ends s :
  reachable s ->
  (Playback.loading (app s) = true -> inflight (hooks s) <> []) /\
  (forall id r, Playback.loading (app (step (EvFetchDone id r) s)) = false) /\
  (forall id e, Playback.loading (app (step (EvTokenDone id (JsThrow e)) s)) = false) /\
  exists evs, (length evs <= 1)%nat /\ trace_ok evs s = true /\ Playback.loading (app (run evs s)) = false.
Proof.
  intros Hs. pose proof (reachable_spinner s Hs) as Hsp.
  assert (Hdone : forall id r, Playback.loading (app (step (EvFetchDone id r) s)) = false).
  { intros id r. rewrite step_answer_app by done. unfold Playback.fetchTracks_done. by destruct r. }
  assert (Hfail : forall id e, Playback.loading (app (step (EvTokenDone id (JsThrow e)) s)) = false).
  { intros id e. by rewrite step_token_fail_app. }
  split; [exact Hsp | split; [exact Hdone | split; [exact Hfail|]]].
  destruct (Playback.loading (app s)) eqn:Hl; [|exists []; split; [simpl; lia | split; [done | exact Hl]]].
  destruct (inflight (hooks s)) as [|[id q] rest] eqn:Hi; [by destruct (Hsp eq_refl)|].
  destruct (decide (id ∈ map fst (tokens (hooks s)))) as [Ht|Ht].
  - exists [EvFetchDone id (JsThrow (ServiceError "Network Error"))]. split; [simpl; lia|].
    split; [|apply Hdone]. cbn [trace_ok allowedb]. by rewrite bool_decide_eq_true_2.
  - exists [EvTokenDone id (JsThrow (ServiceError "Network Error"))]. split; [simpl; lia|].
    split; [|apply Hfail]. cbn [trace_ok allowedb]. rewrite Hi.
    rewrite bool_decide_eq_true_2, bool_decide_eq_false_2 by (done || left). done.
Qed.

(** C25: the search traffic terminates: from every reachable state, the
    network answering the [fetchTracks] calls in flight, oldest first,
    with any answers to their token and search requests, leaves no call
    in flight and the spinner off after at most two answers per call in
    flight.  No answer starts a search: [fetchTracks] sets [tracks],
    [loading] and [error], none of which is a dependency of the effect
    of App.jsx 134-136. *)
Theorem fetches_quiesce s ta r :
  reachable s ->
  exists s', quiesce (2 * length (inflight (hooks s))) ta r s = Some s' /\ reachable s' /\
    inflight (hooks s') = [] /\ Playback.loading (app s') = false.
Proof.
  intros Hs. destruct (quiesce_fuel (2 * length (inflight (hooks s))) ta r s Hs (le_n _)) as (s' & Hq & Hr & Hi).
  exists s'. split; [done | split; [done | split; [done|]]].
  destruct (Playback.loading (app s')) eqn:Hl; [|done]. by destruct (reachable_spinner s' Hr Hl).
Qed.

(** ** Witnesses *)

Lemma search_same_query_no_fetch_witness :
  reachable (run trace_fail init) /\
  Playback.query (handleSearch "genre:pop" (app (run trace_fail init)))
    = Playback.query (app (run trace_fail init)) /\
  Playback.error (app (run trace_fail init)) = Some "Failed to load tracks. Please try again." /\
  inflight (hooks (step (EvSearch "genre:pop") (run trace_fail init)))
    = inflight (hooks (run trace_fail init)) /\
  Playback.tracks (app (step (EvSearch "genre:pop") (run trace_fail init)))
    = Playback.tracks (app (run trace_fail init)) /\
  Playback.error (app (step (EvSearch "genre:pop") (run trace_fail init)))
    = Playback.error (app (run trace_fail init)).
Proof.
  assert (Hr : reachable (run trace_fail init)) by (apply reachable_run_trace; vm_compute; reflexivity).
  assert (Hq : Playback.query (handleSearch "genre:pop" (app (run trace_fail init)))
    = Playback.query (app (run trace_fail init))) by (vm_compute; reflexivity).
  split; [exact Hr | split; [exact Hq | split; [vm_compute; reflexivity |]]].
  apply search_same_query_no_fetch; [exact Hr | exact Hq].
Defined.

Lemma favorites_hidden_without_results_witness :
  render (run trace_fail init) <> PageTabs (NowPlaying.props_of_app (app (run trace_fail init))) [].
Proof.
  apply (proj1 favorites_hidden_without_results). vm_compute. reflexivity.
Defined.

Lemma loading_always_ends_witness :
  Playback.loading (app (run trace_signed_in init)) = true /\
  exists evs, (length evs <= 1)%nat /\ trace_ok evs (run trace_signed_in init) = true /\
    Playback.loading (app (run evs (run trace_signed_in init))) = false.
Proof.
  split; [vm_compute; reflexivity|].
  apply (loading_always_ends (run trace_signed_in init)). apply reachable_run_trace. vm_compute. reflexivity.
Defined.

Lemma outputs_well_addressed_witness :
  reachable (step (EvTransport Playback.EvNextTrack) (run trace_hosted init)) /\
  commands_to_instances (step (EvTransport Playback.EvNextTrack) (run trace_hosted init)) /\
  requests_ok (hooks (step (EvTransport Playback.EvNextTrack) (run trace_hosted init))).
Proof.
  assert (Hr : reachable (step (EvTransport Playback.EvNextTrack) (run trace_hosted init))).
  { apply reachable_step; [apply reachable_run_trace |]; vm_compute; reflexivity. }
  split; [exact Hr |]. apply outputs_well_addressed. exact Hr.
Defined.

Lemma fetches_quiesce_witness :
  exists s', quiesce (2 * length (inflight (hooks (run trace_signed_in init)))) token_ok (JsOk [])
    (run trace_signed_in init) = Some s' /\
    reachable s' /\ inflight (hooks s') = [] /\ Playback.loading (app s') = false.
Proof.
  apply fetches_quiesce. apply reachable_run_trace. vm_compute. reflexivity.
Defined.

End App.
