(* ===== verification/Time.v ===== *)
(** * Times on screen: [formatTime] of NowPlaying.jsx and Playlist.jsx

    Module [JsNum] holds the JavaScript number operations the two
    functions use: [Math.floor], the remainder [%] of two numbers,
    [toString] of an integral number (the decimal notation of the
    Standard Library's [DecimalString], which has no leading zeros and a
    minus sign, as JavaScript prints integers) and
    [String.prototype.padStart].  Numbers are rationals [Q]: positions
    and durations are integral milliseconds divided by 1000, which a
    double holds exactly enough that no floor or remainder of the code
    changes for values below 2^53 / 1000 ms.  Modules [NowPlayingTime]
    and [PlaylistTime] translate the two [formatTime]s; [Clock] reads a
    displayed ["m:ss"] back and holds the theorems. *)

From Stdlib Require Import QArith Qround Ascii DecimalString DecimalZ.
From S2P Require Import Prelude React Track Playback Views.

Module JsNum.

(** [Math.floor] *)
Definition floor (q : Q) : Z := Qfloor q.

(** The truncation of the quotient in [a % b] (toward zero). *)
Definition trunc (q : Q) : Z := if Qle_bool 0 q then Qfloor q else - Qfloor (- q).

(** [a % b]: [a - b * trunc(a / b)], with the sign of [a]. *)
Definition rem (a b : Q) : Q := a - b * inject_Z (trunc (a / b)).

(** [n.toString()] for an integral number [n]. *)
Definition int_toString (z : Z) : string := NilZero.string_of_int (Z.to_int z).

(** [s.padStart(n, pad)]: [s] when it is long enough or [pad] is empty,
    otherwise [pad] repeated and cut to the missing length, then [s]. *)
Definition padStart (n : nat) (pad s : string) : string :=
  let len := String.length s in
  if (n <=? len)%nat || bool_decide (pad = "") then s
  else String.string_of_list_ascii
         (take (n - len) (concat (replicate (n - len) (String.list_ascii_of_string pad)))) +:+ s.

(** A number as a value: finite, [NaN] or an infinity (with its sign).
    Division by zero yields the infinity of the dividend's sign (the
    divisors here are durations, never [-0]). *)
Definition negative (q : Q) : bool := negb (Qle_bool 0 q).

Inductive number : Type :=
  | Fin (q : Q)
  | NaN
  | Inf (negative : bool).

Definition div (a b : number) : number :=
  match a, b with
  | Fin x, Fin y =>
      if Qeq_bool y 0 then (if Qeq_bool x 0 then NaN else Inf (negative x)) else Fin (x / y)
  | Inf s, Fin y => if Qeq_bool y 0 then Inf s else Inf (xorb s (negative y))
  | Fin _, Inf _ => Fin 0
  | _, _ => NaN
  end.

Definition mul (a b : number) : number :=
  match a, b with
  | Fin x, Fin y => Fin (x * y)
  | Inf s, Fin y | Fin y, Inf s => if Qeq_bool y 0 then NaN else Inf (xorb s (negative y))
  | Inf s, Inf t => Inf (xorb s t)
  | _, _ => NaN
  end.

(** [0], [-0] and [NaN] are falsy. *)
Definition truthy (a : number) : bool :=
  match a with Fin q => negb (Qeq_bool q 0) | NaN => false | Inf _ => true end.

(** [a || b] *)
Definition or (a b : number) : number := if truthy a then a else b.

End JsNum.

Module NowPlayingTime.

(** NowPlaying.jsx 40-44: [time] in seconds. *)
Definition formatTime (time : Q) : string :=
  let minutes := JsNum.floor (time / 60) in
  let seconds := JsNum.padStart 2 "0" (JsNum.int_toString (JsNum.floor (JsNum.rem time 60))) in
  JsNum.int_toString minutes +:+ ":" +:+ seconds.

End NowPlayingTime.

Module PlaylistTime.

(** Playlist.jsx 32-37: [ms] in milliseconds.  [seconds] is an integer
    (the result of [Math.floor]); [%] on integers is [Z.rem]. *)
Definition formatTime (ms : Q) : string :=
  let seconds := JsNum.floor (ms / 1000) in
  let minutes := JsNum.floor (inject_Z seconds / 60) in
  let secs := JsNum.padStart 2 "0" (JsNum.int_toString (Z.rem seconds 60)) in
  JsNum.int_toString minutes +:+ ":" +:+ secs.

End PlaylistTime.

Module Clock.

(** Reading a displayed time ["m:ss"]: the text before the first [":"]
    is an integer, the text after it exactly two digits below 60. *)
Fixpoint split_colon (l : list ascii) : option (list ascii * list ascii) :=
  match l with
  | [] => None
  | c :: l' =>
      if Ascii.eqb c ":" then Some ([], l')
      else (fun '(a, b) => (c :: a, b)) <$> split_colon l'
  end.

Definition parse_secs (l : list ascii) : option Z :=
  if (length l =? 2)%nat then
    u ← NilZero.uint_of_string (String.string_of_list_ascii l);
    let v := Z.of_uint u in if (v <? 60)%Z then Some v else None
  else None.

Definition parse_clock (s : string) : option (Z * Z) :=
  '(m, ss) ← split_colon (String.list_ascii_of_string s);
  d ← NilZero.int_of_string (String.string_of_list_ascii m);
  v ← parse_secs ss;
  Some (Z.of_int d, v).

(** The number of seconds a displayed time stands for. *)
Definition clock_value (s : string) : option Z :=
  (fun '(m, v) => 60 * m + v)%Z <$> parse_clock s.

End Clock.

Module NowPlayingClock.
Import NowPlaying.

(** The fields of the SDK's [player_state_changed] state the listener
    reads: [state.position] and [state.duration], in milliseconds. *)
Record SdkTiming := {
  position : Q;
  sdk_duration : Q
}.

(** NowPlaying's clock: the states [currentTime] and [duration]
    (NowPlaying.jsx 8-9), the player whose listener is attached and the
    last value of the effect's dependency [player]. *)
Record State := {
  currentTime : Q;
  duration : Q;
  listener : option nat;
  deps : option (option nat)
}.

Definition initial : State :=
  {| currentTime := 0; duration := 0; listener := None; deps := None |}.

(** NowPlaying.jsx 23-31: [handlePlayerState]. *)
Definition handlePlayerState (st : option SdkTiming) (c : State) : State :=
  match st with
  | None => {| currentTime := 0; duration := 0; listener := listener c; deps := deps c |}
  | Some t => {| currentTime := position t / 1000; duration := sdk_duration t / 1000;
                 listener := listener c; deps := deps c |}
  end.

(** NowPlaying.jsx 20-38, deps [[player]]: when the player changed, the
    cleanup removes the listener from the previous player, then the
    effect returns early without a player or attaches the listener. *)
Definition clock_effect (p : option Playback.SdkPlayer) : effect State (option nat) :=
  {| React.deps := fun _ => Playback.player_id <$> p;
     React.last_deps := deps;
     React.commit := fun c => {| currentTime := currentTime c; duration := duration c;
                                 listener := Playback.player_id <$> p;
                                 deps := Some (Playback.player_id <$> p) |} |}.

Definition effect (p : option Playback.SdkPlayer) (c : State) : State := use_effect (clock_effect p) c.

(** The SDK delivers a notification of player [id] to the listener
    attached to that player. *)
Definition notify (id : nat) (st : option SdkTiming) (c : State) : State :=
  if bool_decide (listener c = Some id) then handlePlayerState st c else c.

Inductive ev : Type :=
  | Render (p : Props)
  | Notify (id : nat) (st : option SdkTiming).

Definition step (e : ev) (c : State) : State :=
  match e with
  | Render p => effect (player p) c
  | Notify id st => notify id st c
  end.

Definition run (evs : list ev) : State := fold_left (fun c e => step e c) evs initial.

(** NowPlaying.jsx 105: [(currentTime / duration) * 100 || 0]. *)
Definition progress_width (c : State) : JsNum.number :=
  JsNum.or (JsNum.mul (JsNum.div (JsNum.Fin (currentTime c)) (JsNum.Fin (duration c))) (JsNum.Fin 100))
           (JsNum.Fin 0).

(** NowPlaying.jsx 95-96 and 105: the two times and the bar's width. *)
Definition display (c : State) : string * string * JsNum.number :=
  (NowPlayingTime.formatTime (currentTime c), NowPlayingTime.formatTime (duration c), progress_width c).

(** The SDK's contract on a notification: [0 <= position <= duration]. *)
Definition timing_ok (e : ev) : Prop :=
  match e with
  | Notify _ (Some t) => (0 <= position t <= sdk_duration t)%Q
  | _ => True
  end.

(** The clock never leaves [0 <= currentTime <= duration]. *)
Definition clock_ok (c : State) : Prop := (0 <= currentTime c <= duration c)%Q.

Definition sample_player : Playback.SdkPlayer :=
  {| Playback.player_id := 3; Playback.listener_tracks := []; Playback.oauth_token := "BQD-token" |}.

Definition sample_clock_events : list ev :=
  [Render {| track := None; isPlaying := true; player := Some sample_player |};
   Notify 3 (Some {| position := 30000; sdk_duration := 180000 |})].

End NowPlayingClock.

Module TimeFacts.
Import Clock.

(** ** Strings *)

Lemma list_ascii_of_string_app x y :
  String.list_ascii_of_string (x +:+ y) = String.list_ascii_of_string x ++ String.list_ascii_of_string y.
Proof. induction x as [|c x IH]; simpl; [done | by rewrite IH]. Qed.

Lemma int_toString_no_colon z :
  Forall (fun c => c <> ":"%char) (String.list_ascii_of_string (JsNum.int_toString z)).
Proof.
  assert (Hu : forall d, Forall (fun c => c <> ":"%char)
                 (String.list_ascii_of_string (NilEmpty.string_of_uint d))).
  { induction d; simpl; constructor; done. }
  unfold JsNum.int_toString, NilZero.string_of_int, NilZero.string_of_uint.
  destruct (Z.to_int z) as [d|d]; [|constructor; [done|]]; destruct d; simpl; auto.
Qed.

Lemma split_colon_app l1 l2 :
  Forall (fun c => c <> ":"%char) l1 -> split_colon (l1 ++ ":"%char :: l2) = Some (l1, l2).
Proof.
  induction 1 as [|c l1 Hc _ IH]; [done|].
  simpl. rewrite IH. destruct (Ascii.eqb_spec c ":"); [done|reflexivity].
Qed.

Lemma split_colon_str x y :
  Forall (fun c => c <> ":"%char) (String.list_ascii_of_string x) ->
  split_colon (String.list_ascii_of_string (x +:+ ":" +:+ y))
  = Some (String.list_ascii_of_string x, String.list_ascii_of_string y).
Proof. intros Hx. rewrite !list_ascii_of_string_app. by apply split_colon_app. Qed.

Lemma int_toString_parse z :
  NilZero.int_of_string (JsNum.int_toString z) = Some (Z.to_int z).
Proof.
  apply NilZero.isi; destruct z as [|p|p]; simpl; try done;
    destruct (Pos.to_uint p) eqn:E; try done;
    pose proof (DecimalPos.Unsigned.of_to p) as Hp; rewrite E in Hp; done.
Qed.

(** The two-digit seconds field, checked on its sixty values. *)
Lemma parse_secs_pad r :
  (0 <= r < 60)%Z ->
  parse_secs (String.list_ascii_of_string (JsNum.padStart 2 "0" (JsNum.int_toString r))) = Some r.
Proof.
  intros Hr.
  assert (Hall : forallb (fun k => bool_decide (parse_secs (String.list_ascii_of_string
             (JsNum.padStart 2 "0" (JsNum.int_toString (Z.of_nat k)))) = Some (Z.of_nat k)))
             (seq 0 60) = true) by (vm_compute; reflexivity).
  rewrite forallb_forall in Hall.
  specialize (Hall (Z.to_nat r)). rewrite Z2Nat.id in Hall by lia.
  apply (bool_decide_eq_true (parse_secs _ = _)), Hall, in_seq. lia.
Qed.

Lemma clock_value_render m r :
  (0 <= r < 60)%Z ->
  clock_value (JsNum.int_toString m +:+ ":" +:+ JsNum.padStart 2 "0" (JsNum.int_toString r))
  = Some (60 * m + r)%Z.
Proof.
  intros Hr. unfold clock_value, parse_clock.
  rewrite split_colon_str by apply int_toString_no_colon. simpl.
  rewrite String.string_of_list_ascii_of_string, int_toString_parse, parse_secs_pad by done.
  simpl. by rewrite DecimalZ.of_to.
Qed.

(** ** Numbers *)

Lemma floor_div60 (t : Q) : JsNum.floor (t / 60) = (JsNum.floor t / 60)%Z.
Proof.
  destruct t as [a b]. unfold JsNum.floor, Qfloor. simpl.
  rewrite Pos2Z.inj_mul, Z.mul_1_r, Z.div_div; lia.
Qed.

Lemma floor_sub_int (t : Q) z : JsNum.floor (t - inject_Z z) = (JsNum.floor t - z)%Z.
Proof.
  destruct t as [a b]. unfold JsNum.floor, Qfloor, Qminus, Qplus. simpl.
  rewrite Pos.mul_1_r, Z.mul_1_r, Z.div_add by lia. lia.
Qed.

Lemma floor_nonneg (t : Q) : (0 <= t)%Q -> (0 <= JsNum.floor t)%Z.
Proof. intros Ht. exact (Qfloor_resp_le 0 t Ht). Qed.

Lemma floor_inject z : JsNum.floor (inject_Z z) = z.
Proof. apply Qfloor_Z. Qed.

Lemma trunc_nonneg (q : Q) : (0 <= q)%Q -> JsNum.trunc q = JsNum.floor q.
Proof. intros Hq. unfold JsNum.trunc. apply Qle_bool_iff in Hq. by rewrite Hq. Qed.

Lemma floor_rem60 (t : Q) : (0 <= t)%Q -> JsNum.floor (JsNum.rem t 60) = (JsNum.floor t mod 60)%Z.
Proof.
  intros Ht. unfold JsNum.rem.
  rewrite trunc_nonneg, floor_div60.
  2: { apply Qle_shift_div_l; [done|]. by rewrite Qmult_0_l. }
  assert (Hq : t - 60 * inject_Z (JsNum.floor t / 60) == t - inject_Z (60 * (JsNum.floor t / 60)))
    by (rewrite inject_Z_mult; reflexivity).
  unfold JsNum.floor at 1. rewrite Hq. fold (JsNum.floor (t - inject_Z (60 * (JsNum.floor t / 60)))).
  rewrite floor_sub_int, Z.mod_eq; lia.
Qed.

Lemma ms_to_seconds_nonneg (ms : Q) : (0 <= ms)%Q -> (0 <= ms / 1000)%Q.
Proof. intros Hms. apply Qle_shift_div_l; [reflexivity|]. by rewrite Qmult_0_l. Qed.

(** ** The clock *)

Local Open Scope Q_scope.

Section RunInvariant.
Import NowPlayingClock.
Context (P : State -> Prop) (allowed : ev -> Prop).
Hypothesis P_step : forall e c, allowed e -> P c -> P (step e c).

Lemma fold_invariant evs c :
  Forall allowed evs -> P c -> P (fold_left (fun c e => step e c) evs c).
Proof using P_step. intros Hevs. revert c. induction Hevs; simpl; auto. Qed.

Lemma run_invariant evs : P initial -> Forall allowed evs -> P (run evs).
Proof using P_step. intros Hi Hevs. by apply fold_invariant. Qed.

End RunInvariant.

Lemma step_clock_ok e c :
  NowPlayingClock.timing_ok e -> NowPlayingClock.clock_ok c ->
  NowPlayingClock.clock_ok (NowPlayingClock.step e c).
Proof.
  unfold NowPlayingClock.clock_ok. intros He Hc.
  destruct e as [p|id [t|]]; simpl.
  - unfold NowPlayingClock.effect, use_effect. by case_bool_decide.
  - unfold NowPlayingClock.notify. case_bool_decide; [|done]. simpl in He |- *.
    destruct He as [H0 H1]. split.
    + apply ms_to_seconds_nonneg, H0.
    + apply Qmult_le_compat_r; [done|]. by apply Qinv_le_0_compat.
  - unfold NowPlayingClock.notify. case_bool_decide; [|done]. simpl. split; apply Qle_refl.
Qed.

Lemma width_in_range c :
  NowPlayingClock.clock_ok c ->
  exists w, NowPlayingClock.progress_width c = JsNum.Fin w /\ (0 <= w <= 100)%Q.
Proof.
  unfold NowPlayingClock.clock_ok, NowPlayingClock.progress_width.
  set (t := NowPlayingClock.currentTime c). set (d := NowPlayingClock.duration c). intros [H0 H1].
  assert (Hd0 : 0 <= d) by (eapply Qle_trans; eauto).
  simpl. destruct (Qeq_bool d 0) eqn:Ed.
  - assert (Ec : Qeq_bool t 0 = true).
    { apply Qeq_bool_iff, Qle_antisym; [|done]. apply Qle_trans with d; [done|].
      apply Qle_lteq. right. by apply Qeq_bool_iff. }
    rewrite Ec. exists 0. split; [done|]. split; discriminate.
  - destruct (proj1 (Qle_lteq _ _) Hd0) as [Hd|Heq].
    2: { by rewrite (proj2 (Qeq_bool_iff d 0) (Qeq_sym _ _ Heq)) in Ed. }
    assert (Hq : 0 <= t / d <= 1).
    { split; [apply Qle_shift_div_l; [done|]; by rewrite Qmult_0_l|].
      apply Qle_shift_div_r; [done|]. by rewrite Qmult_1_l. }
    unfold JsNum.or, JsNum.mul.
    destruct (JsNum.truthy _); eexists; (split; [reflexivity|]); try (split; discriminate).
    destruct Hq as [Hq0 Hq1]. split.
    + by apply (Qmult_le_0_compat _ 100).
    + rewrite <- (Qmult_1_l 100) at 2. by apply Qmult_le_compat_r.
Qed.

(** ** Theorems *)

(** C30: round trip of both clocks: for a duration of [ms >= 0]
    milliseconds, Playlist's [formatTime(ms)] reads back, as minutes, a
    colon and a two-digit seconds field below 60, the whole number of
    seconds [Math.floor(ms / 1000)]; for a position [time >= 0] in
    seconds, NowPlaying's [formatTime(time)] reads back as
    [Math.floor(time)] the same way. *)
Theorem playlist_formatTime_roundtrip (ms time : Q) :
  (0 <= ms)%Q -> (0 <= time)%Q ->
  clock_value (PlaylistTime.formatTime ms) = Some (JsNum.floor (ms / 1000)) /\
  clock_value (NowPlayingTime.formatTime time) = Some (JsNum.floor time).
Proof.
  intros Hms Ht. split.
  - unfold PlaylistTime.formatTime. cbv zeta.
    pose proof (floor_nonneg _ (ms_to_seconds_nonneg ms Hms)).
    rewrite floor_div60, floor_inject, Z.rem_mod_nonneg by lia.
    rewrite clock_value_render by (apply Z.mod_pos_bound; lia).
    f_equal. symmetry. apply Z.div_mod. lia.
  - unfold NowPlayingTime.formatTime. cbv zeta.
    pose proof (floor_nonneg time Ht).
    rewrite floor_div60, floor_rem60 by done.
    rewrite clock_value_render by (apply Z.mod_pos_bound; lia).
    f_equal. symmetry. apply Z.div_mod. lia.
Qed.

(** C31: the two implementations agree: for [ms >= 0], NowPlaying's
    [formatTime] of the position in seconds [ms / 1000] (how its listener
    converts the SDK's milliseconds) prints what Playlist's [formatTime]
    prints for [ms]. *)
Theorem formatTime_implementations_agree (ms : Q) :
  (0 <= ms)%Q -> NowPlayingTime.formatTime (ms / 1000) = PlaylistTime.formatTime ms.
Proof.
  intros Hms. unfold NowPlayingTime.formatTime, PlaylistTime.formatTime. cbv zeta.
  pose proof (ms_to_seconds_nonneg ms Hms) as Ht.
  pose proof (floor_nonneg _ Ht).
  by rewrite floor_rem60, !floor_div60, floor_inject, Z.rem_mod_nonneg by (done || lia).
Qed.

Lemma playlist_formatTime_roundtrip_witness :
  clock_value (PlaylistTime.formatTime (215400 # 1)) = Some 215%Z /\
  clock_value (NowPlayingTime.formatTime (3599 # 10)) = Some 359%Z.
Proof.
  apply (playlist_formatTime_roundtrip (215400 # 1) (3599 # 10)); vm_compute; discriminate.
Defined.

Lemma formatTime_implementations_agree_witness :
  NowPlayingTime.formatTime ((215400 # 1) / 1000) = PlaylistTime.formatTime (215400 # 1).
Proof. apply (formatTime_implementations_agree (215400 # 1)). vm_compute. discriminate. Defined.

(** C32: NowPlaying as App renders it is cut off from the player: App
    passes no [player] prop, so the effect never attaches
    [handlePlayerState]; whatever the SDK reports, the component shows
    "0:00" twice and an empty progress bar ([0 / 0] is [NaN] and
    [NaN * 100 || 0] is 0), and a click on the bar returns before
    [player.seek] in every state. *)
Theorem clock_frozen_in_app evs :
  Forall (fun e => match e with
                   | NowPlayingClock.Render p => exists s, p = NowPlaying.props_of_app s
                   | NowPlayingClock.Notify _ _ => True
                   end) evs ->
  NowPlayingClock.display (NowPlayingClock.run evs) = ("0:00", "0:00", JsNum.Fin 0) /\
  forall s percent duration, NowPlaying.handleSeek (NowPlaying.props_of_app s) percent duration = None.
Proof.
  intros Hevs. split; [|done].
  set (frozen := fun c => NowPlayingClock.listener c = None /\
                           NowPlayingClock.currentTime c = 0 /\ NowPlayingClock.duration c = 0).
  assert (H : frozen (NowPlayingClock.run evs)).
  { refine (run_invariant frozen _ _ evs _ Hevs); [|done].
    intros [p|id st] c He (Hl & Ht & Hd); unfold frozen.
    - destruct He as [s ->]. unfold NowPlayingClock.step, NowPlayingClock.effect, use_effect.
      case_bool_decide; simpl; auto.
    - unfold NowPlayingClock.step, NowPlayingClock.notify. rewrite Hl.
      case_bool_decide; [done|auto]. }
  destruct H as (_ & Ht & Hd). unfold NowPlayingClock.display, NowPlayingClock.progress_width. by rewrite Ht, Hd.
Qed.

(** C33: the progress bar stays within [0%, 100%]: from the mount, for
    every sequence of renders and SDK notifications that respect the
    SDK's [0 <= position <= duration], the width
    [(currentTime / duration) * 100 || 0] is a finite number between 0
    and 100 (a zero duration gives [NaN], and [|| 0] turns it into 0). *)
Theorem progress_width_bounds evs :
  Forall NowPlayingClock.timing_ok evs ->
  exists w, NowPlayingClock.progress_width (NowPlayingClock.run evs) = JsNum.Fin w /\ (0 <= w <= 100)%Q.
Proof.
  intros Hevs. apply width_in_range, (run_invariant _ _ step_clock_ok); [|done].
  split; apply Qle_refl.
Qed.

Lemma clock_frozen_in_app_witness :
  NowPlayingClock.display (NowPlayingClock.run
    [NowPlayingClock.Render (NowPlaying.props_of_app Playback.initial);
     NowPlayingClock.Notify 0 (Some {| NowPlayingClock.position := 30000; NowPlayingClock.sdk_duration := 180000 |})])
  = ("0:00", "0:00", JsNum.Fin 0).
Proof.
  refine (proj1 (clock_frozen_in_app _ _)). repeat constructor. by exists Playback.initial.
Defined.

Lemma progress_width_bounds_witness :
  exists w, NowPlayingClock.progress_width (NowPlayingClock.run NowPlayingClock.sample_clock_events) = JsNum.Fin w /\ (0 <= w <= 100)%Q.
Proof. apply progress_width_bounds. repeat constructor; simpl; vm_compute; discriminate. Defined.

End TimeFacts.
