(* ===== verification/AudioPlayer.v ===== *)
(** * Player.jsx: the NowPlaying variant of the [<audio>] element

    src/src/components/Player.jsx is a component no file imports.  It
    shows [track.title] and [track.artist] without optional chaining,
    the transport buttons, the two times and a progress bar whose clock
    follows the [<audio>] element passed in [audioRef]: an effect on
    [[track]] attaches [timeupdate] and [loadedmetadata] listeners to
    [audioRef.current] (when there is one) and its cleanup removes them
    from the element it attached them to.  A click on the bar assigns
    [percent * duration] to the element's [currentTime], whose setter
    throws a [TypeError] on a non-finite value.

    The element is outside the component: it is named by a number, and
    the events it fires carry its [currentTime] or [duration]. *)

From Stdlib Require Import QArith.
From S2P Require Import Prelude React Track Time.

Module AudioPlayer.

(** Player.jsx 3: the props the component reads, with [audioRef.current]. *)
Record Props := {
  track : option Track;
  isPlaying : bool;
  audio : option nat
}.

(** Player.jsx 5-6 and the effect's bookkeeping: the listeners attached
    to an element, as (element, effect run) pairs; the element and run
    the current cleanup removes; the last value of the dependency. *)
Record State := {
  currentTime : JsNum.number;
  duration : JsNum.number;
  listeners : list (nat * nat);
  cleanup : option (nat * nat);
  deps : option (option Track);
  next_run : nat
}.

Definition initial : State := {|
  currentTime := JsNum.Fin 0; duration := JsNum.Fin 0; listeners := []; cleanup := None;
  deps := None; next_run := 0
|}.

(** Player.jsx 8-22: the cleanup of the previous run removes its two
    listeners from its element; then the body returns early without an
    element or attaches the listeners of the new run. *)
Definition audio_effect_commit (p : Props) (s : State) : State :=
  let ls := match cleanup s with
            | Some x => List.filter (fun y => negb (bool_decide (y = x))) (listeners s)
            | None => listeners s
            end in
  match audio p with
  | None => {| currentTime := currentTime s; duration := duration s; listeners := ls;
               cleanup := None; deps := Some (track p); next_run := next_run s |}
  | Some el => {| currentTime := currentTime s; duration := duration s;
                  listeners := ls ++ [(el, next_run s)]; cleanup := Some (el, next_run s);
                  deps := Some (track p); next_run := S (next_run s) |}
  end.

Definition audio_effect (p : Props) : effect State (option Track) :=
  {| React.deps := fun _ => track p; React.last_deps := deps; React.commit := audio_effect_commit p |}.

(** The element fires an event; a listener attached to it runs. *)
Definition attached (el : nat) (s : State) : bool := bool_decide (Exists (fun x => x.1 = el) (listeners s)).

Inductive ev : Type :=
  | Render (p : Props)
  | TimeUpdate (el : nat) (t : Q)
  | LoadedMetadata (el : nat) (d : JsNum.number).

(** Player.jsx 12-13: [setCurrentTime(audio.currentTime)] and
    [setDuration(audio.duration)]. *)
Definition step (e : ev) (s : State) : State :=
  match e with
  | Render p => use_effect (audio_effect p) s
  | TimeUpdate el t =>
      if attached el s then
        {| currentTime := JsNum.Fin t; duration := duration s; listeners := listeners s;
           cleanup := cleanup s; deps := deps s; next_run := next_run s |}
      else s
  | LoadedMetadata el d =>
      if attached el s then
        {| currentTime := currentTime s; duration := d; listeners := listeners s;
           cleanup := cleanup s; deps := deps s; next_run := next_run s |}
      else s
  end.

Definition run (evs : list ev) (s : State) : State := fold_left (fun s e => step e s) evs s.

(** Player.jsx 24-28 on a number: [Math.floor] and [%] of [NaN] or of an
    infinity are [NaN], printed "NaN" whatever the padding. *)
Definition formatTime (t : JsNum.number) : string :=
  match t with
  | JsNum.Fin q => NowPlayingTime.formatTime q
  | JsNum.NaN => "NaN:NaN"
  | JsNum.Inf false => "Infinity:NaN"
  | JsNum.Inf true => "-Infinity:NaN"
  end.

(** Player.jsx 64 *)
Definition progress_width (s : State) : JsNum.number :=
  JsNum.or (JsNum.mul (JsNum.div (currentTime s) (duration s)) (JsNum.Fin 100)) (JsNum.Fin 0).

Record View := {
  heading : string;
  subheading : string;
  play_label : string;
  time_labels : string * string;
  width : JsNum.number
}.

(** Player.jsx 38-69: [track.title] throws when [track] is undefined. *)
Definition render (p : Props) (s : State) : js_result View :=
  match track p with
  | None => JsThrow (TypeError "Cannot read properties of undefined (reading 'title')")
  | Some t => JsOk {| heading := title t; subheading := artist t;
                      play_label := if isPlaying p then "Pause" else "Play";
                      time_labels := (formatTime (currentTime s), formatTime (duration s));
                      width := progress_width s |}
  end.

(** Player.jsx 30-36: a click at fraction [percent] of the bar sets the
    element's [currentTime] to [percent * duration] (seconds); the
    setter throws on a non-finite number, and there is no element to
    set when [audioRef.current] is null.  The result is the element and
    the time it is set to. *)
Definition handleSeek (p : Props) (percent : Q) (s : State) : js_result (nat * Q) :=
  match audio p with
  | None => JsThrow (TypeError "Cannot set properties of null (setting 'currentTime')")
  | Some el =>
      match JsNum.mul (JsNum.Fin percent) (duration s) with
      | JsNum.Fin q => JsOk (el, q)
      | _ => JsThrow (TypeError "The provided double value is non-finite.")
      end
  end.

(** The element keeps its own listeners: every listener attached is the
    one the current cleanup removes. *)
Definition listeners_ok (s : State) : Prop :=
  listeners s = match cleanup s with Some x => [x] | None => [] end /\
  (forall el k, cleanup s = Some (el, k) -> k < next_run s).

(** An element 7 whose metadata gave a duration of 30 seconds, with the
    listeners of a render of track A attached. *)
Definition sample_props : Props := {| track := Some track_A; isPlaying := true; audio := Some 7%nat |}.
Definition sample_state : State :=
  fold_left (fun s e => step e s) [Render sample_props; LoadedMetadata 7 (JsNum.Fin 30)] initial.

End AudioPlayer.

Module AudioPlayerFacts.
Import AudioPlayer.
Local Open Scope Q_scope.

(** ** Helper lemmas *)

Lemma audio_effect_laws p : effect_laws (audio_effect p).
Proof. split; intros s; simpl; unfold audio_effect_commit; by destruct (audio p). Qed.

Lemma filter_singleton_self (x : nat * nat) :
  List.filter (fun y => negb (bool_decide (y = x))) [x] = [].
Proof. simpl. by rewrite bool_decide_eq_true_2. Qed.

Lemma commit_listeners_ok p s : listeners_ok s -> listeners_ok (audio_effect_commit p s).
Proof.
  intros [Hl Hk]. unfold audio_effect_commit, listeners_ok.
  destruct (cleanup s) as [x|]; rewrite Hl; [rewrite filter_singleton_self|];
    destruct (audio p) as [el|]; simpl; split; try done; intros ? ? [= <- <-]; lia.
Qed.

Lemma step_listeners_ok e s : listeners_ok s -> listeners_ok (step e s).
Proof.
  intros H. destruct e as [p|el t|el d]; simpl.
  - apply (use_effect_preserves_prop (audio_effect p)); [|done]. apply commit_listeners_ok.
  - by destruct (attached el s).
  - by destruct (attached el s).
Qed.

Lemma run_listeners_ok evs s : listeners_ok s -> listeners_ok (run evs s).
Proof.
  revert s. induction evs as [|e evs IH]; intros s Hs; [done|]. apply IH, step_listeners_ok, Hs.
Qed.

Lemma progress_width_fraction (t d : Q) :
  ~ d == 0 -> exists w, JsNum.or (JsNum.mul (JsNum.div (JsNum.Fin t) (JsNum.Fin d)) (JsNum.Fin 100)) (JsNum.Fin 0)
                        = JsNum.Fin w /\ w == t / d * 100.
Proof.
  intros Hd. unfold JsNum.div. destruct (Qeq_bool d 0) eqn:E; [apply Qeq_bool_iff in E; contradiction|].
  unfold JsNum.or, JsNum.mul, JsNum.truthy. destruct (Qeq_bool (t / d * 100) 0) eqn:Ew; simpl.
  - apply Qeq_bool_iff in Ew. exists 0%Q. split; [done|]. by rewrite Ew.
  - exists (t / d * 100). split; [done | reflexivity].
Qed.

(** ** Theorems *)

(** C34: the effect on [[track]] never leaks a listener: after any
    sequence of renders (with any props, any element or none) and
    element events, the listeners attached are exactly the pair of the
    last run that found an element, the one its cleanup removes, so at
    most one element drives the clock. *)
Theorem listeners_never_leak evs :
  listeners_ok (run evs initial) /\ (length (listeners (run evs initial)) <= 1)%nat.
Proof.
  assert (H : listeners_ok (run evs initial)) by (apply run_listeners_ok; split; [done | intros ? ? ?; discriminate]).
  split; [exact H|]. destruct H as [-> _]. destruct (cleanup (run evs initial)); simpl; lia.
Qed.

(** C35: a click on the bar moves the element and then the bar to the
    clicked fraction: with a finite non-zero duration, [handleSeek] at
    [percent] sets the element's [currentTime] to [percent * duration],
    and once the element reports it the width is [percent * 100].
    With the duration of a stream ([Infinity]) every click throws, at
    the left edge too ([0 * Infinity] is [NaN]). *)
Theorem seek_moves_bar p s el percent :
  audio p = Some el -> attached el s = true ->
  (forall d, duration s = JsNum.Fin d -> ~ d == 0 ->
     handleSeek p percent s = JsOk (el, percent * d) /\
     exists w, progress_width (step (TimeUpdate el (percent * d)) s) = JsNum.Fin w /\ w == percent * 100) /\
  (duration s = JsNum.Inf false -> exists e, handleSeek p percent s = JsThrow e).
Proof.
  intros Hel Hat. split.
  - intros d Hd Hd0. unfold handleSeek. rewrite Hel, Hd. split; [done|].
    cbn [step]. rewrite Hat. unfold progress_width. cbn [currentTime duration]. rewrite Hd.
    destruct (progress_width_fraction (percent * d) d Hd0) as (w & -> & Hw).
    exists w. split; [done|]. rewrite Hw. field. exact Hd0.
  - intros Hd. unfold handleSeek. rewrite Hel, Hd. simpl. destruct (Qeq_bool percent 0); eauto.
Qed.

Lemma seek_moves_bar_witness :
  handleSeek sample_props (1 # 4) sample_state = JsOk (7%nat, (1 # 4) * 30) /\
  exists w, progress_width (step (TimeUpdate 7 ((1 # 4) * 30)) sample_state) = JsNum.Fin w /\ w == (1 # 4) * 100.
Proof.
  refine (proj1 (seek_moves_bar sample_props sample_state 7 (1 # 4) eq_refl eq_refl) 30 eq_refl _).
  discriminate.
Defined.

End AudioPlayerFacts.
