(* ===== verification/AuthEffect.v ===== *)
(** * The auth effect of App.jsx 77-103

    On mount, [setupAuth] awaits the store's [initializeAuth], then
    calls [setUser] when the component is still mounted and a user came
    back, then subscribes a listener to Supabase's [onAuthStateChange].
    The function it returns to unsubscribe is the value of the promise
    of [setupAuth], which nobody reads; the effect's own cleanup only
    sets its [isMounted] to false.

    The listener is called by the Supabase client (supabase-js v2, whose
    [data.subscription] API App.jsx 83 and 91 use): once with
    [INITIAL_SESSION] and the client's session of that moment, some time
    after it subscribed, and then on every auth change, with the new
    session.

    The model is a state machine over the store, the [isMounted] flag of
    every effect run (a closure, numbered), the runs whose
    [initializeAuth] is still awaited, the closures whose listener is
    subscribed, those still waiting for their [INITIAL_SESSION] call,
    and the user of the client's session.  The environment mounts and
    unmounts the component, answers [getSession] and [getUser] (their
    answers are inputs, like every answer of the network), reports auth
    changes and delivers the initial sessions. *)

From S2P Require Import Prelude Track Store.

Module AuthEffect.

Record Sys := {
  store : Store.State;
  mounted : list (nat * bool);
  pending : list nat;
  listeners : list nat;
  initial : list nat;
  session : option User;
  next_run : nat
}.

Definition is_mounted (s : Sys) (k : nat) : bool :=
  bool_decide ((k, true) ∈ mounted s).

Inductive ev : Type :=
  | Mount
  | Unmount (k : nat)
  | InitDone (k : nat) (getSession : js_result bool) (getUser : js_result User)
  | AuthChange (session_user : option User)
  | InitialSession (k : nat).

(** App.jsx 78-81, 96: a new run with [isMounted = true] calls
    [setupAuth()], which waits for [initializeAuth]. *)
Definition mount (s : Sys) : Sys :=
  {| store := store s; mounted := mounted s ++ [(next_run s, true)];
     pending := pending s ++ [next_run s]; listeners := listeners s; initial := initial s;
     session := session s; next_run := S (next_run s) |}.

(** App.jsx 100-102: the cleanup of run [k]. *)
Definition unmount (k : nat) (s : Sys) : Sys :=
  {| store := store s;
     mounted := map (fun '(j, m) => if Nat.eqb j k then (j, false) else (j, m)) (mounted s);
     pending := pending s; listeners := listeners s; initial := initial s;
     session := session s; next_run := next_run s |}.

(** App.jsx 81-93: [initializeAuth] of run [k] resolves (its own [set]
    happens whether or not the component is mounted), then
    [if (isMounted && initialUser) setUser(initialUser)], then the
    listener is subscribed and its [INITIAL_SESSION] call is due; the
    returned unsubscribe function is lost. *)
Definition init_done (k : nat) (r1 : js_result bool) (r2 : js_result User) (s : Sys) : Sys :=
  let '(initialUser, st) := Store.initializeAuth r1 r2 (store s) in
  let st' := match initialUser with
             | Some u => if is_mounted s k then Store.setUser (Some u) st else st
             | None => st
             end in
  {| store := st'; mounted := mounted s;
     pending := List.filter (fun j => negb (Nat.eqb j k)) (pending s);
     listeners := listeners s ++ [k]; initial := initial s ++ [k];
     session := session s; next_run := next_run s |}.

(** App.jsx 84-88, the listener of run [k] called with a session:
    [if (!isMounted) return; setUser(session?.user ?? null)]. *)
Definition listener (s : Sys) (u : option User) (st : Store.State) (k : nat) : Store.State :=
  if is_mounted s k then Store.setUser u st else st.

(** An auth change: the client's session becomes [u] and the client
    calls every subscribed listener, in the order of subscription. *)
Definition auth_change (u : option User) (s : Sys) : Sys :=
  {| store := fold_left (listener s u) (listeners s) (store s);
     mounted := mounted s; pending := pending s; listeners := listeners s; initial := initial s;
     session := u; next_run := next_run s |}.

(** The client calls the listener of run [k] with [INITIAL_SESSION] and
    its current session. *)
Definition initial_session (k : nat) (s : Sys) : Sys :=
  {| store := listener s (session s) (store s) k;
     mounted := mounted s; pending := pending s; listeners := listeners s;
     initial := List.filter (fun j => negb (Nat.eqb j k)) (initial s);
     session := session s; next_run := next_run s |}.

Definition allowedb (e : ev) (s : Sys) : bool :=
  match e with
  | Mount => true
  | Unmount k => is_mounted s k
  | InitDone k _ _ => bool_decide (k ∈ pending s)
  | AuthChange _ => true
  | InitialSession k => bool_decide (k ∈ initial s)
  end.

Definition step (e : ev) (s : Sys) : Sys :=
  match e with
  | Mount => mount s
  | Unmount k => unmount k s
  | InitDone k r1 r2 => init_done k r1 r2 s
  | AuthChange u => auth_change u s
  | InitialSession k => initial_session k s
  end.

(** Nothing mounted yet; the client holds the session [u] read from
    its storage. *)
Definition init_with (u : option User) : Sys :=
  {| store := Store.initial; mounted := []; pending := []; listeners := []; initial := [];
     session := u; next_run := 0 |}.

Inductive reachable : Sys -> Prop :=
  | reach_init u : reachable (init_with u)
  | reach_step e s : reachable s -> allowedb e s = true -> reachable (step e s).

Fixpoint run (evs : list ev) (s : Sys) : Sys :=
  match evs with [] => s | e :: evs' => run evs' (step e s) end.

Fixpoint trace_ok (evs : list ev) (s : Sys) : bool :=
  match evs with [] => true | e :: evs' => allowedb e s && trace_ok evs' (step e s) end.

(** The bookkeeping of the runs: numbers are fresh, a pending run was
    mounted, the subscribed listeners are the runs whose
    [initializeAuth] has resolved, and an [INITIAL_SESSION] call is due
    only to a subscribed listener. *)
Definition runs_ok (s : Sys) : Prop :=
  (forall k, k ∈ map fst (mounted s) -> k < next_run s) /\
  (forall k, k ∈ pending s -> k ∈ map fst (mounted s)) /\
  (forall k, k ∈ listeners s <-> k ∈ map fst (mounted s) /\ k ∉ pending s) /\
  (forall k, k ∈ initial s -> k ∈ listeners s).

(** The store agrees with the client's session. *)
Definition follows_session (s : Sys) : Prop :=
  Store.user (store s) = session s /\
  Store.isAuthenticated (store s) = bool_decide (is_Some (session s)) /\
  Store.authLoading (store s) = false.

Definition user_u : User := {| user_id := "u1"; email := Some "listener@example.com" |}.

(** The client holds a session; App mounts; the user signs out in
    another tab while [getSession] and [getUser] are on their way;
    they answer with the session they had read; then the new listener
    gets its [INITIAL_SESSION] call. *)
Definition trace_signout_during_init : list ev :=
  [Mount; AuthChange None; InitDone 0 (JsOk true) (JsOk user_u); InitialSession 0].

(** Mount, unmount, mount again (as a remount does), both runs
    complete. *)
Definition trace_remount : list ev :=
  [Mount; Unmount 0; Mount; InitDone 0 (JsOk true) (JsOk user_u);
   InitDone 1 (JsOk true) (JsOk user_u)].

End AuthEffect.

Module AuthEffectFacts.
Import AuthEffect.

(** ** Helper lemmas *)

Lemma auth_trace_reachable evs s : reachable s -> trace_ok evs s = true -> reachable (run evs s).
Proof.
  revert s. induction evs as [|e evs IH]; intros s Hs Htr; simpl in *; [done|].
  apply andb_prop in Htr as [He Htr]. apply IH; [|done]. by constructor.
Qed.

Lemma unmount_ids k s : map fst (mounted (unmount k s)) = map fst (mounted s).
Proof. simpl. rewrite map_map. apply map_ext. intros [j m]. by destruct (Nat.eqb j k). Qed.

Lemma step_runs_ok e s : allowedb e s = true -> runs_ok s -> runs_ok (step e s).
Proof.
  intros Ha (Hfresh & Hpend & Hl & Hi). destruct e as [|k|k r1 r2|u|k]; simpl in Ha |- *.
  - assert (Hn : next_run s ∉ map fst (mounted s)) by (intros H; specialize (Hfresh _ H); lia).
    unfold runs_ok; simpl. rewrite map_app. simpl. split; [|split; [|split]].
    + intros k. rewrite elem_of_app, list_elem_of_singleton.
      intros [Hk| ->]; [specialize (Hfresh k Hk)|]; lia.
    + set_solver.
    + intros k. rewrite Hl. set_solver.
    + done.
  - unfold runs_ok. rewrite unmount_ids. done.
  - unfold init_done. destruct (Store.initializeAuth r1 r2 (store s)) as [iu st].
    apply bool_decide_eq_true in Ha. pose proof (Hpend k Ha).
    unfold runs_ok; simpl. split; [done|]. split; [|split].
    + intros j. rewrite elem_of_js_filter. intros [_ Hj]. auto.
    + intros j. rewrite elem_of_app, list_elem_of_singleton, elem_of_js_filter, Hl.
      destruct (Nat.eqb_spec j k) as [->|Hjk]; simpl; naive_solver.
    + intros j. rewrite !elem_of_app. intros [Hj|Hj]; [left; auto | by right].
  - done.
  - unfold runs_ok; simpl. split; [done|]. split; [done|]. split; [done|].
    intros j [_ Hj]%elem_of_js_filter. auto.
Qed.

Lemma reachable_runs_ok s : reachable s -> runs_ok s.
Proof.
  induction 1 as [u|e s _ IH Ha]; [|by apply step_runs_ok].
  unfold runs_ok; simpl. split; [intros k Hk; inversion Hk|]. split; [intros k Hk; inversion Hk|].
  split; [|intros k Hk; inversion Hk].
  intros k. split; [intros Hk; inversion Hk | intros [Hk _]; inversion Hk].
Qed.

(** A run of the listeners of which one is mounted leaves the store as
    a last [setUser u] left it. *)
Lemma fold_listener_setUser s u ls st :
  (exists k, k ∈ ls /\ is_mounted s k = true) ->
  exists st', fold_left (listener s u) ls st = Store.setUser u st'.
Proof.
  induction ls as [|j ls IH] using rev_ind; intros [k [Hk Hm]]; [by apply elem_of_nil in Hk|].
  rewrite fold_left_app. simpl. unfold listener at 1.
  destruct (is_mounted s j) eqn:Hj; [by eexists|].
  apply IH. exists k. split; [|done].
  apply elem_of_app in Hk as [Hk|Hk%list_elem_of_singleton]; [done | subst; congruence].
Qed.

Lemma setUser_follows u st s :
  session s = u -> store s = Store.setUser u st -> follows_session s.
Proof. intros Hs Hst. unfold follows_session. rewrite Hst, Hs. done. Qed.

(** With the one run mounted, the listeners are that run. *)
Lemma single_run_listener s k j :
  runs_ok s -> mounted s = [(k, true)] -> j ∈ listeners s -> j = k.
Proof.
  intros (_ & _ & Hl & _) Hm Hj. apply Hl in Hj as [Hj _]. rewrite Hm in Hj.
  by apply list_elem_of_singleton in Hj.
Qed.

Lemma step_follows e s k :
  allowedb e s = true -> runs_ok s ->
  (mounted s = [(k, true)] -> k ∈ listeners s -> k ∉ initial s -> follows_session s) ->
  mounted (step e s) = [(k, true)] -> k ∈ listeners (step e s) -> k ∉ initial (step e s) ->
  follows_session (step e s).
Proof.
  intros Ha Hok IH. destruct e as [|j|j r1 r2|u|j]; simpl in Ha |- *.
  - intros Hm Hk. exfalso. destruct Hok as (_ & _ & Hl & _). apply Hl in Hk as [Hk _].
    destruct (mounted s) as [|? [|]]; simpl in Hm, Hk; [by apply elem_of_nil in Hk | congruence..].
  - intros Hm. exfalso. apply bool_decide_eq_true in Ha.
    destruct (mounted s) as [|[i b] [|]]; simpl in Hm; [done| |congruence].
    apply list_elem_of_singleton in Ha. injection Ha as Hji Hb. subst.
    rewrite Nat.eqb_refl in Hm. congruence.
  - unfold init_done. destruct (Store.initializeAuth r1 r2 (store s)). simpl. intros Hm _ Hi.
    exfalso. apply Hi. apply elem_of_app. right. apply list_elem_of_singleton.
    apply bool_decide_eq_true in Ha. destruct Hok as (_ & Hp & _). specialize (Hp j Ha).
    rewrite Hm in Hp. by apply list_elem_of_singleton in Hp.
  - intros Hm Hk Hi. destruct (fold_listener_setUser s u (listeners s) (store s)) as [st' Hst'].
    { exists k. split; [done|]. unfold is_mounted. rewrite Hm. apply bool_decide_eq_true. by left. }
    by apply (setUser_follows u st').
  - intros Hm Hk Hi. apply bool_decide_eq_true in Ha.
    assert (j = k) as -> by (apply (single_run_listener s k j Hok Hm); destruct Hok as (_ & _ & _ & Hi'); auto).
    unfold follows_session, initial_session, listener, is_mounted; cbn [store session]. rewrite Hm, bool_decide_eq_true_2 by by left.
    done.
Qed.


Lemma reachable_follows s k :
  reachable s -> mounted s = [(k, true)] -> k ∈ listeners s -> k ∉ initial s -> follows_session s.
Proof.
  intros Hr. induction Hr as [u|e s Hr IH Ha]; [intros Hm; discriminate Hm|].
  apply step_follows; [done | by apply reachable_runs_ok | exact IH].
Qed.

(** ** Theorems *)

(** C36: the Supabase subscription is never cancelled: in every reachable
    state the subscribed listeners are exactly the effect runs whose
    [initializeAuth] has resolved, unmounted runs included, because the
    unsubscribe function [setupAuth] returns is the value of a promise
    nobody reads, and an [INITIAL_SESSION] call is due only to a
    subscribed listener.  And the store follows the client's session:
    when App is mounted once (one effect run, mounted) and its listener
    has had its [INITIAL_SESSION] call, the store's user, its
    [isAuthenticated] flag and its [authLoading] flag are those of the
    client's session, whatever [getSession] and [getUser] answered and
    whatever auth changes came while [initializeAuth] was pending. *)
Theorem auth_listeners_follow_session :
  (forall s, reachable s ->
     (forall k, k ∈ listeners s <-> k ∈ map fst (mounted s) /\ k ∉ pending s) /\
     (forall k, k ∈ initial s -> k ∈ listeners s)) /\
  (forall s k, reachable s -> mounted s = [(k, true)] -> k ∈ listeners s -> k ∉ initial s ->
     Store.user (store s) = session s /\
     Store.isAuthenticated (store s) = bool_decide (is_Some (session s)) /\
     Store.authLoading (store s) = false).
Proof.
  split.
  - intros s Hs. destruct (reachable_runs_ok s Hs) as (_ & _ & Hl & Hi). done.
  - intros s k Hs Hm Hk Hi. apply (reachable_follows s k Hs Hm Hk Hi).
Qed.

Lemma auth_listeners_follow_session_witness :
  (0 ∈ listeners (run trace_remount (init_with (Some user_u))) /\
   (0, false) ∈ mounted (run trace_remount (init_with (Some user_u)))) /\
  (Store.user (store (run trace_signout_during_init (init_with (Some user_u)))) = None /\
   Store.isAuthenticated (store (run trace_signout_during_init (init_with (Some user_u)))) = false).
Proof.
  assert (H1 : reachable (run trace_remount (init_with (Some user_u))))
    by (apply auth_trace_reachable; [constructor | vm_compute; reflexivity]).
  assert (H2 : reachable (run trace_signout_during_init (init_with (Some user_u))))
    by (apply auth_trace_reachable; [constructor | vm_compute; reflexivity]).
  split.
  - split; [|vm_compute; left].
    apply (proj2 (proj1 (proj1 auth_listeners_follow_session _ H1) 0)).
    vm_compute. split; [left | intros H; inversion H].
  - destruct (proj2 auth_listeners_follow_session _ 0 H2) as (Hu & Ha & _);
      [vm_compute; reflexivity | vm_compute; left | vm_compute; intros H; inversion H |].
    rewrite Hu, Ha. split; vm_compute; reflexivity.
Defined.

End AuthEffectFacts.
