(* ===== verification/Integration.v ===== *)
(** * The views inside App: every click is an App event

    App.v models App.jsx with the store actions of its children as
    environment events ([EvUi]): a tab change ([ActTab], through
    [handleTabChange]) or any store action but [setCurrentPlaylist]
    ([ActStore]).  This file closes the gap between that abstraction and
    the children's handlers as NowPlayingUi.v, PlaylistUi.v and Auth.v
    model them: each handler's change to the store is the effect of a
    sequence of such events ([nowplaying_acts], [playlist_acts],
    [auth_acts]), all of which App accepts, so App's theorems about its
    reachable states hold after every click in the three views.  Module
    [Routing] adds the router of App.jsx 190-198 and the Callback page
    of Callback.jsx. *)

From Stdlib Require Import Ascii.
From S2P Require Import Prelude Track Store Playback Views NowPlayingUi PlaylistUi Auth App AuthEffect.

Module Integration.
Import NowPlaying PlaylistView.

(** App's [allowedb] on a view action, as a function of the store. *)
Definition ui_allowedb (a : ui_action) (st : Store.State) : bool :=
  match a with
  | ActTab v => bool_decide (v ∈ tab_values st)
  | ActStore (Store.OpSetCurrentPlaylist _) => false
  | ActStore _ => true
  end.

(** A view action on the store; a thrown action leaves it as it was,
    as [App.step] does. *)
Definition ui_apply (a : ui_action) (st : Store.State) : Store.State :=
  match ui_step a st with JsOk st' => st' | JsThrow _ => st end.

Fixpoint ui_run (acts : list ui_action) (st : Store.State) : Store.State :=
  match acts with [] => st | a :: acts' => ui_run acts' (ui_apply a st) end.

Fixpoint ui_okb (acts : list ui_action) (st : Store.State) : bool :=
  match acts with [] => true | a :: acts' => ui_allowedb a st && ui_okb acts' (ui_apply a st) end.

(** NowPlaying.jsx 66-76: "Add" creates the playlist and adds to it. *)
Definition input_acts (t : Track) (name : string) : list ui_action :=
  if truthy_str (Some (js_trim name))
  then [ActStore (Store.OpCreatePlaylist (js_trim name)); ActStore (Store.OpAddToPlaylist t (js_trim name))]
  else [].

(** The store actions of a NowPlaying event. *)
Definition nowplaying_acts (p : Props) (e : NowPlayingUi.ev) (u : NowPlayingUi.Ui) : list ui_action :=
  match track p, e with
  | None, _ | _, NowPlayingUi.Type_ _ => []
  | Some t, NowPlayingUi.ClickAdd => input_acts t (NowPlayingUi.playlistName u)
  | Some t, NowPlayingUi.ClickAddTo n =>
      if truthy_str (Some n) then [ActStore (Store.OpAddToPlaylist t n)]
      else input_acts t (NowPlayingUi.playlistName u)
  | Some t, NowPlayingUi.ClickFavorite =>
      [ActStore (if isFavorite (NowPlayingUi.store u) (Some t) then Store.OpRemoveFromFavorites t
                 else Store.OpAddToFavorites t)]
  end.

(** The store actions of a Playlist event. *)
Definition playlist_acts (st : Store.State) (tracks : list Track) (e : PlaylistUi.ev) : list ui_action :=
  match e with
  | PlaylistUi.ClickTab v => [ActTab v]
  | PlaylistUi.ClickPlay _ => []
  | PlaylistUi.ClickRemove i =>
      match displayTracks st tracks ≫= (fun l => l !! i), Store.currentPlaylist st with
      | Some t, Some n => [ActStore (Store.OpRemoveFromPlaylist t n)]
      | _, _ => []
      end
  end.

(** The store actions of an event of the login card. *)
Definition auth_acts (e : AuthForm.ev) (a : AuthForm.Sys) : list ui_action :=
  match e with
  | AuthForm.Answer signUp signIn =>
      [ActStore (match AuthForm.request a with
                 | Some (true, _, _) => Store.OpSignup signUp
                 | _ => Store.OpLogin signIn
                 end)]
  | AuthForm.ClickLogout signOut => [ActStore (Store.OpLogout signOut)]
  | _ => []
  end.

(** The store actions of a step of the auth effect (App.jsx 77-103):
    [initializeAuth], then [setUser] when the run is mounted and a user
    came back; an auth change calls [setUser] once per subscribed
    listener of a mounted run, and so does its [INITIAL_SESSION] call. *)
Definition auth_effect_acts (e : AuthEffect.ev) (x : AuthEffect.Sys) : list ui_action :=
  match e with
  | AuthEffect.InitDone k r1 r2 =>
      ActStore (Store.OpInitializeAuth r1 r2) ::
      match (Store.initializeAuth r1 r2 (AuthEffect.store x)).1 with
      | Some u => if AuthEffect.is_mounted x k then [ActStore (Store.OpSetUser (Some u))] else []
      | None => []
      end
  | AuthEffect.AuthChange u =>
      map (fun _ => ActStore (Store.OpSetUser u)) (List.filter (AuthEffect.is_mounted x) (AuthEffect.listeners x))
  | AuthEffect.InitialSession k =>
      if AuthEffect.is_mounted x k then [ActStore (Store.OpSetUser (AuthEffect.session x))] else []
  | _ => []
  end.

End Integration.

(** ** The router of App.jsx 191-198 with the Callback page *)

Module Routing.

(** The browser's location ([pathname] and [hash]) with App, and whether
    the Callback component is mounted. *)
Record Browser := {
  sys : App.Sys;
  path : string;
  hash : string;
  callback_mounted : bool
}.

(** App.jsx 191-198: while [authLoading] App returns its
    "Initializing authentication..." div and no [<Router>]; otherwise
    the route of the path is rendered. *)
Definition route_shown (b : Browser) : option string :=
  if Store.authLoading (App.store (sys b)) then None else Some (path b).

(** Callback.jsx 7-19: when the "/callback" route renders, Callback
    mounts and its effect runs once ([getTokenFromHash] and, for a
    truthy token, [setSpotifyToken] and [navigate("/")], which unmounts
    it); App then renders and runs its effects, as after any store
    action ([App.flush]). *)
Definition settle (b : Browser) : Browser :=
  if bool_decide (route_shown b = Some "/callback") && negb (callback_mounted b) then
    match CallbackPage.effect (hash b) (App.store (sys b)) with
    | (st', h', true) => {| sys := App.flush (App.with_store st' (sys b)); path := "/"; hash := h';
                           callback_mounted := false |}
    | (_, h', false) => {| sys := sys b; path := path b; hash := h'; callback_mounted := true |}
    end
  else b.

(** An event of App in the browser, then the route's effects. *)
Definition bstep (e : App.ev) (b : Browser) : Browser :=
  settle {| sys := App.step e (sys b); path := path b; hash := hash b; callback_mounted := callback_mounted b |}.

Definition start (p h : string) : Browser :=
  settle {| sys := App.init; path := p; hash := h; callback_mounted := false |}.

End Routing.

Module IntegrationFacts.
Import NowPlaying PlaylistView Integration.

(** ** Helper lemmas *)

Lemma allowedb_ui a s : App.allowedb (App.EvUi a) s = ui_allowedb a (App.store s).
Proof. destruct a as [v|[]]; reflexivity. Qed.

Lemma step_ui_store a s : App.store (App.step (App.EvUi a) s) = ui_apply a (App.store s).
Proof. unfold ui_apply. simpl. destruct (ui_step a (App.store s)); [apply App.flush_store | done]. Qed.

Lemma app_runs_ui acts s :
  ui_okb acts (App.store s) = true ->
  App.trace_ok (map App.EvUi acts) s = true /\ App.store (App.run (map App.EvUi acts) s) = ui_run acts (App.store s).
Proof.
  revert s. induction acts as [|a acts IH]; intros s Hok; [done|].
  simpl in Hok. apply andb_true_iff in Hok as [Ha Hok].
  rewrite <- step_ui_store in Hok. destruct (IH _ Hok) as [Ht Hs].
  cbn [map App.trace_ok App.run]. rewrite allowedb_ui, Ha, Ht. split; [done|]. by rewrite Hs, step_ui_store.
Qed.

(** What the views do to the store, App's events do from a reachable
    state. *)
Lemma app_reaches_ui acts s :
  App.reachable s -> ui_okb acts (App.store s) = true ->
  exists evs, App.reachable (App.run evs s) /\ App.store (App.run evs s) = ui_run acts (App.store s).
Proof.
  intros Hs Hok. destruct (app_runs_ui acts s Hok) as [Ht Hr].
  exists (map App.EvUi acts). split; [by apply App.trace_reachable | exact Hr].
Qed.

Lemma input_acts_ok t name ex st :
  truthy_str ex = false ->
  exists r, handleAddToPlaylist (Some t) name ex st = JsOk r /\
    ui_okb (input_acts t name) st = true /\ ui_run (input_acts t name) st = r.1.
Proof.
  intros Hex. rewrite NowPlayingUiFacts.handleAdd_input by done. unfold input_acts.
  destruct (truthy_str (Some (js_trim name))); eexists; split; try done.
  cbn [ui_run ui_okb ui_allowedb andb]. unfold ui_apply. cbn [ui_step Store.run].
  by rewrite NowPlayingUiFacts.addToPlaylist_created.
Qed.

Lemma nowplaying_acts_ok p e u u' :
  NowPlayingUi.step p e u = JsOk u' ->
  ui_okb (nowplaying_acts p e u) (NowPlayingUi.store u) = true /\
  ui_run (nowplaying_acts p e u) (NowPlayingUi.store u) = NowPlayingUi.store u'.
Proof.
  unfold NowPlayingUi.step, nowplaying_acts.
  destruct e as [v| |n|]; destruct (track p) as [t|]; intros H; try (injection H as <-; done).
  - destruct (input_acts_ok t (NowPlayingUi.playlistName u) None (NowPlayingUi.store u) eq_refl)
      as (r & Hr & Hok & Hrun). rewrite Hr in H. by injection H as <-.
  - destruct (truthy_str (Some n)) eqn:Hn.
    + unfold handleAddToPlaylist in H. rewrite Hn in H. cbv beta iota in H.
      destruct (Store.addToPlaylist t n (NowPlayingUi.store u)) eqn:E; cbn [js_map] in H; [|discriminate].
      injection H as <-. cbn [ui_run ui_okb ui_allowedb andb]. unfold ui_apply. cbn [ui_step Store.run].
      by rewrite E.
    + destruct (input_acts_ok t (NowPlayingUi.playlistName u) (Some n) (NowPlayingUi.store u) Hn)
        as (r & Hr & Hok & Hrun). rewrite Hr in H. by injection H as <-.
  - injection H as <-. unfold handleFavoriteToggle, isFavorite. by destruct (js_some _ _).
Qed.

(** The buttons of a row: playing changes nothing, removing is
    [removeFromPlaylist]. *)
Lemma playlist_row_acts_ok st tracks e st' r :
  PlaylistUi.step st tracks e = JsOk (st', r) -> (forall v, e <> PlaylistUi.ClickTab v) ->
  ui_okb (playlist_acts st tracks e) st = true /\ ui_run (playlist_acts st tracks e) st = st'.
Proof.
  unfold PlaylistUi.step, playlist_acts. destruct e as [v|i|i]; intros H He; [by destruct (He v)| |].
  - by destruct (displayTracks st tracks ≫= _); simplify_eq/=.
  - destruct (displayTracks st tracks ≫= _) as [t|], (Store.currentPlaylist st) as [n|]; simplify_eq/=; try done.
    unfold ui_apply. simpl. destruct (Store.removeFromPlaylist t n st); by simplify_eq/=.
Qed.

Lemma auth_acts_ok e a :
  ui_okb (auth_acts e a) (AuthForm.store a) = true /\
  ui_run (auth_acts e a) (AuthForm.store a) = AuthForm.store (AuthForm.step e a).
Proof.
  destruct e as [v|v| | |su si|r]; simpl; try done.
  - split; [by destruct (AuthForm.request a) as [[[[|] ?] ?]|]|].
    unfold ui_apply. by destruct (AuthForm.request a) as [[[[|] ?] ?]|]; simpl; case_match.
  - unfold ui_apply. simpl. by destruct (Store.logout r (AuthForm.store a)).
Qed.

Lemma setUser_listeners_ok u x ls st :
  ui_okb (map (fun _ => ActStore (Store.OpSetUser u)) (List.filter (AuthEffect.is_mounted x) ls)) st = true /\
  ui_run (map (fun _ => ActStore (Store.OpSetUser u)) (List.filter (AuthEffect.is_mounted x) ls)) st =
    fold_left (AuthEffect.listener x u) ls st.
Proof.
  revert st. induction ls as [|k ls IH]; intros st; [done|]. simpl. unfold AuthEffect.listener at 2.
  destruct (AuthEffect.is_mounted x k); simpl; apply IH.
Qed.

Lemma auth_effect_acts_ok e x :
  ui_okb (auth_effect_acts e x) (AuthEffect.store x) = true /\
  ui_run (auth_effect_acts e x) (AuthEffect.store x) = AuthEffect.store (AuthEffect.step e x).
Proof.
  destruct e as [|k|k r1 r2|u|k]; simpl; try done.
  - unfold AuthEffect.init_done. destruct (Store.initializeAuth r1 r2 (AuthEffect.store x)) as [iu st] eqn:E.
    unfold ui_apply. cbn [ui_step Store.run]. rewrite E. simpl.
    destruct iu as [u|]; [destruct (AuthEffect.is_mounted x k)|]; done.
  - apply setUser_listeners_ok.
  - unfold AuthEffect.listener. by destruct (AuthEffect.is_mounted x k).
Qed.

(** Callback's [setSpotifyToken] is the App event of that action. *)
Lemma setSpotifyToken_event s tok :
  App.step (App.EvUi (ActStore (Store.OpSetSpotifyToken tok))) s =
  App.flush (App.with_store (Store.setSpotifyToken tok (App.store s)) s).
Proof. reflexivity. Qed.

(** ** Theorems *)

(** C18: the Spotify redirect, routed: on the "/callback" route with a
    fragment [#k1=v1&...&kn=vn] (keys and values without "&" or "=", no
    key "__proto__"), nothing happens while App is initializing
    authentication (no [<Router>] is rendered); once auth has settled,
    Callback stores the value of the last [access_token] pair (through
    the App event of [setSpotifyToken], so the state stays reachable)
    and navigates to "/" when that value is non-empty, and otherwise
    stays on "Redirecting..."; in both cases the hash is cleared. *)
Theorem callback_route_roundtrip b ps :
  Forall (fun p => AuthFacts.plain p.1 /\ AuthFacts.plain p.2 /\ p.1 <> "__proto__") ps ->
  Routing.path b = "/callback" -> Routing.hash b = String "#"%char (AuthFacts.encode_pairs ps) ->
  Routing.callback_mounted b = false ->
  (Store.authLoading (App.store (Routing.sys b)) = true -> Routing.settle b = b) /\
  (Store.authLoading (App.store (Routing.sys b)) = false -> App.reachable (Routing.sys b) ->
     App.reachable (Routing.sys (Routing.settle b)) /\ Routing.hash (Routing.settle b) = "" /\
     match AuthFacts.last_value "access_token" ps with
     | Some t =>
         if truthy_str (Some t)
         then App.store (Routing.sys (Routing.settle b)) = Store.setSpotifyToken (Some t) (App.store (Routing.sys b)) /\
              Routing.path (Routing.settle b) = "/"
         else Routing.sys (Routing.settle b) = Routing.sys b /\ Routing.path (Routing.settle b) = "/callback"
     | None => Routing.sys (Routing.settle b) = Routing.sys b /\ Routing.path (Routing.settle b) = "/callback"
     end).
Proof.
  intros Hps Hp Hh Hm. unfold Routing.settle, Routing.route_shown. split.
  - intros Hl. by rewrite Hl.
  - intros Hl Hr. rewrite Hl, Hp, Hm, bool_decide_eq_true_2 by done. cbn [andb negb].
    rewrite Hh, (AuthFacts.callback_fragment_roundtrip ps _ Hps).
    destruct (AuthFacts.last_value _ _) as [t|]; [destruct (truthy_str (Some t)) eqn:Ht|];
      cbn [Routing.sys Routing.path Routing.hash]; [|by repeat split..].
    split; [rewrite <- setSpotifyToken_event; by apply App.reachable_step|].
    split; [done|]. split; [apply App.flush_store | done].
Qed.

Lemma callback_route_roundtrip_witness :
  App.store (Routing.sys (Routing.settle
    {| Routing.sys := App.run App.trace_signed_in App.init; Routing.path := "/callback";
       Routing.hash := String "#"%char (AuthFacts.encode_pairs [("access_token", "BQD123"); ("token_type", "Bearer")]);
       Routing.callback_mounted := false |})) =
  Store.setSpotifyToken (Some "BQD123") (App.store (App.run App.trace_signed_in App.init)).
Proof.
  assert (HF : Forall (fun p => AuthFacts.plain p.1 /\ AuthFacts.plain p.2 /\ p.1 <> "__proto__")
                 [("access_token", "BQD123"); ("token_type", "Bearer")]).
  { repeat constructor; try (apply (bool_decide_unpack _); vm_compute; reflexivity). }
  assert (Hr : App.reachable (App.run App.trace_signed_in App.init))
    by (apply App.reachable_run_trace; vm_compute; reflexivity).
  destruct (proj2 (callback_route_roundtrip
    {| Routing.sys := App.run App.trace_signed_in App.init; Routing.path := "/callback";
       Routing.hash := String "#"%char (AuthFacts.encode_pairs [("access_token", "BQD123"); ("token_type", "Bearer")]);
       Routing.callback_mounted := false |} _ HF eq_refl eq_refl eq_refl)
    ltac:(vm_compute; reflexivity) Hr) as (_ & _ & Hm).
  exact (proj1 Hm).
Defined.

End IntegrationFacts.
